(** * Verification of the folder backup tool (backup.py, main.py)

    Definitions come first.

    - [PosixPath], [Clock], [Py]: the pure helpers of the Python standard
      library the program calls (os.path string functions, strftime,
      exception classes), and a state-and-exception monad with a log.
    - [Backup]: [BackupManager] of backup.py, written against an abstract
      record [OS] of file-system operations, each of which may raise.
    - [Posix]: a tree model of a POSIX file system that instantiates [OS];
      [Examples]: machines to run the program on.
    - [Config]: the preference handling of [BackupApp] in main.py.
    - [Trees], [Logging], [Gui], [Desk]: readable trees, the constructor
      of the manager, the window of the application and its handlers, and
      a window to run them in.

    The theorems follow: what holds of [perform_backup] on any [OS]
    ([PyFacts]), what a run does on the tree model ([BackupFacts], [Runs]),
    what loading and saving the preferences does ([ConfigFacts]), what a
    backup leaves whatever the files allow ([TotalFacts], [ManagerFacts]),
    and what the handlers of the window do ([AppFacts]). *)

From Stdlib Require Import String Ascii List Bool Arith ZArith Lia.
Import ListNotations.
Set Warnings "-abstract-large-number,-register-all".
Open Scope string_scope.
Open Scope list_scope.

(* ================================================================= *)
(** ** os.path on POSIX: paths are strings, the separator is [/] *)

Module PosixPath.

Definition sep : ascii := "/"%char.

(** [s.split('/')]: always at least one component. *)
Fixpoint split (s : string) : list string :=
  match s with
  | EmptyString => [EmptyString]
  | String c r =>
      if Ascii.eqb c sep then EmptyString :: split r
      else match split r with
           | [] => [String c EmptyString]
           | w :: ws => String c w :: ws
           end
  end.

(** ['/' in s] *)
Fixpoint has_sep (s : string) : bool :=
  match s with
  | EmptyString => false
  | String c r => Ascii.eqb c sep || has_sep r
  end.

(** [s.endswith('/')] *)
Fixpoint endswith_sep (s : string) : bool :=
  match s with
  | EmptyString => false
  | String c EmptyString => Ascii.eqb c sep
  | String _ r => endswith_sep r
  end.

(** [s.startswith('/')] *)
Definition startswith_sep (s : string) : bool :=
  match s with
  | String c _ => Ascii.eqb c sep
  | EmptyString => false
  end.

(** [s == '/' * len(s)] *)
Fixpoint all_sep (s : string) : bool :=
  match s with
  | EmptyString => true
  | String c r => Ascii.eqb c sep && all_sep r
  end.

(** [s.rstrip('/')] *)
Fixpoint rstrip_sep (s : string) : string :=
  match s with
  | EmptyString => EmptyString
  | String c r => if all_sep s then EmptyString else String c (rstrip_sep r)
  end.

(** [p[:p.rfind('/') + 1]]: the text up to and including the last slash. *)
Fixpoint upto_last_sep (p : string) : string :=
  match p with
  | EmptyString => EmptyString
  | String c r =>
      if has_sep r then String c (upto_last_sep r)
      else if Ascii.eqb c sep then String c EmptyString
      else EmptyString
  end.

(** [p[p.rfind('/') + 1:]]: the text after the last slash. *)
Fixpoint basename (p : string) : string :=
  match p with
  | EmptyString => EmptyString
  | String c r =>
      if has_sep r then basename r
      else if Ascii.eqb c sep then r
      else p
  end.

(** posixpath.dirname *)
Definition dirname (p : string) : string :=
  let head := upto_last_sep p in
  if negb (String.eqb head "") && negb (all_sep head) then rstrip_sep head
  else head.

(** posixpath.join with two arguments *)
Definition join (a b : string) : string :=
  if startswith_sep b then b
  else if String.eqb a "" || endswith_sep a then a ++ b
  else a ++ "/" ++ b.

(** The components of [abspath(p)], the working directory being the root:
    empty and [.] components are dropped, [..] removes the component before
    it and is dropped at the root (posixpath.normpath on an absolute
    path). *)
Definition norm_step (stack : list string) (comp : string) : list string :=
  if String.eqb comp "" || String.eqb comp "." then stack
  else if String.eqb comp ".." then removelast stack
  else stack ++ [comp].

Definition path_of (p : string) : list string :=
  fold_left norm_step (split p) [].

(** Length of the common prefix of two component lists. *)
Fixpoint common_prefix_len (a b : list string) : nat :=
  match a, b with
  | x :: a', y :: b' => if String.eqb x y then S (common_prefix_len a' b') else 0
  | _, _ => 0
  end.

(** posixpath.relpath(path, start): the components are free of slashes, so
    joining them is [sep.join]. *)
Definition relpath (path start : string) : string :=
  let start_list := path_of start in
  let path_list := path_of path in
  let i := common_prefix_len start_list path_list in
  let rel_list := repeat ".." (length start_list - i) ++ skipn i path_list in
  match rel_list with
  | [] => "."
  | _ => String.concat "/" rel_list
  end.

(** A name a directory entry can carry. *)
Definition proper_name (n : string) : bool :=
  negb (String.eqb n "") && negb (String.eqb n ".") && negb (String.eqb n "..")
  && negb (has_sep n).

End PosixPath.

(* ================================================================= *)
(** ** datetime: the clock readings and their rendering *)

Module Clock.

(** A [datetime.datetime] value.  The constructor of the Python class
    rejects out-of-range fields; [datetime_ok] records the ranges of the
    fields that are printed. *)
Record datetime := mkDatetime {
  year : nat; month : nat; day : nat;
  hour : nat; minute : nat; second : nat; microsecond : nat;
  datetime_ok :
    ((1 <=? year) && (year <=? 9999) && (1 <=? month) && (month <=? 12)
     && (1 <=? day) && (day <=? 31) && (hour <? 24) && (minute <? 60)
     && (second <? 60))%nat = true
}.

(** [end_time - start_time], kept as the two readings. *)
Record timedelta := mkDelta { minuend : datetime; subtrahend : datetime }.

(** The decimal digit of the units of [d]. *)
Definition digit (d : nat) : ascii :=
  nth (d mod 10)
      ["0"; "1"; "2"; "3"; "4"; "5"; "6"; "7"; "8"; "9"]%char "0"%char.

(** [%m], [%d], [%H], [%M], [%S]: two digits, zero padded. *)
Definition dec2 (n : nat) : string :=
  String (digit (n / 10)) (String (digit n) EmptyString).

(** [%Y]: four digits, zero padded. *)
Definition dec4 (n : nat) : string :=
  String (digit (n / 1000)) (String (digit (n / 100)) (dec2 n)).

(** [t.strftime("%Y-%m-%d_%H-%M-%S")] *)
Definition strftime (t : datetime) : string :=
  dec4 (year t) ++ "-" ++ dec2 (month t) ++ "-" ++ dec2 (day t) ++ "_"
  ++ dec2 (hour t) ++ "-" ++ dec2 (minute t) ++ "-" ++ dec2 (second t).

Definition is_digit (c : ascii) : bool :=
  let n := nat_of_ascii c in ((48 <=? n) && (n <=? 57))%nat.

(** The shape YYYY-MM-DD_HH-MM-SS, read off the specification: nineteen
    characters, digits except for the five separators. *)
Definition is_timestamp_format (s : string) : bool :=
  match list_ascii_of_string s with
  | [y1; y2; y3; y4; a; m1; m2; b; d1; d2; c; h1; h2; d; n1; n2; e; s1; s2] =>
      forallb is_digit [y1; y2; y3; y4; m1; m2; d1; d2; h1; h2; n1; n2; s1; s2]
      && Ascii.eqb a "-" && Ascii.eqb b "-" && Ascii.eqb c "_"
      && Ascii.eqb d "-" && Ascii.eqb e "-"
  | _ => false
  end.

End Clock.

(* ================================================================= *)
(** ** Exceptions, f-strings, the log, and the monad of the program *)

Module Py.

(** The exception classes the program names or the library raises.  All
    of them derive from [Exception]. *)
Inductive exn_class :=
| Exception | OSError | PermissionError | FileNotFoundError | FileExistsError
| NotADirectoryError | IsADirectoryError | ShutilError | BadZipFile
| RecursionError | ValueError | TypeError | JSONDecodeError
| UnicodeDecodeError.

Definition exn_class_eqb (a b : exn_class) : bool :=
  match a, b with
  | Exception, Exception | OSError, OSError
  | PermissionError, PermissionError | FileNotFoundError, FileNotFoundError
  | FileExistsError, FileExistsError
  | NotADirectoryError, NotADirectoryError
  | IsADirectoryError, IsADirectoryError | ShutilError, ShutilError
  | BadZipFile, BadZipFile | RecursionError, RecursionError
  | ValueError, ValueError | TypeError, TypeError
  | JSONDecodeError, JSONDecodeError
  | UnicodeDecodeError, UnicodeDecodeError => true
  | _, _ => false
  end.

(** The proper base classes of a class (shutil.Error derives from OSError). *)
Definition bases (c : exn_class) : list exn_class :=
  match c with
  | Exception => []
  | OSError | BadZipFile | RecursionError | ValueError | TypeError => [Exception]
  | PermissionError | FileNotFoundError | FileExistsError
  | NotADirectoryError | IsADirectoryError | ShutilError => [OSError; Exception]
  | JSONDecodeError | UnicodeDecodeError => [ValueError; Exception]
  end.

(** An exception object: its class and its arguments.  For shutil.Error
    the arguments are the collected failures, each reduced to its text. *)
Record exn := mkExn { cls : exn_class; args : list string }.

Definition isinstance (e : exn) (c : exn_class) : bool :=
  exn_class_eqb (cls e) c || existsb (exn_class_eqb c) (bases (cls e)).

Inductive outcome (A : Type) :=
| Ret (a : A)
| Raise (e : exn).
Arguments Ret {A} a.
Arguments Raise {A} e.

(** An f-string: literal text and interpolated values, left unrendered. *)
Inductive piece :=
| Lit (s : string)
| FStr (s : string)
| FBool (b : bool)
| FInt (n : nat)
| FDelta (d : Clock.timedelta)
| FExn (e : exn).

Definition fstring := list piece.

Inductive log_level := INFO | WARNING | ERROR.

Record log_record := mkRecord { level : log_level; message : fstring }.

Definition is_error (r : log_record) : bool :=
  match level r with ERROR => true | _ => false end.

(** A record that reports no error. *)
Definition calm (r : log_record) : Prop := is_error r = false.

Section Monad.

Variable W : Type.

(** The state a call runs in: the outside world and the log written so
    far (oldest record first). *)
Record state := mkState { world : W; log : list log_record }.

Definition M (A : Type) : Type := state -> outcome A * state.

Definition ret {A} (a : A) : M A := fun s => (Ret a, s).

Definition raise {A} (e : exn) : M A := fun s => (Raise e, s).

Definition bind {A B} (m : M A) (k : A -> M B) : M B :=
  fun s => match m s with
           | (Ret a, s') => k a s'
           | (Raise e, s') => (Raise e, s')
           end.

(** An operation of the world, lifted to the program state. *)
Definition lift {A} (op : W -> outcome A * W) : M A :=
  fun s => let (r, w) := op (world s) in (r, mkState w (log s)).

(** An observation of the world that cannot fail. *)
Definition peek {A} (f : W -> A) : M A :=
  fun s => (Ret (f (world s)), s).

(** [self.logger.<level>(msg)]: logging swallows its own failures. *)
Definition logger (l : log_level) (msg : fstring) : M unit :=
  fun s => (Ret tt, mkState (world s) (log s ++ [mkRecord l msg])).

(** [try: body except Exception as e: handler e] where [handler] decides
    by itself which classes it takes and re-raises the others. *)
Definition try_except {A} (body : M A) (handler : exn -> M A) : M A :=
  fun s => match body s with
           | (Ret a, s') => (Ret a, s')
           | (Raise e, s') => handler e s'
           end.

(** [try: body finally: fin] where [fin] ends in [return]: the return
    discards an exception in flight.  [dflt] holds the values the local
    variables have when [body] is left by an exception. *)
Definition finally_return {A B} (body : M A) (dflt : A) (fin : A -> M B) : M B :=
  fun s => match body s with
           | (Ret a, s') => fin a s'
           | (Raise _, s') => fin dflt s'
           end.

(** [for x in l: f x] *)
Fixpoint for_each {A} (l : list A) (f : A -> M unit) : M unit :=
  match l with
  | [] => ret tt
  | x :: r => bind (f x) (fun _ => for_each r f)
  end.

(** A computation that only ever adds records at the end of the log, all
    of them satisfying [P]. *)
Definition logs {A} (P : log_record -> Prop) (m : M A) : Prop :=
  forall s, exists new, log (snd (m s)) = log s ++ new /\ Forall P new.

(** A computation whose results, when it returns, all satisfy [P]. *)
Definition returns {A} (P : A -> Prop) (m : M A) : Prop :=
  forall s a s', m s = (Ret a, s') -> P a.

End Monad.

Arguments world {W} s.
Arguments log {W} s.
Arguments mkState {W} world log.
Arguments ret {W A} a.
Arguments raise {W A} e.
Arguments bind {W A B} m k.
Arguments lift {W A} op.
Arguments peek {W A} f.
Arguments logger {W} l msg.
Arguments try_except {W A} body handler.
Arguments finally_return {W A B} body dflt fin.
Arguments for_each {W A} l f.
Arguments logs {W A} P m.
Arguments returns {W A} P m.

End Py.

Declare Scope py_scope.
Delimit Scope py_scope with py.
Notation "x <- m ;; k" := (Py.bind m (fun x => k))
  (at level 61, m at next level, right associativity) : py_scope.
Notation "m ;; k" := (Py.bind m (fun _ => k))
  (at level 61, right associativity) : py_scope.

(* ================================================================= *)
(** ** backup.py: class BackupManager *)

Module Backup.
Import PosixPath Clock Py.
Local Open Scope py_scope.

Section Manager.

(** The outside world: the file system and the clock. *)
Variable W : Type.

(** The library calls the manager makes.  The tests of os.path answer
    [False] instead of raising; [os.walk] skips what it cannot list, and
    its triples are taken in one go, the loops over them adding or
    removing no name below the directory walked; every other call either
    completes or raises, and may have changed the world in both cases.  A
    [zipfile.ZipFile] opened for writing is named by the path it writes
    to. *)
Record OS := mkOS {
  os_path_exists : string -> W -> bool;
  os_path_isdir : string -> W -> bool;
  os_path_isfile : string -> W -> bool;
  os_makedirs : string -> W -> outcome unit * W;
  os_remove : string -> W -> outcome unit * W;
  os_walk : string -> W -> list (string * list string * list string);
  shutil_rmtree : string -> W -> outcome unit * W;
  shutil_copytree : string -> string -> W -> outcome unit * W;
  zip_open : string -> W -> outcome unit * W;
  zip_write : string -> string -> string -> W -> outcome unit * W;
  zip_close : string -> W -> outcome unit * W;
  datetime_now : W -> datetime * W
}.

Variable os : OS.

Local Abbreviation M := (Py.M W).

(** [datetime.datetime.now()] *)
Definition now : M datetime :=
  fun s => let (t, w) := datetime_now os (world s) in (Ret t, mkState w (log s)).

(** [with zipfile.ZipFile(path, 'w', zipfile.ZIP_DEFLATED) as zipf: body]:
    the archive is closed on the way out, also when [body] raises. *)
Definition with_ZipFile {A} (path : string) (body : M A) : M A :=
  lift (zip_open os path) ;;
  fun s => match body s with
           | (Ret a, s') => (lift (zip_close os path) ;; ret a) s'
           | (Raise e, s') => (lift (zip_close os path) ;; raise e) s'
           end.

Definition _generate_backup_folder_name (base_name : string) : M string :=
  t <- now ;;
  let timestamp := strftime t in
  let version := "v1.0.0" in
  ret (base_name ++ "_" ++ timestamp ++ "_" ++ version)%string.

Definition _count_files_in_folder (folder_path : string) : M nat :=
  triples <- peek (os_walk os folder_path) ;;
  ret (fold_left (fun count '(_, _, files) => count + length files) triples 0).

Definition _copy_folder_contents (source_path destination_path : string) : M bool :=
  try_except
    (present <- peek (os_path_exists os destination_path) ;;
     (if negb present then
        lift (os_makedirs os destination_path) ;;
        logger INFO [Lit "Destination folder created: '"; FStr destination_path; Lit "'"]
      else ret tt) ;;
     lift (shutil_copytree os source_path destination_path) ;;
     ret true)
    (fun e => raise e).

Definition _zip_folder_contents (source_path output_zip_path : string) : M bool :=
  try_except
    (let output_dir := dirname output_zip_path in
     (if negb (String.eqb output_dir "") then
        present <- peek (os_path_exists os output_dir) ;;
        if negb present then
          lift (os_makedirs os output_dir) ;;
          logger INFO [Lit "ZIP output directory created: '"; FStr output_dir; Lit "'"]
        else ret tt
      else ret tt) ;;
     with_ZipFile output_zip_path
       (triples <- peek (os_walk os source_path) ;;
        for_each triples (fun '(root, _, files) =>
          for_each files (fun file =>
            let file_path := join root file in
            let arcname := relpath file_path source_path in
            lift (zip_write os output_zip_path file_path arcname)))) ;;
     ret true)
    (fun e => raise e).

(** The local variables of [perform_backup] that outlive its [try] block. *)
Record locals := mkLocals {
  success : bool;
  files_count : nat;
  error_message : fstring
}.

(** The body of the [try] block.  Every call that can raise comes before
    the first assignment to a local, so the block is left by an exception
    only with the locals at their initial values. *)
Definition perform_backup_try (source_folder full_destination_path : string)
    (compress : bool) : M locals :=
  present <- peek (os_path_exists os full_destination_path) ;;
  (if present then
     is_dir <- peek (os_path_isdir os full_destination_path) ;;
     if is_dir then
       lift (shutil_rmtree os full_destination_path) ;;
       logger WARNING [Lit "Existing backup folder deleted: '";
                       FStr full_destination_path; Lit "'"]
     else
       is_file <- peek (os_path_isfile os full_destination_path) ;;
       if is_file then
         lift (os_remove os full_destination_path) ;;
         logger WARNING [Lit "Existing ZIP backup file deleted: '";
                         FStr full_destination_path; Lit "'"]
       else ret tt
   else ret tt) ;;
  success <- (if compress then
                success <- _zip_folder_contents source_folder full_destination_path ;;
                (if success then
                   logger INFO [Lit "ZIP compression successful from '";
                                FStr source_folder; Lit "' to '";
                                FStr full_destination_path; Lit "'"]
                 else ret tt) ;;
                ret success
              else
                success <- _copy_folder_contents source_folder full_destination_path ;;
                (if success then
                   logger INFO [Lit "Copy successful from '";
                                FStr source_folder; Lit "' to '";
                                FStr full_destination_path; Lit "'"]
                 else ret tt) ;;
                ret success) ;;
  if success then
    files_count <- _count_files_in_folder source_folder ;;
    logger INFO [Lit "Number of files backed up: "; FInt files_count] ;;
    ret (mkLocals success files_count [])
  else ret (mkLocals success 0 []).

(** The [except] clauses, in the order of the source. *)
Definition perform_backup_except (source_folder full_destination_path : string)
    (e : exn) : M locals :=
  if isinstance e PermissionError then
    let error_message :=
      [Lit "Permission Error: Access denied to operate on '"; FStr source_folder;
       Lit "' or '"; FStr full_destination_path; Lit "'"] in
    logger ERROR error_message ;; ret (mkLocals false 0 error_message)
  else if isinstance e ShutilError then
    let error_message := [Lit "Shutil copy error: "; FExn e] in
    logger ERROR error_message ;; ret (mkLocals false 0 error_message)
  else if isinstance e BadZipFile then
    let error_message := [Lit "ZIP file error: "; FExn e] in
    logger ERROR error_message ;; ret (mkLocals false 0 error_message)
  else if isinstance e Exception then
    let error_message := [Lit "An unexpected error occurred: "; FExn e] in
    logger ERROR error_message ;; ret (mkLocals false 0 error_message)
  else raise e.

(** The line the [finally] block logs. *)
Definition result_line (source_folder : string) (duration : timedelta)
    (l : locals) : fstring :=
  let status := if success l then "SUCCESS" else "FAILED" in
  let log_message :=
    [Lit "Backup completed for '"; FStr source_folder; Lit "' - Status: ";
     FStr status; Lit " - Duration: "; FDelta duration; Lit " - Files: ";
     FInt (files_count l)] in
  match error_message l with
  | [] => log_message
  | _ => log_message ++ Lit " - Error: " :: error_message l
  end.

(** The [finally] block, which ends in [return success]. *)
Definition perform_backup_finally (source_folder : string) (start_time : datetime)
    (l : locals) : M bool :=
  end_time <- now ;;
  let duration := mkDelta end_time start_time in
  logger INFO (result_line source_folder duration l) ;;
  ret (success l).

(** The path the backup is written to. *)
Definition destination_path (source_folder base_destination_folder : string)
    (compress : bool) (backup_name_with_version : string) : string :=
  let full_destination_path := join base_destination_folder backup_name_with_version in
  if compress then (full_destination_path ++ ".zip")%string else full_destination_path.

Definition perform_backup (source_folder base_destination_folder : string)
    (compress : bool) : M bool :=
  present <- peek (os_path_exists os source_folder) ;;
  if negb present then
    logger ERROR [Lit "Error: Source folder does not exist: '"; FStr source_folder; Lit "'"] ;;
    ret false
  else
  is_dir <- peek (os_path_isdir os source_folder) ;;
  if negb is_dir then
    logger ERROR [Lit "Error: Source path is not a directory: '"; FStr source_folder; Lit "'"] ;;
    ret false
  else
  let base_name := basename source_folder in
  backup_name_with_version <- _generate_backup_folder_name base_name ;;
  let full_destination_path :=
    destination_path source_folder base_destination_folder compress
                     backup_name_with_version in
  logger INFO [Lit "Starting backup of '"; FStr source_folder; Lit "' to '";
               FStr full_destination_path; Lit "' (Compression: "; FBool compress;
               Lit ")"] ;;
  start_time <- now ;;
  finally_return
    (try_except (perform_backup_try source_folder full_destination_path compress)
                (perform_backup_except source_folder full_destination_path))
    (mkLocals false 0 [])
    (perform_backup_finally source_folder start_time).

End Manager.

Arguments mkOS {W}.
Arguments os_path_exists {W} o _ _.
Arguments os_path_isdir {W} o _ _.
Arguments os_path_isfile {W} o _ _.
Arguments os_makedirs {W} o _ _.
Arguments os_remove {W} o _ _.
Arguments os_walk {W} o _ _.
Arguments shutil_rmtree {W} o _ _.
Arguments shutil_copytree {W} o _ _ _.
Arguments zip_open {W} o _ _.
Arguments zip_write {W} o _ _ _ _.
Arguments zip_close {W} o _ _.
Arguments datetime_now {W} o _.
Arguments now {W} os.
Arguments with_ZipFile {W} os {A} path body.
Arguments _generate_backup_folder_name {W} os base_name.
Arguments _count_files_in_folder {W} os folder_path.
Arguments _copy_folder_contents {W} os source_path destination_path.
Arguments _zip_folder_contents {W} os source_path output_zip_path.
Arguments perform_backup_try {W} os _ _ _.
Arguments perform_backup_except {W} _ _ _.
Arguments perform_backup_finally {W} os _ _ _.
Arguments perform_backup {W} os _ _ _.

End Backup.

(* ================================================================= *)
(** ** A POSIX file system as a tree *)

Module Posix.
Import PosixPath Clock Py.

(** What a regular file holds: plain bytes, or a zip archive with its
    members (name in the archive, what was stored), which is [closed]
    once its directory has been written. *)
Inductive content :=
| Bytes (data : list Byte.byte)
| Zip (closed : bool) (members : list (string * content)).

(** A regular file with its read permission, or a directory with its
    entries in listing order. *)
Inductive node :=
| File (readable : bool) (data : content)
| Dir (entries : list (string * node)).

Definition is_dir (n : node) : bool :=
  match n with Dir _ => true | File _ _ => false end.

Fixpoint assoc (name : string) (es : list (string * node)) : option node :=
  match es with
  | [] => None
  | (k, m) :: r => if String.eqb k name then Some m else assoc name r
  end.

(** Replace the entry called [name], or add it at the end. *)
Fixpoint upsert (name : string) (v : node) (es : list (string * node))
  : list (string * node) :=
  match es with
  | [] => [(name, v)]
  | (k, m) :: r =>
      if String.eqb k name then (k, v) :: r else (k, m) :: upsert name v r
  end.

Definition discard (name : string) (es : list (string * node))
  : list (string * node) :=
  filter (fun e => negb (String.eqb (fst e) name)) es.

(** The node a path of components leads to. *)
Fixpoint get (n : node) (p : list string) : option node :=
  match p with
  | [] => Some n
  | c :: p' =>
      match n with
      | Dir es => match assoc c es with
                  | Some m => get m p'
                  | None => None
                  end
      | File _ _ => None
      end
  end.

(** Store [v] at path [p]; nothing changes when the directory that should
    hold it is missing. *)
Fixpoint put (n : node) (p : list string) (v : node) : node :=
  match p with
  | [] => v
  | c :: p' =>
      match n with
      | Dir es =>
          match assoc c es with
          | Some m => Dir (upsert c (put m p' v) es)
          | None => match p' with
                    | [] => Dir (es ++ [(c, v)])
                    | _ => n
                    end
          end
      | File _ _ => n
      end
  end.

(** Unlink what is at path [p]. *)
Fixpoint del (n : node) (p : list string) : node :=
  match p with
  | [] => n
  | c :: p' =>
      match n with
      | Dir es =>
          match p' with
          | [] => Dir (discard c es)
          | _ => match assoc c es with
                 | Some m => Dir (upsert c (del m p') es)
                 | None => n
                 end
          end
      | File _ _ => n
      end
  end.

(** A chain of fresh directories, one inside the other. *)
Fixpoint chain (p : list string) : node :=
  match p with
  | [] => Dir []
  | c :: p' => Dir [(c, chain p')]
  end.

(** Create the directories of [p] that are missing; [None] when a regular
    file stands in the way. *)
Fixpoint mkdirs (n : node) (p : list string) : option node :=
  match n with
  | File _ _ => None
  | Dir es =>
      match p with
      | [] => Some n
      | c :: p' =>
          match assoc c es with
          | Some m => match mkdirs m p' with
                      | Some m' => Some (Dir (upsert c m' es))
                      | None => None
                      end
          | None => Some (Dir (es ++ [(c, chain p')]))
          end
      end
  end.

(** The machine the process runs on: the tree under [/], which is also
    the working directory, the reading of the clock, and how many calls
    deep the interpreter lets [shutil.copytree] recurse. *)
Record host := mkHost {
  root : node;
  clock : datetime;
  depth_limit : nat
}.

Definition with_root (w : host) (r : node) : host :=
  mkHost r (clock w) (depth_limit w).

(** Path resolution: the empty string names nothing. *)
Definition resolve (p : string) : option (list string) :=
  if String.eqb p "" then None else Some (path_of p).

Definition lookup (p : string) (w : host) : option node :=
  match resolve p with
  | Some cp => get (root w) cp
  | None => None
  end.

Definition path_exists (p : string) (w : host) : bool :=
  match lookup p w with Some _ => true | None => false end.

Definition path_isdir (p : string) (w : host) : bool :=
  match lookup p w with Some (Dir _) => true | _ => false end.

Definition path_isfile (p : string) (w : host) : bool :=
  match lookup p w with Some (File _ _) => true | _ => false end.

Definition error (c : exn_class) (text : string) : exn := mkExn c [text].

(** os.makedirs(name, exist_ok=...) on components *)
Definition makedirs_at (cp : list string) (exist_ok : bool) (r : node)
  : outcome unit * node :=
  match get r cp with
  | Some (Dir _) =>
      if exist_ok then (Ret tt, r) else (Raise (error FileExistsError "File exists"), r)
  | Some (File _ _) => (Raise (error FileExistsError "File exists"), r)
  | None =>
      match mkdirs r cp with
      | Some r' => (Ret tt, r')
      | None => (Raise (error NotADirectoryError "Not a directory"), r)
      end
  end.

Definition makedirs (p : string) (w : host) : outcome unit * host :=
  match resolve p with
  | None => (Raise (error FileNotFoundError "No such file or directory"), w)
  | Some cp => let (res, r) := makedirs_at cp false (root w) in (res, with_root w r)
  end.

(** shutil.rmtree(path) *)
Definition rmtree (p : string) (w : host) : outcome unit * host :=
  match resolve p with
  | None => (Raise (error FileNotFoundError "No such file or directory"), w)
  | Some cp =>
      match cp, get (root w) cp with
      | [], _ => (Raise (error PermissionError "Operation not permitted"), w)
      | _, Some (Dir _) => (Ret tt, with_root w (del (root w) cp))
      | _, Some (File _ _) => (Raise (error NotADirectoryError "Not a directory"), w)
      | _, None => (Raise (error FileNotFoundError "No such file or directory"), w)
      end
  end.

(** os.remove(path) *)
Definition remove (p : string) (w : host) : outcome unit * host :=
  match resolve p with
  | None => (Raise (error FileNotFoundError "No such file or directory"), w)
  | Some cp =>
      match get (root w) cp with
      | Some (File _ _) => (Ret tt, with_root w (del (root w) cp))
      | Some (Dir _) => (Raise (error IsADirectoryError "Is a directory"), w)
      | None => (Raise (error FileNotFoundError "No such file or directory"), w)
      end
  end.

Definition list_eqb (a b : list string) : bool :=
  if list_eq_dec string_dec a b then true else false.

(** shutil.copy2(src, dst) for a regular file: the bytes and the mode. *)
Definition copy2 (src dst : list string) (r : node) : outcome unit * node :=
  if list_eqb src dst then
    (Raise (error ShutilError "are the same file"), r)
  else
    match get r src with
    | None => (Raise (error FileNotFoundError "No such file or directory"), r)
    | Some (Dir _) => (Raise (error IsADirectoryError "Is a directory"), r)
    | Some (File false _) => (Raise (error PermissionError "Permission denied"), r)
    | Some (File true data) =>
        match get r dst, get r (removelast dst) with
        | Some (Dir _), _ => (Raise (error IsADirectoryError "Is a directory"), r)
        | _, Some (Dir _) => (Ret tt, put r dst (File true data))
        | _, Some (File _ _) => (Raise (error NotADirectoryError "Not a directory"), r)
        | _, None => (Raise (error FileNotFoundError "No such file or directory"), r)
        end
    end.

(** What the loop of copytree does with a failure of one entry: a
    shutil.Error hands over its list ([errors.extend]), another OSError is
    noted as one more item ([errors.append]), anything else ends the
    copy. *)
Definition collect (e : exn) (errors : list string) : option (list string) :=
  if isinstance e ShutilError then Some (errors ++ args e)
  else if isinstance e OSError then Some (errors ++ [String.concat ", " (args e)])
  else None.

(** The loop of copytree over the entries listed in [src]: a directory is
    handed to [copy_dir], the recursive call, a file to [copy2]. *)
Fixpoint copy_entries
    (copy_dir : list string -> list string -> node -> outcome unit * node)
    (src dst : list string) (entries : list (string * bool)) (r : node)
    (errors : list string) : option exn * node * list string :=
  match entries with
  | [] => (None, r, errors)
  | (name, isdir) :: rest =>
      let (res, r') :=
        if isdir then copy_dir (src ++ [name]) (dst ++ [name]) r
        else copy2 (src ++ [name]) (dst ++ [name]) r in
      match res with
      | Ret _ => copy_entries copy_dir src dst rest r' errors
      | Raise e =>
          match collect e errors with
          | Some errors' => copy_entries copy_dir src dst rest r' errors'
          | None => (Some e, r', errors)
          end
      end
  end.

(** shutil.copytree(src, dst, dirs_exist_ok=True).  The entries of [src]
    are listed once, before [dst] is made; each entry is then read from
    the tree as it is when its turn comes.  Failures of single entries are
    collected and raised together at the end. *)
Fixpoint copytree_at (depth : nat) (src dst : list string) (r : node)
  : outcome unit * node :=
  match depth with
  | 0 => (Raise (error RecursionError "maximum recursion depth exceeded"), r)
  | S depth' =>
      match get r src with
      | None => (Raise (error FileNotFoundError "No such file or directory"), r)
      | Some (File _ _) => (Raise (error NotADirectoryError "Not a directory"), r)
      | Some (Dir es) =>
          let entries := map (fun e => (fst e, is_dir (snd e))) es in
          match makedirs_at dst true r with
          | (Raise e, r1) => (Raise e, r1)
          | (Ret _, r1) =>
              match copy_entries (copytree_at depth') src dst entries r1 [] with
              | (Some e, r2, _) => (Raise e, r2)
              | (None, r2, []) => (Ret tt, r2)
              | (None, r2, errors) => (Raise (mkExn ShutilError errors), r2)
              end
          end
      end
  end.

Definition copytree (src dst : string) (w : host) : outcome unit * host :=
  match resolve src, resolve dst with
  | Some s, Some d =>
      let (res, r) := copytree_at (depth_limit w) s d (root w) in
      (res, with_root w r)
  | _, _ => (Raise (error FileNotFoundError "No such file or directory"), w)
  end.

Definition dirnames (es : list (string * node)) : list string :=
  map fst (filter (fun e => is_dir (snd e)) es).

Definition filenames (es : list (string * node)) : list string :=
  map fst (filter (fun e => negb (is_dir (snd e))) es).

(** os.walk(top), top down: a directory, then its subdirectories in
    listing order. *)
Fixpoint walk_node (top : string) (n : node)
  : list (string * list string * list string) :=
  match n with
  | File _ _ => []
  | Dir es =>
      (top, dirnames es, filenames es)
      :: flat_map (fun e => walk_node (join top (fst e)) (snd e)) es
  end.

Definition walk (top : string) (w : host)
  : list (string * list string * list string) :=
  match lookup top w with
  | Some n => walk_node top n
  | None => []
  end.

(** zipfile.ZipFile(path, 'w'): the file is created or emptied. *)
Definition zip_open (p : string) (w : host) : outcome unit * host :=
  match resolve p with
  | None => (Raise (error FileNotFoundError "No such file or directory"), w)
  | Some cp =>
      match get (root w) cp, get (root w) (removelast cp) with
      | Some (Dir _), _ => (Raise (error IsADirectoryError "Is a directory"), w)
      | _, Some (Dir _) => (Ret tt, with_root w (put (root w) cp (File true (Zip false []))))
      | _, Some (File _ _) => (Raise (error NotADirectoryError "Not a directory"), w)
      | _, None => (Raise (error FileNotFoundError "No such file or directory"), w)
      end
  end.

(** What [zipf.write(file_path, arcname)] stores: a file's content under
    [arcname], a directory as an empty member whose name ends in a slash. *)
Definition member_of (file_path arcname : string) (w : host)
  : outcome (string * content) :=
  match lookup file_path w with
  | Some (File true data) => Ret (arcname, data)
  | Some (File false _) => Raise (error PermissionError "Permission denied")
  | Some (Dir _) => Ret ((arcname ++ "/")%string, Bytes [])
  | None => Raise (error FileNotFoundError "No such file or directory")
  end.

(** [zipf.write(file_path, arcname)] for the archive being written at [zp]. *)
Definition zip_write (zp file_path arcname : string) (w : host)
  : outcome unit * host :=
  match member_of file_path arcname w with
  | Raise e => (Raise e, w)
  | Ret member =>
      match resolve zp with
      | Some cp =>
          match get (root w) cp with
          | Some (File readable (Zip false members)) =>
              (Ret tt, with_root w (put (root w) cp
                                        (File readable (Zip false (members ++ [member])))))
          | _ => (Raise (error ValueError "Attempt to write to ZIP archive that was already closed"), w)
          end
      | None => (Raise (error ValueError "Attempt to write to ZIP archive that was already closed"), w)
      end
  end.

(** [zipf.close()]: the directory of the archive is written. *)
Definition zip_close (zp : string) (w : host) : outcome unit * host :=
  match resolve zp with
  | Some cp =>
      match get (root w) cp with
      | Some (File readable (Zip false members)) =>
          (Ret tt, with_root w (put (root w) cp (File readable (Zip true members))))
      | _ => (Ret tt, w)
      end
  | None => (Ret tt, w)
  end.

Definition posix : Backup.OS host :=
  Backup.mkOS path_exists path_isdir path_isfile makedirs remove walk rmtree
              copytree zip_open zip_write zip_close (fun w => (clock w, w)).

(** *** What a run does to the machine, the log left aside *)

(** The clean-up at the head of the [try] block of [perform_backup]. *)
Definition clear_destination (dest : string) (w : host) : outcome unit * host :=
  if path_exists dest w then
    if path_isdir dest w then rmtree dest w
    else if path_isfile dest w then remove dest w
    else (Ret tt, w)
  else (Ret tt, w).

(** [_copy_folder_contents] *)
Definition copy_run (src dest : string) (w : host) : outcome unit * host :=
  let (res, w1) := if path_exists dest w then (Ret tt, w) else makedirs dest w in
  match res with
  | Raise e => (Raise e, w1)
  | Ret _ => copytree src dest w1
  end.

(** The two loops of [_zip_folder_contents]. *)
Fixpoint write_files (zp src top : string) (files : list string) (w : host)
  : outcome unit * host :=
  match files with
  | [] => (Ret tt, w)
  | file :: rest =>
      match zip_write zp (join top file) (relpath (join top file) src) w with
      | (Ret _, w') => write_files zp src top rest w'
      | (Raise e, w') => (Raise e, w')
      end
  end.

Fixpoint write_triples (zp src : string)
    (triples : list (string * list string * list string)) (w : host)
  : outcome unit * host :=
  match triples with
  | [] => (Ret tt, w)
  | (top, _, files) :: rest =>
      match write_files zp src top files w with
      | (Ret _, w') => write_triples zp src rest w'
      | (Raise e, w') => (Raise e, w')
      end
  end.

(** [_zip_folder_contents] *)
Definition zip_run (src dest : string) (w : host) : outcome unit * host :=
  let output_dir := dirname dest in
  let (res, w1) :=
    if negb (String.eqb output_dir "") && negb (path_exists output_dir w)
    then makedirs output_dir w else (Ret tt, w) in
  match res with
  | Raise e => (Raise e, w1)
  | Ret _ =>
      match zip_open dest w1 with
      | (Raise e, w2) => (Raise e, w2)
      | (Ret _, w2) =>
          match write_triples dest src (walk src w2) w2 with
          | (Ret _, w3) => zip_close dest w3
          | (Raise e, w3) =>
              match zip_close dest w3 with
              | (Ret _, w4) => (Raise e, w4)
              | (Raise e', w4) => (Raise e', w4)
              end
          end
      end
  end.

(** The [try] block of [perform_backup] up to the count of files. *)
Definition write_run (src dest : string) (compress : bool) (w : host)
  : outcome unit * host :=
  match clear_destination dest w with
  | (Raise e, w1) => (Raise e, w1)
  | (Ret _, w1) => if compress then zip_run src dest w1 else copy_run src dest w1
  end.

(** [_count_files_in_folder] *)
Definition counted (folder : string) (w : host) : nat :=
  fold_left (fun count '(_, _, files) => count + length files) (walk folder w) 0.

(** The name [_generate_backup_folder_name] gives at clock reading [t]. *)
Definition backup_name (src : string) (t : datetime) : string :=
  (basename src ++ "_" ++ strftime t ++ "_" ++ "v1.0.0")%string.

(** Where a run started at clock reading [t] writes. *)
Definition destination (src base : string) (compress : bool) (t : datetime) : string :=
  Backup.destination_path src base compress (backup_name src t).

(** *** Vocabulary of the statements *)

(** Induction on trees that reaches the entries of a directory. *)
Fixpoint node_induction (P : node -> Prop)
    (HF : forall readable data, P (File readable data))
    (HD : forall es, Forall (fun e => P (snd e)) es -> P (Dir es))
    (n : node) : P n :=
  match n with
  | File readable data => HF readable data
  | Dir es =>
      HD es ((fix all (l : list (string * node)) : Forall (fun e => P (snd e)) l :=
                match l with
                | [] => Forall_nil _
                | e :: r => Forall_cons e (node_induction P HF HD (snd e)) (all r)
                end) es)
  end.

(** [a] is [b] or an ancestor of [b]. *)
Fixpoint is_prefix (a b : list string) : bool :=
  match a, b with
  | [], _ => true
  | x :: a', y :: b' => String.eqb x y && is_prefix a' b'
  | _ :: _, [] => false
  end.

(** Neither path is the other or leads to it. *)
Definition incomparable (p q : list string) : Prop :=
  is_prefix p q = false /\ is_prefix q p = false.

(** [dst] is an empty directory, or a name not yet taken in an existing
    directory. *)
Definition vacant (r : node) (dst : list string) : Prop :=
  get r dst = Some (Dir [])
  \/ exists p c es, dst = p ++ [c] /\ get r p = Some (Dir es) /\ assoc c es = None.

(** Every directory of [r] is still a directory in [r']. *)
Definition keeps_dirs (r r' : node) : Prop :=
  forall q es, get r q = Some (Dir es) -> exists es', get r' q = Some (Dir es').

(** The number of regular files below a node. *)
Fixpoint count_files (n : node) : nat :=
  match n with
  | File _ _ => 1
  | Dir es => list_sum (map (fun e => count_files (snd e)) es)
  end.

(** The regular files among the entries [l] of the directory at [rel],
    each under its path relative to the root of the walk. *)
Definition file_members (rel : list string) (l : list (string * node))
  : list (string * content) :=
  flat_map (fun e => match snd e with
                     | File _ data => [(String.concat "/" (rel ++ [fst e]), data)]
                     | Dir _ => []
                     end) l.

(** What an archive of the tree below [n] holds when every regular file
    is stored under its relative path, [rel] being the path of [n] itself:
    the files of a directory, then those of its subdirectories. *)
Fixpoint members_of (rel : list string) (n : node) : list (string * content) :=
  match n with
  | File _ _ => []
  | Dir es =>
      file_members rel es
      ++ flat_map (fun e => members_of (rel ++ [fst e]) (snd e)) es
  end.

(** Two trees hold the same files: the same relative paths, with the same
    contents. *)
Definition same_files (a b : node) : Prop :=
  forall rel data,
    (exists readable, get a rel = Some (File readable data))
    <-> (exists readable, get b rel = Some (File readable data)).

(** The number of regular files in the tree a lookup found; [os.walk]
    yields nothing when there is no directory. *)
Definition files_in (found : option node) : nat :=
  match found with
  | Some (Dir es) => count_files (Dir es)
  | _ => 0
  end.

Fixpoint distinct (l : list string) : bool :=
  match l with
  | [] => true
  | x :: r => negb (existsb (String.eqb x) r) && distinct r
  end.

(** A tree a file system can hold: in every directory the names are
    proper and differ from one another. *)
Fixpoint well_formed (n : node) : bool :=
  match n with
  | File _ _ => true
  | Dir es =>
      distinct (map fst es)
      && forallb (fun e => proper_name (fst e) && well_formed (snd e)) es
  end.

End Posix.

(* ================================================================= *)
(** ** Machines to run the program on *)

Module Examples.
Import Clock Py Posix.

Definition t0 : datetime := mkDatetime 2024 5 17 9 3 41 0 eq_refl.

Definition text (data : list Byte.byte) : node := File true (Bytes data).

(** /docs holds a file, a subdirectory with a file and an empty directory;
    /backups is empty. *)
Definition docs : node :=
  Dir [("a.txt", text [Byte.x61]);
       ("sub", Dir [("b.txt", text [Byte.x62]); ("empty", Dir [])])].

Definition w0 : host :=
  mkHost (Dir [("docs", docs); ("backups", Dir [])]) t0 100.

(** The same with an earlier backup under the name the next one will take. *)
Definition old_backup : node := Dir [("old.txt", text [Byte.x6f])].

Definition w1 : host :=
  mkHost (Dir [("docs", docs);
               ("backups", Dir [("docs_2024-05-17_09-03-41_v1.0.0", old_backup)])])
         t0 100.

(** The earlier backup again, and a source with a file that cannot be read. *)
Definition w2 : host :=
  mkHost (Dir [("docs", Dir [("a.txt", text [Byte.x61]);
                             ("secret", File false (Bytes [Byte.x73]))]);
               ("backups", Dir [("docs_2024-05-17_09-03-41_v1.0.0", old_backup)])])
         t0 100.

(** The same source, with an earlier archive under the name the next
    one will take. *)
Definition old_archive : node :=
  File true (Zip true [("old.txt", Bytes [Byte.x6f])]).

Definition w3 : host :=
  mkHost (Dir [("docs", Dir [("a.txt", text [Byte.x61]);
                             ("secret", File false (Bytes [Byte.x73]))]);
               ("backups", Dir [("docs_2024-05-17_09-03-41_v1.0.0.zip", old_archive)])])
         t0 100.

End Examples.

(* ================================================================= *)
(** ** main.py: the preferences of class BackupApp *)

Module Config.
Import Py.
Local Open Scope py_scope.

(** The values [json.load] returns and [json.dump] accepts. *)
Inductive json :=
| JNull
| JBool (b : bool)
| JInt (z : Z)
| JStr (s : string)
| JList (items : list json)
| JDict (items : list (string * json)).

(** What config.json holds, as far as [json.load] can tell: bytes that are
    not text in the encoding of the locale, text that is not a JSON
    document, or the text of a JSON document. *)
Inductive file_content :=
| Undecodable
| Malformed
| Document (v : json).

(** The application object and the part of the disk it touches. *)
Record app := mkApp {
  config_json : option file_content;   (* config.json, [None] when absent *)
  read_only : bool;                    (* config.json cannot be opened for writing *)
  config : json;                       (* self.config *)
  source_path_var : string;
  destination_path_var : string;
  compress_var : bool;
  dialogs : list (string * fstring)    (* the message boxes shown *)
}.

Local Abbreviation M := (Py.M app).

(** [os.path.exists(self.config_path)] *)
Definition config_exists (a : app) : bool :=
  match config_json a with Some _ => true | None => false end.

(** [with open(self.config_path, 'r') as f: json.load(f)] *)
Definition json_load (a : app) : outcome json * app :=
  match config_json a with
  | Some (Document v) => (Ret v, a)
  | Some Malformed => (Raise (mkExn JSONDecodeError ["Expecting value"]), a)
  | Some Undecodable => (Raise (mkExn UnicodeDecodeError ["invalid start byte"]), a)
  | None => (Raise (mkExn FileNotFoundError ["No such file or directory"]), a)
  end.

(** [with open(self.config_path, 'w') as f: json.dump(config_data, f, indent=4)] *)
Definition json_dump (config_data : json) (a : app) : outcome unit * app :=
  if read_only a then (Raise (mkExn PermissionError ["Permission denied"]), a)
  else (Ret tt,
        mkApp (Some (Document config_data)) (read_only a) (config a)
              (source_path_var a) (destination_path_var a) (compress_var a)
              (dialogs a)).

(** [messagebox.showerror(title, message)] *)
Definition showerror (title : string) (message : fstring) (a : app)
  : outcome unit * app :=
  (Ret tt,
   mkApp (config_json a) (read_only a) (config a) (source_path_var a)
         (destination_path_var a) (compress_var a) (dialogs a ++ [(title, message)])).

(** [d[key] = v] on a dict: the value of an existing key is replaced where
    it stands, a new key goes to the end. *)
Fixpoint dict_set (key : string) (v : json) (items : list (string * json))
  : list (string * json) :=
  match items with
  | [] => [(key, v)]
  | (k, x) :: r =>
      if String.eqb k key then (k, v) :: r else (k, x) :: dict_set key v r
  end.

Fixpoint dict_get (key : string) (items : list (string * json)) : option json :=
  match items with
  | [] => None
  | (k, x) :: r => if String.eqb k key then Some x else dict_get key r
  end.

(** [self.config[key] = v]: only a dict takes a string subscript. *)
Definition setitem (key : string) (v : json) (a : app) : outcome unit * app :=
  match config a with
  | JDict items =>
      (Ret tt,
       mkApp (config_json a) (read_only a) (JDict (dict_set key v items))
             (source_path_var a) (destination_path_var a) (compress_var a)
             (dialogs a))
  | _ => (Raise (mkExn TypeError ["object does not support item assignment"]), a)
  end.

Definition _save_config (config_data : json) : M unit :=
  try_except
    (lift (json_dump config_data))
    (fun e =>
       if isinstance e Exception then
         lift (showerror "Save Error" [Lit "Could not save configuration: "; FExn e])
       else raise e).

Definition default_config : json :=
  JDict [("source_folder", JStr "");
         ("destination_folder", JStr "");
         ("compress_backup", JBool false);
         ("backup_interval_days", JInt 7)].

Definition _create_default_config : M json :=
  _save_config default_config ;;
  ret default_config.

Definition _load_config : M json :=
  present <- peek config_exists ;;
  if present then
    try_except
      (lift json_load)
      (fun e =>
         if isinstance e JSONDecodeError then
           lift (showerror "Configuration Error"
                           [Lit "The config.json file is corrupted. Creating a new one."]) ;;
           _create_default_config
         else raise e)
  else _create_default_config.

Definition _save_preferences_from_gui : M unit :=
  source <- peek source_path_var ;;
  lift (setitem "source_folder" (JStr source)) ;;
  destination <- peek destination_path_var ;;
  lift (setitem "destination_folder" (JStr destination)) ;;
  compress <- peek compress_var ;;
  lift (setitem "compress_backup" (JBool compress)) ;;
  config_data <- peek config ;;
  _save_config config_data.

(** The keys of a JSON object, in the order they are written. *)
Definition keys (v : json) : option (list string) :=
  match v with
  | JDict items => Some (map fst items)
  | _ => None
  end.

Definition the_four_keys : list string :=
  ["source_folder"; "destination_folder"; "compress_backup"; "backup_interval_days"].

(** A JSON object that has exactly the given keys, each once. *)
Definition has_exactly_keys (v : json) (ks : list string) : Prop :=
  exists items, v = JDict items /\ NoDup (map fst items)
                /\ forall k, In k (map fst items) <-> In k ks.

End Config.

(* ================================================================= *)
(** ** Further vocabulary: readable trees, and readings of the clock *)

Module Trees.
Import Clock Posix.

(** Every regular file below the node can be read. *)
Fixpoint all_readable (n : node) : bool :=
  match n with
  | File readable _ => readable
  | Dir es => forallb (fun e => all_readable (snd e)) es
  end.

(** How many calls of copytree, one inside the other, a tree asks for. *)
Fixpoint height (n : node) : nat :=
  match n with
  | File _ _ => 0
  | Dir es => S (list_max (map (fun e => height (snd e)) es))
  end.

(** The tree without the regular files that cannot be read. *)
Fixpoint prune (n : node) : node :=
  match n with
  | File readable data => File readable data
  | Dir es =>
      Dir (flat_map (fun e => match snd e with
                              | File false _ => []
                              | File true data => [(fst e, File true data)]
                              | Dir _ => [(fst e, prune (snd e))]
                              end) es)
  end.

(** What copytree leaves of one entry of a directory. *)
Definition kept (e : string * node) : list (string * node) :=
  match snd e with
  | File false _ => []
  | File true data => [(fst e, File true data)]
  | Dir _ => [(fst e, prune (snd e))]
  end.

(** How a copy of the tree [n] ends: it returns when every file could be
    read, and raises a shutil.Error that lists the failures otherwise. *)
Definition verdict (res : Py.outcome unit) (n : node) : Prop :=
  match res with
  | Py.Ret _ => all_readable n = true
  | Py.Raise e =>
      all_readable n = false /\ Py.cls e = Py.ShutilError /\ Py.args e <> []
  end.

(** Two readings of the clock that agree down to the second. *)
Definition same_second (a b : datetime) : Prop :=
  year a = year b /\ month a = month b /\ day a = day b
  /\ hour a = hour b /\ minute a = minute b /\ second a = second b.

End Trees.

(* ================================================================= *)
(** ** backup.py: the constructor of BackupManager *)

Module Logging.
Import PosixPath Py Backup.
Local Open Scope py_scope.

Section Setup.

Variable W : Type.
Variable os : OS W.

(** [logging.basicConfig(filename=..., level=logging.INFO, format=...)]:
    it may open the log file, and raises when it cannot. *)
Variable logging_basicConfig : string -> W -> outcome unit * W.

Definition _setup_logging (log_file : string) : M W unit :=
  let log_dir := dirname log_file in
  (if negb (String.eqb log_dir "") then
     present <- peek (os_path_exists os log_dir) ;;
     if negb present then lift (os_makedirs os log_dir) else ret tt
   else ret tt) ;;
  lift (logging_basicConfig log_file).

Definition __init__ (log_file : string) : M W unit :=
  _setup_logging log_file ;;
  logger INFO [Lit "BackupManager initialized."].

End Setup.

Arguments _setup_logging {W} os logging_basicConfig log_file.
Arguments __init__ {W} os logging_basicConfig log_file.

End Logging.

(* ================================================================= *)
(** ** main.py: the window of class BackupApp *)

Module Gui.
Import PosixPath Py Backup Config.
Local Open Scope py_scope.

(** What Tk does with a value of the configuration that is handed to a
    variable of the window. *)
Record Tk := mkTk {
  string_of : json -> string;         (* [StringVar.get()] after [.set(v)] *)
  getboolean : json -> outcome bool   (* [tk.getboolean(v)], which
                                         [BooleanVar.set(v)] calls first *)
}.

(** Setting the attributes and variables of the application object. *)
Definition set_config (v : json) (a : app) : outcome unit * app :=
  (Ret tt,
   mkApp (config_json a) (read_only a) v (source_path_var a)
         (destination_path_var a) (compress_var a) (dialogs a)).

Definition set_source_path_var (v : string) (a : app) : outcome unit * app :=
  (Ret tt,
   mkApp (config_json a) (read_only a) (config a) v
         (destination_path_var a) (compress_var a) (dialogs a)).

Definition set_destination_path_var (v : string) (a : app) : outcome unit * app :=
  (Ret tt,
   mkApp (config_json a) (read_only a) (config a) (source_path_var a)
         v (compress_var a) (dialogs a)).

Definition set_compress_var (v : bool) (a : app) : outcome unit * app :=
  (Ret tt,
   mkApp (config_json a) (read_only a) (config a) (source_path_var a)
         (destination_path_var a) v (dialogs a)).

(** [messagebox.showwarning] and [messagebox.showinfo]: a box with a title
    and a message, like [showerror]; the list of boxes keeps no icon. *)
Definition showwarning (title : string) (message : fstring) (a : app)
  : outcome unit * app :=
  (Ret tt,
   mkApp (config_json a) (read_only a) (config a) (source_path_var a)
         (destination_path_var a) (compress_var a) (dialogs a ++ [(title, message)])).

Definition showinfo (title : string) (message : fstring) (a : app)
  : outcome unit * app :=
  (Ret tt,
   mkApp (config_json a) (read_only a) (config a) (source_path_var a)
         (destination_path_var a) (compress_var a) (dialogs a ++ [(title, message)])).

(** [self.config.get(key, default)]: only a dict has the method.  The
    AttributeError another value raises derives from [Exception] directly;
    it is carried as an [Exception] whose first argument names it. *)
Definition config_get (key : string) (default : json) (a : app)
  : outcome json * app :=
  match config a with
  | JDict items =>
      (Ret (match dict_get key items with Some v => v | None => default end), a)
  | _ => (Raise (mkExn Exception ["AttributeError"; "object has no attribute 'get'"]), a)
  end.

Section Window.

Variable tk : Tk.

Definition _load_preferences_to_gui : Py.M app unit :=
  v <- lift (config_get "source_folder" (JStr "")) ;;
  lift (set_source_path_var (string_of tk v)) ;;
  v <- lift (config_get "destination_folder" (JStr "")) ;;
  lift (set_destination_path_var (string_of tk v)) ;;
  v <- lift (config_get "compress_backup" (JBool false)) ;;
  b <- lift (fun a => (getboolean tk v, a)) ;;
  lift (set_compress_var b).

(** [folder_selected] is what [filedialog.askdirectory] returned: the
    empty string when the dialog was cancelled. *)
Definition _browse_source_folder (folder_selected : string) : Py.M app unit :=
  if negb (String.eqb folder_selected "") then
    lift (set_source_path_var folder_selected) ;;
    _save_preferences_from_gui
  else ret tt.

Definition _browse_destination_folder (folder_selected : string) : Py.M app unit :=
  if negb (String.eqb folder_selected "") then
    lift (set_destination_path_var folder_selected) ;;
    _save_preferences_from_gui
  else ret tt.

(** The world of the manager. *)
Variable W : Type.
Variable os : OS W.
Variable logging_basicConfig : string -> W -> outcome unit * W.

(** A running application: the object with its configuration file, the
    status line of the window, and the world of [self.backup_manager],
    whose log is the log of the state. *)
Record session := mkSession {
  self : app;
  status_message : string;
  machine : W
}.

Local Abbreviation M := (Py.M session).

(** A method that only concerns the object. *)
Definition on_app {A} (m : Py.M app A) : M A :=
  fun s =>
    let (r, s') := m (mkState (self (world s)) (log s)) in
    (r, mkState (mkSession (world s') (status_message (world s)) (machine (world s)))
                (log s')).

(** A method of [self.backup_manager]. *)
Definition on_manager {A} (m : Py.M W A) : M A :=
  fun s =>
    let (r, s') := m (mkState (machine (world s)) (log s)) in
    (r, mkState (mkSession (self (world s)) (status_message (world s)) (world s'))
                (log s')).

(** [self.status_message.set(text)] *)
Definition set_status (text : string) : M unit :=
  fun s =>
    (Ret tt, mkState (mkSession (self (world s)) text (machine (world s))) (log s)).

(** [_create_widgets]: the variables it creates start empty and unset;
    the widgets themselves are left out. *)
Definition _create_widgets : M unit :=
  on_app (lift (set_source_path_var "")) ;;
  on_app (lift (set_destination_path_var "")) ;;
  on_app (lift (set_compress_var false)) ;;
  set_status "".

(** [update_idletasks] redraws the window and is left out. *)
Definition _start_backup : M unit :=
  source_folder <- on_app (peek source_path_var) ;;
  destination_folder <- on_app (peek destination_path_var) ;;
  compress <- on_app (peek compress_var) ;;
  if String.eqb source_folder "" then
    on_app (lift (showwarning "Missing Source Folder"
                              [Lit "Please select a source folder."]))
  else if String.eqb destination_folder "" then
    on_app (lift (showwarning "Missing Destination Folder"
                              [Lit "Please select a destination folder."]))
  else
    on_app _save_preferences_from_gui ;;
    set_status "Backup in progress, please wait..." ;;
    success <- on_manager (perform_backup os source_folder destination_folder compress) ;;
    if success then
      set_status "Backup completed successfully!" ;;
      on_app (lift (showinfo "Backup Successful"
                             [Lit "The backup has been performed successfully."]))
    else
      set_status "Backup failed. See logs for more details." ;;
      on_app (lift (showerror "Backup Failed"
                      [Lit "An error occurred during backup. Please check the 'logs/backup.log' file for more details."])).

(** The constructor, the window itself (title, size) left out. *)
Definition __init__ : M unit :=
  on_manager (Logging.__init__ os logging_basicConfig "logs/backup.log") ;;
  config <- on_app _load_config ;;
  on_app (lift (set_config config)) ;;
  _create_widgets ;;
  on_app _load_preferences_to_gui.

End Window.

Arguments mkSession {W} self status_message machine.
Arguments self {W} s.
Arguments status_message {W} s.
Arguments machine {W} s.
Arguments on_app {W A} m.
Arguments on_manager {W A} m.
Arguments set_status {W} text.
Arguments _create_widgets {W}.
Arguments _start_backup {W} os.
Arguments __init__ tk {W} os logging_basicConfig.

End Gui.

(* ================================================================= *)
(** ** A window to run the application in *)

Module Desk.
Import Py Config Gui Posix Examples.

(** A Tk that hands strings and booleans back as they are, renders
    nothing else, and takes only booleans for a boolean. *)
Definition plain_tk : Tk :=
  mkTk (fun v => match v with JStr s => s | _ => "" end)
       (fun v => match v with
                 | JBool b => Ret b
                 | _ => Raise (mkExn TypeError ["getboolean() argument must be str"])
                 end).

(** A [logging.basicConfig] that finds the log file ready. *)
Definition ready_log (log_file : string) (w : host) : outcome unit * host :=
  (Ret tt, w).

(** The application object before its constructor has run, in a
    directory without config.json. *)
Definition blank : app := mkApp None false JNull "" "" false [].

(** A session whose fields name /docs and /backups of the machine [w0],
    with the default record loaded. *)
Definition ready : session host :=
  mkSession (mkApp (Some (Document default_config)) false default_config
                   "/docs" "/backups" false [])
            "" w0.

End Desk.

(* ================================================================= *)
(** ** The manager against any operating system *)

Module PyFacts.
Import PosixPath Clock Py Backup.
Section Generic.
Context {W : Type} (os : OS W).

Section Logging.

Variable P : log_record -> Prop.

Lemma logs_nothing {A} (m : M W A) :
  (forall s, log (snd (m s)) = log s) -> logs P m.
Proof. intros H s. exists []. rewrite H, app_nil_r. auto. Qed.

Lemma logs_ret {A} (a : A) : logs P (@ret W A a).
Proof. now apply logs_nothing. Qed.

Lemma logs_raise {A} e : logs P (@raise W A e).
Proof. now apply logs_nothing. Qed.

Lemma logs_peek {A} (f : W -> A) : logs P (peek f).
Proof. now apply logs_nothing. Qed.

Lemma logs_lift {A} (op : W -> outcome A * W) : logs P (lift op).
Proof. apply logs_nothing. intros s. unfold lift. now destruct (op (world s)). Qed.

Lemma logs_now : logs P (now os).
Proof.
  apply logs_nothing. intros s. unfold now. now destruct (datetime_now os (world s)).
Qed.

Lemma logs_logger l msg : P (mkRecord l msg) -> logs P (@logger W l msg).
Proof. intros H s. eexists. split; [reflexivity|]. now constructor. Qed.

Lemma logs_bind {A B} (m : M W A) (k : A -> M W B) :
  logs P m -> (forall a, logs P (k a)) -> logs P (bind m k).
Proof.
  intros Hm Hk s. unfold bind. destruct (Hm s) as (n1 & H1 & F1).
  destruct (m s) as [[a|e] s1]; simpl in *.
  - destruct (Hk a s1) as (n2 & H2 & F2). exists (n1 ++ n2).
    rewrite H2, H1, app_assoc. split; [reflexivity|]. now apply Forall_app.
  - now exists n1.
Qed.

Lemma logs_try_except {A} (m : M W A) h :
  logs P m -> (forall e, logs P (h e)) -> logs P (try_except m h).
Proof.
  intros Hm Hk s. unfold try_except. destruct (Hm s) as (n1 & H1 & F1).
  destruct (m s) as [[a|e] s1]; simpl in *.
  - now exists n1.
  - destruct (Hk e s1) as (n2 & H2 & F2). exists (n1 ++ n2).
    rewrite H2, H1, app_assoc. split; [reflexivity|]. now apply Forall_app.
Qed.

Lemma logs_for_each {A} (l : list A) f :
  (forall a, logs P (f a)) -> logs P (@for_each W A l f).
Proof.
  intros Hf. induction l; simpl.
  - apply logs_ret.
  - apply logs_bind; auto.
Qed.

Lemma logs_if {A} (b : bool) (m1 m2 : M W A) :
  logs P m1 -> logs P m2 -> logs P (if b then m1 else m2).
Proof. now destruct b. Qed.

Lemma logs_with_ZipFile {A} p (m : M W A) :
  logs P m -> logs P (with_ZipFile os p m).
Proof.
  intros Hm. unfold with_ZipFile. apply logs_bind; [apply logs_lift|].
  intros _ s. destruct (Hm s) as (n1 & H1 & F1).
  destruct (m s) as [[a|e] s1]; simpl in *.
  - destruct (logs_bind (lift (zip_close os p)) (fun _ => ret a)
                (logs_lift _) (fun _ => logs_ret _) s1) as (n2 & H2 & F2).
    exists (n1 ++ n2). rewrite H2, H1, app_assoc. split; [reflexivity|].
    now apply Forall_app.
  - destruct (logs_bind (lift (zip_close os p)) (fun _ => @raise W A e)
                (logs_lift _) (fun _ => logs_raise _) s1) as (n2 & H2 & F2).
    exists (n1 ++ n2). rewrite H2, H1, app_assoc. split; [reflexivity|].
    now apply Forall_app.
Qed.

End Logging.

Ltac logs :=
  repeat first
    [ apply logs_ret | apply logs_raise | apply logs_peek
    | apply logs_lift | apply logs_now
    | apply logs_logger; reflexivity
    | apply logs_with_ZipFile
    | apply logs_bind | apply logs_try_except | apply logs_for_each
    | apply logs_if
    | intros [[? ?] ?] | intro ].

Lemma logs_zip src dst : logs calm (_zip_folder_contents os src dst).
Proof. unfold _zip_folder_contents. logs. Qed.

Lemma logs_copy src dst : logs calm (_copy_folder_contents os src dst).
Proof. unfold _copy_folder_contents. logs. Qed.

(** The [try] block logs no error of its own. *)
Lemma logs_try src dst c : logs calm (perform_backup_try os src dst c).
Proof.
  unfold perform_backup_try, _count_files_in_folder.
  logs; try apply logs_zip; try apply logs_copy.
Qed.

Lemma returns_ret {A} (P : A -> Prop) a : P a -> returns P (@ret W A a).
Proof. intros H s b s' E. inversion E. now subst. Qed.

Lemma returns_raise {A} (P : A -> Prop) e : returns P (@raise W A e).
Proof. intros s b s' E. inversion E. Qed.

Lemma returns_bind {A B} (Q : A -> Prop) (P : B -> Prop) (m : M W A) k :
  returns Q m -> (forall a, Q a -> returns P (k a)) -> returns P (bind m k).
Proof.
  intros Hm H s b s' E. unfold bind in E. destruct (m s) as [[a|e] s1] eqn:E1.
  - eapply H; eauto.
  - inversion E.
Qed.

Lemma returns_any {A} (m : M W A) : returns (fun _ => True) m.
Proof. now intros s a s' _. Qed.

Lemma returns_try_except {A} (P : A -> Prop) (m : M W A) h :
  returns P m -> (forall e, returns P (h e)) -> returns P (try_except m h).
Proof.
  intros Hm Hh s b s' E. unfold try_except in E. destruct (m s) as [[a|e] s1] eqn:E1.
  - inversion E; subst. eapply Hm; eauto.
  - eapply Hh; eauto.
Qed.

Lemma zip_returns_true src dst :
  returns (fun b => b = true) (_zip_folder_contents os src dst).
Proof.
  unfold _zip_folder_contents. apply returns_try_except; [|intro; apply returns_raise].
  repeat (eapply returns_bind; [apply returns_any|intros ? _]). now apply returns_ret.
Qed.

Lemma copy_returns_true src dst :
  returns (fun b => b = true) (_copy_folder_contents os src dst).
Proof.
  unfold _copy_folder_contents. apply returns_try_except; [|intro; apply returns_raise].
  repeat (eapply returns_bind; [apply returns_any|intros ? _]). now apply returns_ret.
Qed.

Lemma try_returns_success src dst c :
  returns (fun l => success l = true) (perform_backup_try os src dst c).
Proof.
  unfold perform_backup_try.
  eapply returns_bind; [apply returns_any|intros ? _].
  eapply returns_bind; [apply returns_any|intros ? _].
  eapply returns_bind with (Q := fun b => b = true).
  - destruct c.
    + eapply returns_bind; [apply zip_returns_true|intros b ->].
      eapply returns_bind; [apply returns_any|intros ? _]. now apply returns_ret.
    + eapply returns_bind; [apply copy_returns_true|intros b ->].
      eapply returns_bind; [apply returns_any|intros ? _]. now apply returns_ret.
  - intros b ->.
    eapply returns_bind; [apply returns_any|intros ? _].
    eapply returns_bind; [apply returns_any|intros ? _]. now apply returns_ret.
Qed.

Lemma isinstance_Exception e : isinstance e Exception = true.
Proof. destruct e as [[] ?]; reflexivity. Qed.

Lemma except_logs src dst e (s : state W) :
  exists msg, msg <> []
    /\ perform_backup_except src dst e s
       = (Ret (mkLocals false 0 msg),
          mkState (world s) (log s ++ [mkRecord ERROR msg])).
Proof.
  unfold perform_backup_except.
  destruct (isinstance e PermissionError); [eexists; split; [|reflexivity]; discriminate|].
  destruct (isinstance e ShutilError); [eexists; split; [|reflexivity]; discriminate|].
  destruct (isinstance e BadZipFile); [eexists; split; [|reflexivity]; discriminate|].
  rewrite isinstance_Exception. eexists; split; [|reflexivity]; discriminate.
Qed.

Lemma finally_returns src t l s :
  exists t', perform_backup_finally os src t l s
  = (Ret (success l),
     mkState (snd (datetime_now os (world s)))
             (log s ++ [mkRecord INFO (result_line src (mkDelta t' t) l)])).
Proof.
  unfold perform_backup_finally, bind, now. destruct (datetime_now os (world s)) as [t' w'].
  exists t'. reflexivity.
Qed.

(** C1: whatever the arguments and whatever the operations of the
    operating system do or raise, [perform_backup] raises nothing and
    returns a boolean, which is [False] exactly when the call has logged
    an error. *)
Theorem perform_backup_never_raises src base compress (s : state W) :
  exists b s' new,
    perform_backup os src base compress s = (Ret b, s')
    /\ log s' = log s ++ new
    /\ existsb is_error new = negb b.
Proof.
  unfold perform_backup. unfold bind at 1. simpl.
  destruct (os_path_exists os src (world s)); simpl.
  2:{ do 3 eexists. split; [reflexivity|]. split; reflexivity. }
  unfold bind at 1; simpl.
  destruct (os_path_isdir os src (world s)); simpl.
  2:{ do 3 eexists. split; [reflexivity|]. split; reflexivity. }
  unfold bind at 1. unfold _generate_backup_folder_name at 1. unfold bind at 1, now at 1.
  destruct (datetime_now os (world s)) as [t1 w1]. simpl.
  unfold bind at 1. unfold logger at 1. simpl.
  unfold bind at 1, now at 1. simpl.
  destruct (datetime_now os w1) as [t2 w2]. simpl.
  set (full := destination_path _ _ _ _).
  set (s2 := mkState w2 _).
  unfold finally_return, try_except.
  destruct (logs_try src full compress s2) as (n1 & Hn1 & Fn1).
  assert (Q : existsb is_error n1 = false).
  { clear Hn1. induction Fn1 as [|r n1 Hr _ IH]; [reflexivity|]. simpl.
    unfold calm in Hr. now rewrite Hr. }
  destruct (perform_backup_try os src full compress s2) as [[l|e] s3] eqn:Etry;
    simpl in Hn1.
  - destruct (finally_returns src t2 l s3) as [t' ->].
    apply try_returns_success in Etry. rewrite Etry.
    do 3 eexists. split; [reflexivity|]. simpl. rewrite Hn1. subst s2. simpl.
    split; [rewrite <- !app_assoc; reflexivity|].
    simpl. rewrite !existsb_app, Q. reflexivity.
  - destruct (except_logs src full e s3) as [msg (_ & ->)].
    destruct (finally_returns src t2 (mkLocals false 0 msg)
                (mkState (world s3) (log s3 ++ [mkRecord ERROR msg]))) as [t' ->].
    do 3 eexists. split; [reflexivity|]. simpl. rewrite Hn1. subst s2. simpl.
    split; [rewrite <- !app_assoc; reflexivity|].
    simpl. rewrite !existsb_app. simpl. now rewrite orb_true_r.
Qed.

(** C6: a source that is missing or is not a directory is refused with
    [False], an error in the log, and the world as it was. *)
Theorem missing_source_no_effect src base c (s : state W) :
  os_path_exists os src (world s) = false \/ os_path_isdir os src (world s) = false ->
  exists r, is_error r = true
    /\ perform_backup os src base c s = (Ret false, mkState (world s) (log s ++ [r])).
Proof.
  intros H. unfold perform_backup. unfold bind at 1. unfold peek at 1.
  destruct (os_path_exists os src (world s)); cbn [negb].
  - destruct H as [H|H]; [discriminate|].
    unfold bind at 1. unfold peek at 1. rewrite H. cbn [negb].
    eexists. split; [|reflexivity]. reflexivity.
  - eexists. split; [|reflexivity]. reflexivity.
Qed.

End Generic.
End PyFacts.

(* ================================================================= *)
(** ** Paths in a tree *)

Module TreeFacts.
Import PosixPath Clock Py Backup Posix.

(** *** Entries of one directory *)

Lemma assoc_upsert_same c v es : assoc c (upsert c v es) = Some v.
Proof.
  induction es as [|[k m] r IH]; simpl.
  - now rewrite String.eqb_refl.
  - destruct (String.eqb k c) eqn:E; simpl; now rewrite E.
Qed.

Lemma assoc_upsert_other c d v es :
  c <> d -> assoc d (upsert c v es) = assoc d es.
Proof.
  intros N. induction es as [|[k m] r IH]; simpl.
  - apply String.eqb_neq in N. now rewrite N.
  - destruct (String.eqb k c) eqn:E; simpl.
    + apply String.eqb_eq in E. subst k. apply String.eqb_neq in N. now rewrite N.
    + now rewrite IH.
Qed.

Lemma assoc_app c es es' :
  assoc c (es ++ es')
  = match assoc c es with Some m => Some m | None => assoc c es' end.
Proof.
  induction es as [|[k m] r IH]; simpl; [reflexivity|].
  now destruct (String.eqb k c).
Qed.

Lemma upsert_upsert c a b es : upsert c b (upsert c a es) = upsert c b es.
Proof.
  induction es as [|[k m] r IH]; simpl.
  - now rewrite String.eqb_refl.
  - destruct (String.eqb k c) eqn:E; simpl; rewrite E; [reflexivity|now rewrite IH].
Qed.

Lemma upsert_absent c v es : assoc c es = None -> upsert c v es = es ++ [(c, v)].
Proof.
  induction es as [|[k m] r IH]; simpl; [reflexivity|].
  destruct (String.eqb k c); [discriminate|]. intros H. now rewrite IH.
Qed.

Lemma upsert_present c m es : assoc c es = Some m -> upsert c m es = es.
Proof.
  induction es as [|[k x] r IH]; simpl; [discriminate|].
  destruct (String.eqb k c) eqn:E.
  - intros H. now inversion H.
  - intros H. now rewrite IH.
Qed.

Lemma assoc_discard_same c es : assoc c (discard c es) = None.
Proof.
  unfold discard. induction es as [|[k m] r IH]; simpl; [reflexivity|].
  destruct (String.eqb k c) eqn:E; simpl; [assumption|]. now rewrite E.
Qed.

Lemma assoc_discard_other c d es : c <> d -> assoc d (discard c es) = assoc d es.
Proof.
  intros N. unfold discard. induction es as [|[k m] r IH]; simpl; [reflexivity|].
  destruct (String.eqb k c) eqn:E; simpl.
  - apply String.eqb_eq in E. subst k. apply String.eqb_neq in N. now rewrite N.
  - now rewrite IH.
Qed.

(** *** Prefixes *)

Lemma is_prefix_app p q : is_prefix p (p ++ q) = true.
Proof. induction p; simpl; [reflexivity|]. now rewrite String.eqb_refl. Qed.

Lemma is_prefix_split p q : is_prefix p q = true -> exists t, q = p ++ t.
Proof.
  revert q. induction p as [|x p IH]; intros q H; simpl in *.
  - now exists q.
  - destruct q as [|y q]; [discriminate|].
    apply andb_true_iff in H as [E H]. apply String.eqb_eq in E. subst y.
    destruct (IH _ H) as [t ->]. now exists t.
Qed.

Lemma is_prefix_refl p : is_prefix p p = true.
Proof. induction p; simpl; [reflexivity|]. now rewrite String.eqb_refl. Qed.

Lemma incomparable_sym p q : incomparable p q -> incomparable q p.
Proof. intros [A B]. now split. Qed.

Lemma incomparable_cons x p q : incomparable (x :: p) (x :: q) -> incomparable p q.
Proof. unfold incomparable. simpl. rewrite String.eqb_refl. now simpl. Qed.

Lemma incomparable_app_l p q t : incomparable p q -> incomparable (p ++ t) q.
Proof.
  revert q. induction p as [|x p IH]; intros q [A B]; simpl in *; [discriminate|].
  destruct q as [|y q]; [discriminate|]. unfold incomparable. simpl in *.
  destruct (String.eqb x y) eqn:E; simpl in *.
  - rewrite String.eqb_sym, E in B. simpl in B.
    rewrite String.eqb_sym, E. simpl. now apply IH.
  - rewrite String.eqb_sym, E. now simpl.
Qed.

Lemma incomparable_app_r p q t : incomparable p q -> incomparable p (q ++ t).
Proof. intros H. apply incomparable_sym, incomparable_app_l, incomparable_sym, H. Qed.

(** *** Reading and writing along a path *)

Lemma get_app r p q :
  get r (p ++ q) = match get r p with Some n => get n q | None => None end.
Proof.
  revert r. induction p as [|c p IH]; intros r; simpl; [reflexivity|].
  destruct r as [|es]; [reflexivity|]. destruct (assoc c es); [apply IH|reflexivity].
Qed.

Lemma get_parent_dir r p q n :
  get r (p ++ q) = Some n -> q <> [] -> exists es, get r p = Some (Dir es).
Proof.
  rewrite get_app. destruct (get r p) as [[|es]|]; try discriminate.
  - destruct q; [congruence|discriminate].
  - intros _ _. now exists es.
Qed.

Lemma put_put_same r p a b : put (put r p a) p b = put r p b.
Proof.
  revert r. induction p as [|c p IH]; intros r; simpl; [reflexivity|].
  destruct r as [|es]; [reflexivity|].
  destruct (assoc c es) as [m|] eqn:E.
  - rewrite assoc_upsert_same, IH, upsert_upsert. reflexivity.
  - destruct p as [|c' p]; simpl.
    + rewrite assoc_app, E. simpl. rewrite String.eqb_refl.
      rewrite <- (upsert_absent c a es E), upsert_upsert. now rewrite upsert_absent.
    + now rewrite E.
Qed.

Lemma get_put_same r p v n : get r p = Some n -> get (put r p v) p = Some v.
Proof.
  revert r. induction p as [|c p IH]; intros r; simpl; [reflexivity|].
  destruct r as [|es]; [discriminate|].
  destruct (assoc c es) as [m|] eqn:E; [|discriminate].
  intros H. simpl. rewrite assoc_upsert_same. now apply IH.
Qed.

Lemma put_get_id r p n : get r p = Some n -> put r p n = r.
Proof.
  revert r. induction p as [|c p IH]; intros r; simpl; [congruence|].
  destruct r as [|es]; [discriminate|].
  destruct (assoc c es) as [m|] eqn:E; [|discriminate].
  intros H. rewrite (IH _ H). now rewrite upsert_present.
Qed.

Lemma get_put_other r p q v :
  incomparable p q -> get (put r p v) q = get r q.
Proof.
  revert r q. induction p as [|c p IH]; intros r q [A B]; [discriminate|].
  destruct q as [|d q]; [discriminate|]. simpl.
  destruct r as [|es]; [reflexivity|].
  destruct (String.eqb c d) eqn:E.
  - apply String.eqb_eq in E. subst d.
    assert (I : incomparable p q) by (apply (incomparable_cons c); now split).
    destruct (assoc c es) as [m|] eqn:Ea; simpl.
    + rewrite assoc_upsert_same. now apply IH.
    + destruct p as [|c' p]; [destruct I; discriminate|]. simpl. now rewrite Ea.
  - apply String.eqb_neq in E.
    destruct (assoc c es) as [m|] eqn:Ea; simpl.
    + now rewrite assoc_upsert_other.
    + destruct p as [|c' p]; simpl; [|reflexivity].
      rewrite assoc_app. destruct (assoc d es); [reflexivity|]. simpl.
      apply String.eqb_neq in E. now rewrite E.
Qed.

(** Writing a child is rewriting its directory. *)
Lemma put_child r p c v es :
  get r p = Some (Dir es) -> put r (p ++ [c]) v = put r p (Dir (upsert c v es)).
Proof.
  revert r. induction p as [|d p IH]; intros r; simpl.
  - intros H. inversion H; subst. destruct (assoc c es) eqn:E; [reflexivity|].
    now rewrite upsert_absent.
  - destruct r as [|es0]; [discriminate|].
    destruct (assoc d es0) as [m|] eqn:E; [|discriminate].
    intros H. now rewrite (IH _ H).
Qed.

Lemma get_put_child r p c v es :
  get r p = Some (Dir es) -> get (put r (p ++ [c]) v) (p ++ [c]) = Some v.
Proof.
  intros H. rewrite (put_child _ _ _ _ _ H), get_app, (get_put_same _ _ _ _ H).
  simpl. now rewrite assoc_upsert_same.
Qed.

(** *** Unlinking *)

Lemma get_del_same r p : p <> [] -> get (del r p) p = None.
Proof.
  revert r. induction p as [|c p IH]; intros r N; [congruence|]. simpl.
  destruct r as [|es]; [reflexivity|].
  destruct p as [|c' p].
  - simpl. now rewrite assoc_discard_same.
  - destruct (assoc c es) as [m|] eqn:E.
    + cbn [get]. rewrite assoc_upsert_same. apply IH. discriminate.
    + cbn [get]. now rewrite E.
Qed.

Lemma get_del_other r p q : incomparable p q -> get (del r p) q = get r q.
Proof.
  revert r q. induction p as [|c p IH]; intros r q [A B]; [discriminate|].
  destruct q as [|d q]; [discriminate|].
  destruct r as [|es]; [reflexivity|].
  destruct (String.eqb c d) eqn:E.
  - apply String.eqb_eq in E. subst d.
    assert (I : incomparable p q) by (apply (incomparable_cons c); now split).
    destruct p as [|c' p]; [destruct I; discriminate|].
    cbn [del]. destruct (assoc c es) as [m|] eqn:Ea.
    + cbn [get]. rewrite assoc_upsert_same, Ea. now apply IH.
    + reflexivity.
  - apply String.eqb_neq in E.
    destruct p as [|c' p]; cbn [del].
    + cbn [get]. now rewrite assoc_discard_other.
    + destruct (assoc c es) as [m|] eqn:Ea; [|reflexivity].
      cbn [get]. now rewrite assoc_upsert_other.
Qed.

Lemma get_del_below r p q : p <> [] -> get (del r p) (p ++ q) = None.
Proof. intros N. rewrite get_app, get_del_same; auto. Qed.

End TreeFacts.

(* ================================================================= *)
(** ** shutil.copytree on the tree *)

Module CopyFacts.
Import PosixPath Clock Py Backup Posix TreeFacts.

(** *** Making directories *)

Lemma get_chain p : get (chain p) p = Some (Dir []).
Proof.
  induction p as [|c p IH]; simpl; [reflexivity|]. now rewrite String.eqb_refl.
Qed.

Lemma mkdirs_fresh r p r' :
  get r p = None -> mkdirs r p = Some r' -> get r' p = Some (Dir []).
Proof.
  revert r r'. induction p as [|c p IH]; intros r r'; simpl; [discriminate|].
  destruct r as [|es]; simpl; [discriminate|].
  destruct (assoc c es) as [m|] eqn:E.
  - intros G. destruct (mkdirs m p) as [m'|] eqn:Em; [|discriminate].
    intros H. inversion H; subst. simpl. rewrite assoc_upsert_same. eauto.
  - intros _ H. inversion H; subst. simpl. rewrite assoc_app, E. simpl.
    rewrite String.eqb_refl. apply get_chain.
Qed.

Lemma mkdirs_other r p q r' :
  incomparable p q -> mkdirs r p = Some r' -> get r' q = get r q.
Proof.
  revert r q r'. induction p as [|c p IH]; intros r q r' [A B]; [discriminate|].
  destruct q as [|d q]; [discriminate|].
  destruct r as [|es]; simpl; [discriminate|].
  destruct (String.eqb c d) eqn:E.
  - apply String.eqb_eq in E. subst d.
    assert (I : incomparable p q) by (apply (incomparable_cons c); now split).
    destruct (assoc c es) as [m|] eqn:Ea.
    + destruct (mkdirs m p) as [m'|] eqn:Em; [|discriminate].
      intros H. inversion H; subst. simpl. rewrite assoc_upsert_same. eauto.
    + intros H. inversion H; subst. simpl. rewrite assoc_app, Ea. simpl.
      rewrite String.eqb_refl.
      clear - I. revert q I. induction p as [|c' p IHp]; intros q [A B]; [discriminate|].
      destruct q as [|d q]; [discriminate|]. simpl.
      destruct (String.eqb c' d) eqn:E; [|reflexivity].
      apply String.eqb_eq in E. subst d. apply IHp. apply (incomparable_cons c'). now split.
  - apply String.eqb_neq in E.
    destruct (assoc c es) as [m|] eqn:Ea.
    + destruct (mkdirs m p) as [m'|] eqn:Em; [|discriminate].
      intros H. inversion H; subst. simpl. now rewrite assoc_upsert_other.
    + intros H. inversion H; subst. simpl. rewrite assoc_app.
      destruct (assoc d es); [reflexivity|]. simpl.
      apply String.eqb_neq in E. now rewrite E.
Qed.

Lemma mkdirs_child r p c es :
  get r p = Some (Dir es) -> assoc c es = None ->
  mkdirs r (p ++ [c]) = Some (put r (p ++ [c]) (Dir [])).
Proof.
  revert r. induction p as [|d p IH]; intros r; simpl.
  - intros H E. inversion H; subst. now rewrite E.
  - destruct r as [|es0]; [discriminate|].
    destruct (assoc d es0) as [m|] eqn:Ed; [|discriminate].
    intros H E. now rewrite (IH _ H E).
Qed.

Lemma makedirs_vacant r dst :
  vacant r dst ->
  makedirs_at dst true r = (Ret tt, put r dst (Dir []))
  /\ get (put r dst (Dir [])) dst = Some (Dir []).
Proof.
  intros [H|(p & c & es & -> & H & E)]; unfold makedirs_at.
  - rewrite H. rewrite (put_get_id _ _ _ H). auto.
  - rewrite get_app, H. simpl. rewrite E.
    rewrite (mkdirs_child _ _ _ _ H E). split; [reflexivity|].
    eapply get_put_child; eauto.
Qed.

(** *** Well-formed directories *)

Lemma well_formed_dir es :
  well_formed (Dir es) = true ->
  distinct (map fst es) = true
  /\ Forall (fun e => proper_name (fst e) = true /\ well_formed (snd e) = true) es.
Proof.
  simpl. intros H. apply andb_true_iff in H as [D H]. split; [assumption|].
  rewrite forallb_forall in H. apply Forall_forall. intros e I.
  now apply andb_true_iff, H.
Qed.

Lemma existsb_eqb_false x l : existsb (String.eqb x) l = false -> ~ In x l.
Proof.
  intros H I. assert (existsb (String.eqb x) l = true); [|congruence].
  apply existsb_exists. exists x. split; [assumption|apply String.eqb_refl].
Qed.

Lemma distinct_NoDup l : distinct l = true -> NoDup l.
Proof.
  induction l as [|x l IH]; simpl; [constructor|].
  intros H. apply andb_true_iff in H as [A B]. apply negb_true_iff in A.
  constructor; [now apply existsb_eqb_false|auto].
Qed.

Lemma assoc_not_in c es : ~ In c (map fst es) -> assoc c es = None.
Proof.
  induction es as [|[k m] es IH]; simpl; [reflexivity|].
  intros N. destruct (String.eqb k c) eqn:E.
  - apply String.eqb_eq in E. tauto.
  - apply IH. tauto.
Qed.

Lemma assoc_middle pre name m suf :
  NoDup (map fst (pre ++ (name, m) :: suf)) ->
  assoc name pre = None /\ assoc name (pre ++ (name, m) :: suf) = Some m.
Proof.
  intros N. rewrite map_app in N. simpl in N. apply NoDup_remove_2 in N.
  assert (P : assoc name pre = None).
  { apply assoc_not_in. intros I. apply N. apply in_or_app. now left. }
  split; [assumption|]. rewrite assoc_app, P. simpl. now rewrite String.eqb_refl.
Qed.


(** *** copytree between two places that are not nested *)

Lemma incomparable_neq p q : incomparable p q -> p <> q.
Proof. intros [A _] ->. now rewrite is_prefix_refl in A. Qed.

Lemma list_eqb_false p q : p <> q -> list_eqb p q = false.
Proof. intros N. unfold list_eqb. now destruct (list_eq_dec string_dec p q). Qed.

Lemma collect_nonempty e errors errors' :
  (isinstance e ShutilError = true -> args e <> []) ->
  collect e errors = Some errors' -> errors' <> [].
Proof.
  unfold collect. intros H.
  destruct (isinstance e ShutilError).
  - intros E. inversion E. intros C. apply app_eq_nil in C as [_ C]. now apply H.
  - destruct (isinstance e OSError); [|discriminate].
    intros E. inversion E. intros C. apply app_eq_nil in C as [_ C]. discriminate.
Qed.

Lemma copy2_raise_args s t r e r' :
  copy2 s t r = (Raise e, r') -> args e <> [].
Proof.
  unfold copy2, error. intros H.
  repeat match type of H with
         | (if ?c then _ else _) = _ => destruct c
         | match ?x with _ => _ end = _ => destruct x
         end; inversion H; discriminate.
Qed.

Lemma copy_entries_raise copy_dir s t entries r errors e r' errors' :
  copy_entries copy_dir s t entries r errors = (Some e, r', errors') ->
  isinstance e ShutilError = false.
Proof.
  revert r errors. induction entries as [|[name isdir] rest IH]; intros r errors; simpl.
  - discriminate.
  - destruct (if isdir then _ else _) as [[[]|e0] r0]; [apply IH|].
    destruct (collect e0 errors) as [errs|] eqn:C; [apply IH|].
    intros H. inversion H; subst. unfold collect in C.
    destruct (isinstance e ShutilError); [discriminate|reflexivity].
Qed.

Lemma copytree_raise_args depth s t r e r' :
  copytree_at depth s t r = (Raise e, r') ->
  isinstance e ShutilError = true -> args e <> [].
Proof.
  destruct depth as [|d]; simpl.
  - intros H. inversion H. discriminate.
  - destruct (get r s) as [[|es]|]; try (intros H; inversion H; discriminate).
    destruct (makedirs_at t true r) as [[[]|e1] r1] eqn:M.
    + destruct (copy_entries _ _ _ _ _ _) as [[[e2|] r2] errs] eqn:C.
      * intros H. inversion H; subst. apply copy_entries_raise in C. congruence.
      * destruct errs; intros H; inversion H; subst. discriminate.
    + unfold makedirs_at, error in M.
      repeat match type of M with
             | (if ?c then _ else _) = _ => destruct c
             | match ?x with _ => _ end = _ => destruct x
             end; inversion M; subst; intros H; inversion H; subst; discriminate.
Qed.

Section Entries.

Variable copy_dir : list string -> list string -> node -> outcome unit * node.
Variables (src dst : list string) (r : node) (es : list (string * node)).

Hypothesis apart : incomparable src dst.
Hypothesis source : get r src = Some (Dir es).
Hypothesis names : NoDup (map fst es).
Hypothesis target : exists n, get r dst = Some n.

Hypothesis copy_dir_args : forall s t x e x',
  copy_dir s t x = (Raise e, x') -> isinstance e ShutilError = true -> args e <> [].

Hypothesis copy_dir_exact : forall name sub x x',
  In (name, Dir sub) es ->
  get x (src ++ [name]) = Some (Dir sub) ->
  vacant x (dst ++ [name]) ->
  copy_dir (src ++ [name]) (dst ++ [name]) x = (Ret tt, x') ->
  x' = put x (dst ++ [name]) (Dir sub).

Lemma copy_entries_errors entries : forall x errors r2,
  copy_entries copy_dir src dst entries x errors = (None, r2, []) -> errors = [].
Proof.
  induction entries as [|[name isdir] rest IH]; intros x errors r2; simpl.
  - intros H. now inversion H.
  - destruct (if isdir then _ else _) as [[[]|e] x'] eqn:C; [apply IH|].
    destruct (collect e errors) as [errs|] eqn:K; [|discriminate].
    intros H. apply IH in H. exfalso. eapply collect_nonempty; eauto.
    intros Sh. destruct isdir.
    + eapply copy_dir_args; eauto.
    + eapply copy2_raise_args; eauto.
Qed.

Lemma copy_entries_exact suf : forall pre errors r2,
  es = pre ++ suf ->
  copy_entries copy_dir src dst (map (fun e => (fst e, is_dir (snd e))) suf)
               (put r dst (Dir pre)) errors = (None, r2, []) ->
  errors = [] /\ r2 = put r dst (Dir (pre ++ suf)).
Proof.
  destruct target as [n0 T].
  induction suf as [|[name m] suf IH]; intros pre errors r2 E; simpl.
  - intros H. inversion H; subst. now rewrite app_nil_r.
  - assert (Hd : get (put r dst (Dir pre)) dst = Some (Dir pre))
      by (eapply get_put_same; eauto).
    assert (Hs : get (put r dst (Dir pre)) (src ++ [name]) = Some m).
    { rewrite get_put_other by (apply incomparable_app_r, incomparable_sym, apart). 
      rewrite get_app, source. simpl.
      rewrite E in names. destruct (assoc_middle _ _ _ _ names) as [_ A].
      now rewrite E, A. }
    assert (Hp : assoc name pre = None).
    { rewrite E in names. now destruct (assoc_middle _ _ _ _ names). }
    assert (Hn : put (put r dst (Dir pre)) (dst ++ [name]) m
                 = put r dst (Dir (pre ++ [(name, m)]))).
    { rewrite (put_child _ _ _ _ _ Hd), put_put_same. now rewrite upsert_absent. }
    assert (E' : es = (pre ++ [(name, m)]) ++ suf) by (now rewrite <- app_assoc).
    destruct m as [readable data|sub]; simpl.
    + (* a regular file *)
      unfold copy2. rewrite list_eqb_false
        by (apply incomparable_neq, incomparable_app_l, incomparable_app_r, apart).
      rewrite Hs. destruct readable.
      * rewrite removelast_last, Hd, get_app, Hd. simpl. rewrite Hp, Hn.
        intros H. destruct (IH _ _ _ E' H) as [-> ->]. now rewrite <- app_assoc.
      * unfold collect, error. simpl. intros H.
        apply copy_entries_errors in H. now destruct errors.
    + (* a directory *)
      destruct (copy_dir (src ++ [name]) (dst ++ [name]) (put r dst (Dir pre)))
        as [[[]|e] x'] eqn:C.
      * apply copy_dir_exact with (sub := sub) in C; auto.
        -- subst x'. rewrite Hn. intros H.
           destruct (IH _ _ _ E' H) as [-> ->]. now rewrite <- app_assoc.
        -- rewrite E. apply in_or_app. right. now left.
        -- right. exists dst, name, pre. auto.
      * destruct (collect e errors) as [errs|] eqn:K; [|discriminate].
        intros H. apply copy_entries_errors in H.
        exfalso. eapply collect_nonempty; eauto.
Qed.

End Entries.

Theorem copytree_exact depth : forall src dst r r' es,
  incomparable src dst ->
  get r src = Some (Dir es) ->
  well_formed (Dir es) = true ->
  vacant r dst ->
  copytree_at depth src dst r = (Ret tt, r') ->
  r' = put r dst (Dir es).
Proof.
  induction depth as [|d IH]; intros src dst r r' es I S W V; simpl; [discriminate|].
  rewrite S. destruct (makedirs_vacant _ _ V) as [-> G].
  destruct (copy_entries _ _ _ _ _ _) as [[[e|] r2] errs] eqn:C; [discriminate|].
  destruct errs; [|discriminate]. intros H. inversion H; subst r2. clear H.
  destruct (well_formed_dir _ W) as [D F].
  assert (S1 : get (put r dst (Dir [])) src = Some (Dir es))
    by (rewrite get_put_other; [assumption|now apply incomparable_sym]).
  pose proof (copy_entries_exact (copytree_at d) src dst (put r dst (Dir [])) es
                I S1 (distinct_NoDup _ D) (ex_intro _ _ G)) as X.
  assert (R : r' = put (put r dst (Dir [])) dst (Dir ([] ++ es))).
  { eapply X with (errors := []); [| |reflexivity|rewrite put_put_same; exact C].
    - intros. eapply copytree_raise_args; eauto.
    - intros name sub x x' Hin Gx Vx Cx. eapply IH; eauto.
      + apply incomparable_app_l, incomparable_app_r, I.
      + rewrite Forall_forall in F. apply (F _ Hin). }
  now rewrite put_put_same in R.
Qed.

End CopyFacts.

(* ================================================================= *)
(** ** A run on the tree machine, step by step *)

Module RunFacts.
Import PosixPath Clock Py Backup Posix TreeFacts CopyFacts PyFacts.

Lemma for_each_files zp src top files : forall (s : state host),
  for_each files
    (fun file => lift (Backup.zip_write posix zp (join top file)
                                        (relpath (join top file) src))) s
  = (fst (write_files zp src top files (world s)),
     mkState (snd (write_files zp src top files (world s))) (log s)).
Proof.
  induction files as [|file rest IH]; intros [w lg]; simpl; [reflexivity|].
  unfold bind, lift. simpl.
  destruct (Posix.zip_write zp (join top file) (relpath (join top file) src) w)
    as [[[]|e] w']; [|reflexivity].
  now rewrite IH.
Qed.

Lemma for_each_triples zp src triples : forall (s : state host),
  for_each triples
    (fun '(top, _, files) =>
       for_each files
         (fun file => lift (Backup.zip_write posix zp (join top file)
                                             (relpath (join top file) src)))) s
  = (fst (write_triples zp src triples (world s)),
     mkState (snd (write_triples zp src triples (world s))) (log s)).
Proof.
  induction triples as [|[[top dirs] files] rest IH]; intros [w lg]; simpl; [reflexivity|].
  unfold bind. rewrite for_each_files. simpl.
  destruct (write_files zp src top files w) as [[[]|e] w']; [|reflexivity].
  simpl. now rewrite IH.
Qed.

Lemma copy_posix src dest (s : state host) : exists new,
  _copy_folder_contents posix src dest s
  = match copy_run src dest (world s) with
    | (Ret _, w') => (Ret true, mkState w' (log s ++ new))
    | (Raise e, w') => (Raise e, mkState w' (log s ++ new))
    end.
Proof.
  destruct s as [w lg].
  unfold _copy_folder_contents, copy_run, try_except, bind, peek, lift, logger, ret, raise.
  simpl.
  destruct (path_exists dest w); simpl.
  - destruct (copytree src dest w) as [[[]|e] w']; exists []; now rewrite app_nil_r.
  - destruct (makedirs dest w) as [[[]|e] w1]; simpl.
    + destruct (copytree src dest w1) as [[[]|e] w']; eexists; reflexivity.
    + exists []; now rewrite app_nil_r.
Qed.

Lemma zip_posix src dest (s : state host) : exists new,
  _zip_folder_contents posix src dest s
  = match zip_run src dest (world s) with
    | (Ret _, w') => (Ret true, mkState w' (log s ++ new))
    | (Raise e, w') => (Raise e, mkState w' (log s ++ new))
    end.
Proof.
  destruct s as [w lg].
  unfold _zip_folder_contents, zip_run, with_ZipFile, try_except.
  unfold bind at 1.
  assert (X : exists new,
    (if negb (String.eqb (dirname dest) "")
     then bind (peek (os_path_exists posix (dirname dest)))
            (fun present => if negb present
               then bind (lift (os_makedirs posix (dirname dest)))
                      (fun _ => logger INFO [Lit "ZIP output directory created: '";
                                             FStr (dirname dest); Lit "'"])
               else ret tt)
     else ret tt) (mkState w lg)
    = (let (res, w1) := if negb (String.eqb (dirname dest) "")
                           && negb (path_exists (dirname dest) w)
                        then makedirs (dirname dest) w else (Ret tt, w) in
       (res, mkState w1 (lg ++ new)))).
  { unfold bind, peek, lift, logger, ret. simpl.
    destruct (String.eqb (dirname dest) ""); simpl.
    - exists []; now rewrite app_nil_r.
    - destruct (path_exists (dirname dest) w); simpl.
      + exists []; now rewrite app_nil_r.
      + destruct (makedirs (dirname dest) w) as [[[]|e] w1]; simpl.
        * eexists; reflexivity.
        * exists []; now rewrite app_nil_r. }
  destruct X as [new ->]. exists new. simpl world.
  destruct (if negb (String.eqb (dirname dest) "") && negb (path_exists (dirname dest) w)
            then makedirs (dirname dest) w else (Ret tt, w)) as [[[]|e] w1];
    [|reflexivity].
  unfold bind at 1. unfold bind at 1. unfold lift at 1. simpl.
  destruct (Posix.zip_open dest w1) as [[[]|e] w2]; [|reflexivity].
  unfold bind at 1. unfold peek at 1. simpl. rewrite for_each_triples. simpl.
  destruct (write_triples dest src (walk src w2) w2) as [[[]|e] w3]; simpl.
  - unfold bind, lift, ret. simpl.
    destruct (Posix.zip_close dest w3) as [[[]|e] w4]; reflexivity.
  - unfold bind, lift, raise. simpl.
    destruct (Posix.zip_close dest w3) as [[[]|e'] w4]; reflexivity.
Qed.

Lemma try_posix src dest c (s : state host) : exists new,
  perform_backup_try posix src dest c s
  = match write_run src dest c (world s) with
    | (Ret _, w') =>
        (Ret (mkLocals true (counted src w') []), mkState w' (log s ++ new))
    | (Raise e, w') => (Raise e, mkState w' (log s ++ new))
    end.
Proof.
  destruct s as [w lg].
  unfold perform_backup_try, write_run.
  unfold bind at 1. unfold peek at 1. cbn [world log os_path_exists posix].
  unfold bind at 1.
  assert (X : exists new,
    (if path_exists dest w
     then bind (peek (os_path_isdir posix dest))
             (fun is_dir => if is_dir
                then bind (lift (shutil_rmtree posix dest))
                       (fun _ => logger WARNING [Lit "Existing backup folder deleted: '";
                                                 FStr dest; Lit "'"])
                else bind (peek (os_path_isfile posix dest))
                       (fun is_file => if is_file
                          then bind (lift (os_remove posix dest))
                                 (fun _ => logger WARNING
                                    [Lit "Existing ZIP backup file deleted: '";
                                     FStr dest; Lit "'"])
                          else ret tt))
     else ret tt) (mkState w lg)
    = (fst (clear_destination dest w),
       mkState (snd (clear_destination dest w)) (lg ++ new))).
  { unfold clear_destination, bind, peek, lift, logger, ret. simpl.
    destruct (path_exists dest w); simpl; [|exists []; now rewrite app_nil_r].
    destruct (path_isdir dest w); simpl.
    - destruct (rmtree dest w) as [[[]|e] w1]; simpl;
        [eexists; reflexivity|exists []; now rewrite app_nil_r].
    - destruct (path_isfile dest w); simpl; [|exists []; now rewrite app_nil_r].
      destruct (remove dest w) as [[[]|e] w1]; simpl;
        [eexists; reflexivity|exists []; now rewrite app_nil_r]. }
  destruct X as [n1 ->].
  destruct (clear_destination dest w) as [[[]|e] w1]; simpl; [|now exists n1].
  unfold bind at 1.
  destruct c.
  - unfold bind at 1.
    destruct (zip_posix src dest (mkState w1 (lg ++ n1))) as [n2 ->]. simpl.
    destruct (zip_run src dest w1) as [[[]|e] w2]; simpl.
    + unfold bind, logger, ret, _count_files_in_folder, peek. simpl.
      eexists. rewrite <- !app_assoc. reflexivity.
    + exists (n1 ++ n2). now rewrite app_assoc.
  - unfold bind at 1.
    destruct (copy_posix src dest (mkState w1 (lg ++ n1))) as [n2 ->]. simpl.
    destruct (copy_run src dest w1) as [[[]|e] w2]; simpl.
    + unfold bind, logger, ret, _count_files_in_folder, peek. simpl.
      eexists. rewrite <- !app_assoc. reflexivity.
    + exists (n1 ++ n2). now rewrite app_assoc.
Qed.


(** The three ways a call on the tree machine can go. *)

Lemma perform_backup_rejected src base c w lg :
  path_exists src w && path_isdir src w = false ->
  exists r, is_error r = true
    /\ perform_backup posix src base c (mkState w lg)
       = (Ret false, mkState w (lg ++ [r])).
Proof.
  intros H. unfold perform_backup. unfold bind at 1. unfold peek at 1.
  cbn [world log os_path_exists os_path_isdir posix].
  destruct (path_exists src w); cbn [negb andb] in *.
  - unfold bind at 1. unfold peek at 1.
    cbn [world log os_path_exists os_path_isdir posix]. rewrite H. cbn [negb].
    eexists. split; [|reflexivity]. reflexivity.
  - eexists. split; [|reflexivity]. reflexivity.
Qed.

Lemma finally_posix src t l w lg :
  perform_backup_finally posix src t l (mkState w lg)
  = (Ret (success l),
     mkState w (lg ++ [mkRecord INFO (result_line src (mkDelta (clock w) t) l)])).
Proof. reflexivity. Qed.

Lemma perform_backup_started src base c w lg :
  path_exists src w && path_isdir src w = true ->
  exists mid msg,
    perform_backup posix src base c (mkState w lg)
    = match write_run src (destination src base c (clock w)) c w with
      | (Ret _, w') =>
          (Ret true,
           mkState w' (lg ++ mid ++
                       [mkRecord INFO
                          (result_line src (mkDelta (clock w') (clock w))
                                       (mkLocals true (counted src w') []))]))
      | (Raise _, w') =>
          (Ret false,
           mkState w' (lg ++ mid ++
                       [mkRecord INFO
                          (result_line src (mkDelta (clock w') (clock w))
                                       (mkLocals false 0 msg))]))
      end.
Proof.
  intros H. apply andb_true_iff in H as [H1 H2].
  unfold perform_backup. unfold bind at 1. unfold peek at 1.
  cbn [world log os_path_exists os_path_isdir posix]. rewrite H1. cbn [negb].
  unfold bind at 1. unfold peek at 1.
  cbn [world log os_path_exists os_path_isdir posix]. rewrite H2. cbn [negb].
  unfold bind at 1. unfold _generate_backup_folder_name, now at 1.
  unfold bind at 1. cbn [world log datetime_now posix]. unfold ret at 1.
  unfold bind at 1. unfold logger at 1. cbn [world log].
  unfold bind at 1. unfold now at 1. cbn [world log datetime_now posix].
  fold (backup_name src (clock w)). fold (destination src base c (clock w)).
  set (dest := destination src base c (clock w)).
  set (lg1 := lg ++ _).
  unfold finally_return, try_except.
  destruct (try_posix src dest c (mkState w lg1)) as [n1 ->]. cbn [world log].
  destruct (write_run src dest c w) as [[[]|e] w'].
  - rewrite finally_posix. cbn [success].
    exists ([mkRecord INFO
               [Lit "Starting backup of '"; FStr src; Lit "' to '"; FStr dest;
                Lit "' (Compression: "; FBool c; Lit ")"]] ++ n1), [].
    subst lg1. now rewrite <- !app_assoc.
  - destruct (except_logs src dest e (mkState w' (lg1 ++ n1))) as [msg (_ & ->)].
    cbn [world log]. rewrite finally_posix. cbn [success].
    exists ([mkRecord INFO
               [Lit "Starting backup of '"; FStr src; Lit "' to '"; FStr dest;
                Lit "' (Compression: "; FBool c; Lit ")"]] ++ n1
              ++ [mkRecord ERROR msg]), msg.
    subst lg1. now rewrite <- !app_assoc.
Qed.

(** A call that returns [True] passed both tests of the source and wrote
    without an exception. *)
Lemma perform_backup_true src base c w lg s' :
  perform_backup posix src base c (mkState w lg) = (Ret true, s') ->
  path_exists src w = true /\ path_isdir src w = true
  /\ write_run src (destination src base c (clock w)) c w = (Ret tt, world s').
Proof.
  intros H.
  destruct (path_exists src w && path_isdir src w) eqn:E.
  - destruct (perform_backup_started src base c w lg E) as (mid & msg & R).
    rewrite R in H. apply andb_true_iff in E as [E1 E2].
    destruct (write_run _ _ _ _) as [[[]|e] w']; inversion H; subst. auto.
  - destruct (perform_backup_rejected src base c w lg E) as (r & _ & R).
    rewrite R in H. discriminate.
Qed.

End RunFacts.

(* ================================================================= *)
(** ** The clean-up and the copy *)

Module CopyRun.
Import PosixPath Clock Py Backup Posix TreeFacts CopyFacts PyFacts RunFacts.

Lemma lookup_resolve p w n :
  lookup p w = Some n -> resolve p = Some (path_of p) /\ get (root w) (path_of p) = Some n.
Proof.
  unfold lookup, resolve. destruct (String.eqb p ""); [discriminate|]. auto.
Qed.

Lemma resolve_some p cp : resolve p = Some cp -> cp = path_of p.
Proof. unfold resolve. destruct (String.eqb p ""); congruence. Qed.

Lemma get_file_root readable data p n :
  get (File readable data) p = Some n -> p = [].
Proof. destruct p; [reflexivity|discriminate]. Qed.

Lemma well_formed_assoc c es m :
  well_formed (Dir es) = true -> assoc c es = Some m -> well_formed m = true.
Proof.
  intros W. destruct (well_formed_dir _ W) as [_ F]. clear W.
  induction es as [|[k x] es IH]; simpl; [discriminate|].
  inversion F; subst. destruct (String.eqb k c).
  - intros H. inversion H; subst. apply H1.
  - auto.
Qed.

Lemma well_formed_get p : forall r n,
  well_formed r = true -> get r p = Some n -> well_formed n = true.
Proof.
  induction p as [|c p IH]; intros r n W; simpl.
  - intros H. now inversion H; subst.
  - destruct r as [|es]; [discriminate|].
    destruct (assoc c es) as [m|] eqn:E; [|discriminate].
    apply IH. eapply well_formed_assoc; eauto.
Qed.

(** The clean-up leaves nothing at the destination and touches nothing
    that is not there or below. *)
Lemma clear_destination_ret dest w w1 es0 :
  root w = Dir es0 ->
  clear_destination dest w = (Ret tt, w1) ->
  clock w1 = clock w /\ depth_limit w1 = depth_limit w
  /\ (root w1 = root w \/ (path_of dest <> [] /\ root w1 = del (root w) (path_of dest)))
  /\ lookup dest w1 = None.
Proof.
  intros Hr.
  unfold clear_destination, path_exists, path_isdir, path_isfile, rmtree, remove, lookup.
  destruct (resolve dest) as [cp|] eqn:R.
  2:{ intros H. inversion H; subst. auto. }
  pose proof (resolve_some _ _ R) as ->.
  destruct (get (root w) (path_of dest)) as [[rd data|es]|] eqn:G.
  - assert (N : path_of dest <> []).
    { intros E. rewrite E, Hr in G. discriminate. }
    intros [= <-]. cbn [root clock depth_limit with_root].
    split; [reflexivity|]. split; [reflexivity|]. split; [now right|].
    now apply get_del_same.
  - destruct (path_of dest) eqn:P; [discriminate|]. rewrite G.
    intros [= <-]. cbn [root clock depth_limit with_root].
    split; [reflexivity|]. split; [reflexivity|]. split; [right; split; [discriminate|reflexivity]|].
    exact (get_del_same (root w) (s :: l) ltac:(discriminate)).
  - intros H. inversion H; subst. auto.
Qed.

Lemma clear_destination_other dest w w1 q es0 :
  root w = Dir es0 ->
  clear_destination dest w = (Ret tt, w1) ->
  incomparable (path_of dest) q -> get (root w1) q = get (root w) q.
Proof.
  intros Hr H I. destruct (clear_destination_ret _ _ _ _ Hr H) as (_ & _ & [->|[_ ->]] & _).
  - reflexivity.
  - now apply get_del_other.
Qed.

(** [makedirs] on a name that is free. *)
Lemma makedirs_ret dest w w1 :
  lookup dest w = None ->
  makedirs dest w = (Ret tt, w1) ->
  clock w1 = clock w /\ depth_limit w1 = depth_limit w
  /\ resolve dest = Some (path_of dest)
  /\ mkdirs (root w) (path_of dest) = Some (root w1)
  /\ get (root w1) (path_of dest) = Some (Dir []).
Proof.
  unfold makedirs, lookup, makedirs_at.
  destruct (resolve dest) as [cp|] eqn:R; [|discriminate].
  pose proof (resolve_some _ _ R) as ->. intros G. rewrite G.
  destruct (mkdirs (root w) (path_of dest)) as [r'|] eqn:M; [|discriminate].
  intros [= <-]. cbn [root clock depth_limit with_root]. repeat split.
  eapply mkdirs_fresh; eauto.
Qed.


Lemma isdir_lookup p w : path_isdir p w = true -> exists es, lookup p w = Some (Dir es).
Proof.
  unfold path_isdir. destruct (lookup p w) as [[|es]|]; try discriminate. eauto.
Qed.

Lemma get_dir_root r p es : get r p = Some (Dir es) -> exists es0, r = Dir es0.
Proof.
  destruct r as [rd data|es0]; [|eauto].
  intros H. pose proof (get_file_root _ _ _ _ H) as ->. discriminate.
Qed.

Lemma copytree_ret src dest w w1 :
  copytree src dest w = (Ret tt, w1) ->
  copytree_at (depth_limit w) (path_of src) (path_of dest) (root w) = (Ret tt, root w1)
  /\ resolve dest = Some (path_of dest).
Proof.
  unfold copytree.
  destruct (resolve src) as [s|] eqn:Rs; [|discriminate].
  destruct (resolve dest) as [d|] eqn:Rd; [|discriminate].
  pose proof (resolve_some _ _ Rs) as ->. pose proof (resolve_some _ _ Rd) as ->.
  destruct (copytree_at _ _ _ _) as [res r]. intros [= -> <-]. auto.
Qed.

Lemma copytree_missing depth s d r :
  get r s = None -> exists e r', copytree_at depth s d r = (Raise e, r').
Proof. intros G. destruct depth; simpl; [|rewrite G]; eauto. Qed.

Lemma get_below_empty r p q : get r p = Some (Dir []) -> q <> [] -> get r (p ++ q) = None.
Proof. intros G N. rewrite get_app, G. destruct q; [congruence|reflexivity]. Qed.

(** A copy run that returns leaves at the destination the very tree of
    the source, provided the destination does not lie in the source. *)
Lemma write_run_copy_exact src dest w w' es :
  well_formed (root w) = true ->
  is_prefix (path_of src) (path_of dest) = false ->
  lookup src w = Some (Dir es) ->
  write_run src dest false w = (Ret tt, w') ->
  lookup dest w' = Some (Dir es) /\ lookup src w' = Some (Dir es).
Proof.
  intros W N L R.
  destruct (lookup_resolve _ _ _ L) as [Rs G].
  destruct (get_dir_root _ _ _ G) as [es0 Hr].
  unfold write_run in R.
  destruct (clear_destination dest w) as [[[]|e] w1] eqn:C; [|discriminate].
  destruct (clear_destination_ret _ _ _ _ Hr C) as (_ & Hd & Hroot & Ld).
  unfold copy_run, path_exists in R. rewrite Ld in R.
  destruct (makedirs dest w1) as [[[]|e] w2] eqn:M; [|discriminate].
  destruct (makedirs_ret _ _ _ Ld M) as (_ & Hd2 & Rd & Mk & Gd).
  apply copytree_ret in R as [R _].
  destruct (is_prefix (path_of dest) (path_of src)) eqn:P.
  - (* the source lay inside the destination and went with it *)
    exfalso. apply is_prefix_split in P as [q Q].
    assert (Nq : q <> []).
    { intros ->. rewrite app_nil_r in Q. rewrite Q, is_prefix_refl in N. discriminate. }
    destruct (copytree_missing (depth_limit w2) (path_of src) (path_of dest) (root w2))
      as (e & r' & X); [rewrite Q; now apply get_below_empty|].
    rewrite X in R. discriminate.
  - assert (I : incomparable (path_of src) (path_of dest)) by (now split).
    assert (G1 : get (root w1) (path_of src) = Some (Dir es)).
    { rewrite (clear_destination_other _ _ _ _ _ Hr C); [assumption|].
      now apply incomparable_sym. }
    assert (G2 : get (root w2) (path_of src) = Some (Dir es)).
    { rewrite (mkdirs_other _ _ _ _ (incomparable_sym _ _ I) Mk). assumption. }
    apply copytree_exact with (es := es) in R; auto.
    + unfold lookup. rewrite Rd, Rs, R. split.
      * eapply get_put_same; eauto.
      * rewrite get_put_other; [assumption|now apply incomparable_sym].
    + eapply well_formed_get; eauto.
    + now left.
Qed.

End CopyRun.

(* ================================================================= *)
(** ** os.path: components of joined paths *)

Module PathFacts.
Import PosixPath Clock.

Lemma append_assoc (a b c : string) : ((a ++ b) ++ c = a ++ (b ++ c))%string.
Proof. induction a; simpl; [reflexivity|now rewrite IHa]. Qed.

Lemma append_nil_r (a : string) : (a ++ "")%string = a.
Proof. induction a; simpl; [reflexivity|now rewrite IHa]. Qed.

Lemma has_sep_app a b : has_sep (a ++ b) = has_sep a || has_sep b.
Proof. induction a; simpl; [reflexivity|]. now rewrite IHa, orb_assoc. Qed.

Lemma split_nonempty s : split s <> [].
Proof.
  destruct s as [|c r]; simpl; [discriminate|].
  destruct (Ascii.eqb c sep); [discriminate|]. destruct (split r); discriminate.
Qed.

Lemma split_no_sep n : has_sep n = false -> split n = [n].
Proof.
  induction n as [|c r IH]; simpl; [reflexivity|].
  intros H. apply orb_false_iff in H as [H1 H2]. rewrite H1, (IH H2). reflexivity.
Qed.

(** Splitting at a slash splits the components. *)
Lemma split_app_sep a b : split (a ++ String sep b) = split a ++ split b.
Proof.
  induction a as [|c r IH]; simpl.
  - reflexivity.
  - destruct (Ascii.eqb c sep); rewrite IH; [reflexivity|].
    destruct (split r) eqn:E; [now apply split_nonempty in E|reflexivity].
Qed.

Lemma fold_norm_app stack l1 l2 :
  fold_left norm_step (l1 ++ l2) stack
  = fold_left norm_step l2 (fold_left norm_step l1 stack).
Proof. apply fold_left_app. Qed.

Lemma proper_name_parts n :
  proper_name n = true ->
  String.eqb n "" = false /\ String.eqb n "." = false /\ String.eqb n ".." = false
  /\ has_sep n = false.
Proof.
  unfold proper_name. intros H.
  repeat (apply andb_true_iff in H as [H ?]).
  repeat match goal with X : negb _ = true |- _ => apply negb_true_iff in X end.
  auto.
Qed.

Lemma norm_step_proper stack n : proper_name n = true -> norm_step stack n = stack ++ [n].
Proof.
  intros H. destruct (proper_name_parts _ H) as (A & B & C & _).
  unfold norm_step. now rewrite A, B, C.
Qed.

Lemma path_of_app_sep a b :
  path_of (a ++ String sep b) = fold_left norm_step (split b) (path_of a).
Proof. unfold path_of. now rewrite split_app_sep, fold_norm_app. Qed.

Lemma path_of_name n : proper_name n = true -> path_of n = [n].
Proof.
  intros H. destruct (proper_name_parts _ H) as (_ & _ & _ & S).
  unfold path_of. rewrite (split_no_sep _ S). simpl. now rewrite norm_step_proper.
Qed.

Lemma endswith_sep_split a : endswith_sep a = true -> exists a', a = (a' ++ "/")%string.
Proof.
  induction a as [|c r IH]; simpl; [discriminate|].
  destruct r as [|d r'].
  - intros H. apply Ascii.eqb_eq in H. subst c. now exists "".
  - intros H. destruct (IH H) as [a' E]. exists (String c a'). simpl. now rewrite <- E.
Qed.

Lemma startswith_no_sep n : has_sep n = false -> startswith_sep n = false.
Proof.
  destruct n as [|c r]; simpl; [reflexivity|]. intros H.
  now apply orb_false_iff in H as [H _].
Qed.

(** The components of [join a n] are those of [a] followed by [n]. *)
Lemma path_of_join a n : proper_name n = true -> path_of (join a n) = path_of a ++ [n].
Proof.
  intros H. destruct (proper_name_parts _ H) as (_ & _ & _ & S).
  unfold join. rewrite (startswith_no_sep _ S).
  destruct (String.eqb a "") eqn:E; simpl.
  - apply String.eqb_eq in E. subst a. simpl. now apply path_of_name.
  - destruct (endswith_sep a) eqn:F.
    + destruct (endswith_sep_split _ F) as [a' ->].
      rewrite append_assoc. simpl. change "/"%char with sep.
      rewrite !path_of_app_sep, (split_no_sep _ S). simpl.
      now rewrite norm_step_proper.
    + change (a ++ "/" ++ n)%string with (a ++ String sep n)%string.
      rewrite path_of_app_sep, (split_no_sep _ S). simpl.
      now rewrite norm_step_proper.
Qed.

Lemma join_nonempty a n : String.eqb n "" = false -> String.eqb (join a n) "" = false.
Proof.
  intros H. unfold join. destruct (startswith_sep n); [assumption|].
  destruct (String.eqb a "" || endswith_sep a).
  - destruct a; simpl; [assumption|reflexivity].
  - destruct a; reflexivity.
Qed.

(** *** dirname and basename *)

Lemma basename_no_sep p : has_sep (basename p) = false.
Proof.
  induction p as [|c r IH]; simpl; [reflexivity|].
  destruct (has_sep r) eqn:E; [assumption|].
  destruct (Ascii.eqb c sep) eqn:F; [assumption|]. simpl. now rewrite F, E.
Qed.

Lemma head_basename p : p = (upto_last_sep p ++ basename p)%string.
Proof.
  induction p as [|c r IH]; simpl; [reflexivity|].
  destruct (has_sep r); simpl; [now rewrite <- IH|].
  destruct (Ascii.eqb c sep); reflexivity.
Qed.

Lemma head_no_sep p : has_sep p = false -> upto_last_sep p = "".
Proof.
  destruct p as [|c r]; simpl; [reflexivity|]. intros H.
  apply orb_false_iff in H as [H1 H2]. now rewrite H2, H1.
Qed.

Lemma head_sep p : has_sep p = true -> exists h, upto_last_sep p = (h ++ "/")%string.
Proof.
  induction p as [|c r IH]; simpl; [discriminate|].
  destruct (has_sep r) eqn:E.
  - intros _. destruct (IH eq_refl) as [h ->]. now exists (String c h).
  - rewrite orb_false_r. intros H. rewrite H. apply Ascii.eqb_eq in H. subst c.
    now exists "".
Qed.

Lemma basename_id n : has_sep n = false -> basename n = n.
Proof.
  destruct n as [|c r]; simpl; [reflexivity|]. intros H.
  apply orb_false_iff in H as [H1 H2]. now rewrite H2, H1.
Qed.

Lemma basename_app_sep x n : has_sep n = false -> basename (x ++ String sep n) = n.
Proof.
  intros H. induction x as [|c x IH]; simpl.
  - rewrite H. reflexivity.
  - rewrite has_sep_app. simpl. now rewrite orb_true_r.
Qed.

Lemma basename_join a n : has_sep n = false -> basename (join a n) = n.
Proof.
  intros S. unfold join. rewrite (startswith_no_sep _ S).
  destruct (String.eqb a "") eqn:E; simpl.
  - apply String.eqb_eq in E. subst a. now apply basename_id.
  - destruct (endswith_sep a) eqn:F.
    + destruct (endswith_sep_split _ F) as [a' ->]. rewrite append_assoc.
      now apply basename_app_sep.
    + now apply (basename_app_sep a n).
Qed.

Lemma all_sep_split z : all_sep z = true -> Forall (fun c => c = "") (split z).
Proof.
  induction z as [|c r IH]; simpl.
  - intros _. constructor; [reflexivity|constructor].
  - intros H. apply andb_true_iff in H as [H1 H2]. rewrite H1.
    constructor; [reflexivity|auto].
Qed.

Lemma fold_norm_empty l stack :
  Forall (fun c => c = "") l -> fold_left norm_step l stack = stack.
Proof.
  induction 1 as [|c l H _ IH]; simpl; [reflexivity|]. subst c. exact IH.
Qed.

Lemma path_of_all_sep z : all_sep z = true -> path_of z = [].
Proof. intros H. unfold path_of. now apply fold_norm_empty, all_sep_split. Qed.

Lemma path_of_app_all_sep t z : all_sep z = true -> path_of (t ++ z) = path_of t.
Proof.
  destruct z as [|c z]; simpl.
  - intros _. now rewrite append_nil_r.
  - intros H. apply andb_true_iff in H as [H1 H2]. apply Ascii.eqb_eq in H1. subst c.
    rewrite path_of_app_sep. now apply fold_norm_empty, all_sep_split.
Qed.

Lemma rstrip_decomp s : exists z, all_sep z = true /\ s = (rstrip_sep s ++ z)%string.
Proof.
  induction s as [|c r IH]; [now exists ""|].
  destruct (all_sep (String c r)) eqn:E.
  - exists (String c r). split; [assumption|]. simpl in *. now rewrite E.
  - destruct IH as (z & Z & D). exists z. split; [assumption|].
    simpl in *. rewrite E. simpl. now rewrite <- D.
Qed.

Lemma path_of_rstrip s : path_of (rstrip_sep s) = path_of s.
Proof.
  destruct (rstrip_decomp s) as (z & Z & D). rewrite D at 2.
  symmetry. now apply path_of_app_all_sep.
Qed.

Lemma path_of_dirname_head p : path_of (dirname p) = path_of (upto_last_sep p).
Proof.
  unfold dirname. destruct (negb _ && negb _); [apply path_of_rstrip|reflexivity].
Qed.

(** A path is its directory followed by its last name. *)
Lemma path_of_dirname p :
  proper_name (basename p) = true ->
  path_of p = path_of (dirname p) ++ [basename p].
Proof.
  intros H. rewrite path_of_dirname_head.
  destruct (has_sep p) eqn:E.
  - destruct (head_sep _ E) as [h Hh]. rewrite (head_basename p) at 1. rewrite Hh.
    rewrite append_assoc. simpl. change "/"%char with sep.
    destruct (proper_name_parts _ H) as (_ & _ & _ & S).
    rewrite path_of_app_sep, (split_no_sep _ S). simpl. rewrite norm_step_proper by assumption.
    rewrite (path_of_app_all_sep h (String sep "")) by reflexivity. reflexivity.
  - rewrite (head_no_sep _ E). rewrite (basename_id _ E) in *. now apply path_of_name.
Qed.

Lemma dirname_empty p : dirname p = "" -> has_sep p = false.
Proof.
  unfold dirname. destruct (has_sep p) eqn:E; [|reflexivity].
  destruct (head_sep _ E) as [h Hh]. rewrite Hh.
  destruct (all_sep (h ++ "/")) eqn:A; simpl.
  - destruct h; discriminate.
  - replace (String.eqb (h ++ "/") "") with false by (destruct h; reflexivity). simpl.
    intros R. exfalso.
    destruct (rstrip_decomp (h ++ "/")) as (z & Z & D). rewrite R in D. simpl in D.
    rewrite <- D in Z. congruence.
Qed.

(** *** relpath below its start *)

Lemma common_prefix_app l r : common_prefix_len l (l ++ r) = length l.
Proof. induction l; simpl; [now destruct r|]. now rewrite String.eqb_refl, IHl. Qed.

Lemma skipn_app_exact (l r : list string) : skipn (length l) (l ++ r) = r.
Proof. induction l; simpl; auto. Qed.

Lemma relpath_below path start rel :
  path_of path = path_of start ++ rel -> rel <> [] ->
  relpath path start = String.concat "/" rel.
Proof.
  intros E N. unfold relpath. rewrite E, common_prefix_app, Nat.sub_diag, skipn_app_exact.
  simpl. destruct rel; [congruence|reflexivity].
Qed.


(** *** The name of a backup *)

Lemma digit_is_digit d : is_digit (digit d) = true.
Proof.
  unfold digit. pose proof (Nat.mod_upper_bound d 10 ltac:(discriminate)) as B.
  destruct (d mod 10) as [|[|[|[|[|[|[|[|[|[|n]]]]]]]]]]; try reflexivity. lia.
Qed.

Lemma digit_not_sep d : Ascii.eqb (digit d) sep = false.
Proof.
  unfold digit. pose proof (Nat.mod_upper_bound d 10 ltac:(discriminate)) as B.
  destruct (d mod 10) as [|[|[|[|[|[|[|[|[|[|n]]]]]]]]]]; try reflexivity. lia.
Qed.

Lemma has_sep_dec2 n : has_sep (dec2 n) = false.
Proof. unfold dec2. cbn [has_sep]. now rewrite !digit_not_sep. Qed.

Lemma has_sep_dec4 n : has_sep (dec4 n) = false.
Proof. unfold dec4. cbn [has_sep]. now rewrite !digit_not_sep, has_sep_dec2. Qed.

Lemma has_sep_strftime t : has_sep (strftime t) = false.
Proof.
  unfold strftime. rewrite !has_sep_app, has_sep_dec4, !has_sep_dec2. reflexivity.
Qed.

(** The timestamp has the shape YYYY-MM-DD_HH-MM-SS. *)
Lemma strftime_format t : is_timestamp_format (strftime t) = true.
Proof.
  unfold strftime, dec4, dec2, is_timestamp_format.
  cbn [append list_ascii_of_string forallb]. rewrite !digit_is_digit. reflexivity.
Qed.

Lemma underscore_name b rest :
  String.eqb (b ++ String "_" rest) "" = false
  /\ String.eqb (b ++ String "_" rest) "." = false
  /\ String.eqb (b ++ String "_" rest) ".." = false.
Proof.
  repeat split; apply String.eqb_neq; intros E.
  - destruct b; discriminate.
  - destruct b as [|c [|c' b]]; simpl in E; inversion E.
  - destruct b as [|c [|c' [|c'' b]]]; simpl in E; inversion E.
Qed.

Lemma backup_name_proper src t suffix :
  has_sep suffix = false ->
  proper_name (Posix.backup_name src t ++ suffix) = true.
Proof.
  intros S. unfold Posix.backup_name. rewrite append_assoc.
  change ("_" ++ strftime t ++ "_" ++ "v1.0.0")%string
    with (String "_" (strftime t ++ "_v1.0.0"))%string.
  cbn [append]. unfold proper_name.
  destruct (underscore_name (basename src) ((strftime t ++ "_v1.0.0") ++ suffix))
    as (A & B & C).
  rewrite A, B, C. rewrite !has_sep_app. cbn [has_sep].
  rewrite basename_no_sep, !has_sep_app, has_sep_strftime, S. reflexivity.
Qed.

Lemma join_append a n suffix :
  String.eqb n "" = false -> (join a n ++ suffix)%string = join a (n ++ suffix).
Proof.
  intros N. unfold join. destruct n as [|c n]; [discriminate|]. simpl.
  destruct (Ascii.eqb c sep); [reflexivity|].
  destruct (String.eqb a "" || endswith_sep a); now rewrite !append_assoc.
Qed.

(** The destination is the base directory followed by one proper name. *)
Lemma destination_shape src base compress t :
  exists n,
    proper_name n = true
    /\ Posix.destination src base compress t = join base n
    /\ path_of (Posix.destination src base compress t) = path_of base ++ [n].
Proof.
  unfold Posix.destination, Backup.destination_path. destruct compress.
  - exists (Posix.backup_name src t ++ ".zip")%string.
    assert (P : proper_name (Posix.backup_name src t ++ ".zip") = true)
      by (now apply backup_name_proper).
    split; [assumption|].
    assert (E : (join base (Posix.backup_name src t) ++ ".zip")%string
                = join base (Posix.backup_name src t ++ ".zip")).
    { apply join_append.
      pose proof (backup_name_proper src t "" eq_refl) as Q.
      rewrite append_nil_r in Q. now destruct (proper_name_parts _ Q). }
    rewrite E. split; [reflexivity|now apply path_of_join].
  - exists (Posix.backup_name src t).
    pose proof (backup_name_proper src t "" eq_refl) as Q. rewrite append_nil_r in Q.
    split; [assumption|]. split; [reflexivity|now apply path_of_join].
Qed.

Lemma destination_resolves src base compress t :
  Posix.resolve (Posix.destination src base compress t)
  = Some (path_of (Posix.destination src base compress t))
  /\ path_of (Posix.destination src base compress t) <> [].
Proof.
  destruct (destination_shape src base compress t) as (n & P & E & Q).
  split.
  - unfold Posix.resolve. rewrite E at 1. rewrite join_nonempty; [reflexivity|].
    now destruct (proper_name_parts _ P).
  - rewrite Q. now destruct (path_of base).
Qed.

End PathFacts.

(* ================================================================= *)
(** ** The archive *)

Module ZipFacts.
Import PosixPath Clock Py Backup Posix TreeFacts CopyFacts PyFacts RunFacts CopyRun PathFacts.

Lemma write_triples_app zp src a b w :
  write_triples zp src (a ++ b) w
  = match write_triples zp src a w with
    | (Ret _, w') => write_triples zp src b w'
    | (Raise e, w') => (Raise e, w')
    end.
Proof.
  revert w. induction a as [|[[top dirs] files] a IH]; intros w; simpl; [reflexivity|].
  destruct (write_files zp src top files w) as [[[]|e] w']; [apply IH|reflexivity].
Qed.

Lemma In_assoc es k m : NoDup (map fst es) -> In (k, m) es -> assoc k es = Some m.
Proof.
  induction es as [|[k' m'] es IH]; simpl; [tauto|].
  intros N [E|I].
  - inversion E; subst. now rewrite String.eqb_refl.
  - inversion N; subst. destruct (String.eqb k' k) eqn:E.
    + apply String.eqb_eq in E. subst k'. exfalso. apply H1.
      change k with (fst (k, m)). now apply in_map.
    + auto.
Qed.

Section Archive.

Variables (zp src : string) (zpc : list string) (w0 : host) (rd : bool).
Hypothesis zp_resolves : resolve zp = Some zpc.
Hypothesis apart : incomparable zpc (path_of src).
Hypothesis present : exists n, get (root w0) zpc = Some n.

(** The machine when the archive being written holds the members [ms]. *)
Local Abbreviation at_archive ms :=
  (with_root w0 (put (root w0) zpc (File rd (Zip false ms)))).

Lemma lookup_at_archive p ms x :
  String.eqb p "" = false -> path_of p = path_of src ++ x ->
  lookup p (at_archive ms) = get (root w0) (path_of p).
Proof.
  intros N E. unfold lookup, resolve. rewrite N. cbn [root with_root].
  apply get_put_other. rewrite E. now apply incomparable_app_r.
Qed.

Lemma zip_write_stored file_path arcname ms data :
  lookup file_path (at_archive ms) = Some (File true data) ->
  zip_write zp file_path arcname (at_archive ms)
  = (Ret tt, at_archive (ms ++ [(arcname, data)])).
Proof.
  intros L. destruct present as [n G]. unfold zip_write, member_of. rewrite L, zp_resolves.
  cbn [root with_root]. rewrite (get_put_same _ _ _ _ G).
  unfold with_root. cbn [root clock depth_limit]. now rewrite put_put_same.
Qed.

Lemma zip_write_denied file_path arcname ms data :
  lookup file_path (at_archive ms) = Some (File false data) ->
  exists e, zip_write zp file_path arcname (at_archive ms) = (Raise e, at_archive ms).
Proof. intros L. unfold zip_write, member_of. rewrite L. eauto. Qed.

Lemma write_files_exact top rel es :
  path_of top = path_of src ++ rel ->
  get (root w0) (path_of src ++ rel) = Some (Dir es) ->
  well_formed (Dir es) = true ->
  forall l, incl l es ->
  forall ms w',
    write_files zp src top (filenames l) (at_archive ms) = (Ret tt, w') ->
    w' = at_archive (ms ++ file_members rel l).
Proof.
  intros T G W. destruct (well_formed_dir _ W) as [D F]. apply distinct_NoDup in D.
  induction l as [|[name m] l IH]; intros I ms w'.
  - simpl. intros [= <-]. now rewrite app_nil_r.
  - assert (Ie : In (name, m) es) by (apply I; now left).
    assert (Il : incl l es) by (intros e He; apply I; now right).
    destruct m as [readable data|sub]; unfold filenames, file_members; simpl.
    + fold (filenames l). fold (file_members rel l).
      rewrite Forall_forall in F. destruct (F _ Ie) as [Pn _]. simpl in Pn.
      assert (Pj : path_of (join top name) = path_of src ++ (rel ++ [name])).
      { rewrite path_of_join by assumption. now rewrite T, app_assoc. }
      assert (L : lookup (join top name) (at_archive ms) = Some (File readable data)).
      { rewrite (lookup_at_archive _ _ (rel ++ [name])); [| |assumption].
        - rewrite Pj, app_assoc, get_app, G. simpl. now rewrite (In_assoc _ _ _ D Ie).
        - apply join_nonempty. now destruct (proper_name_parts _ Pn). }
      destruct readable.
      * rewrite (zip_write_stored _ _ _ _ L).
        rewrite (relpath_below _ _ (rel ++ [name])) by
          (assumption || (destruct rel; discriminate)).
        intros H. apply IH in H; [|assumption]. now rewrite <- app_assoc in H.
      * destruct (zip_write_denied _ (relpath (join top name) src) _ _ L) as [e ->].
        discriminate.
    + fold (filenames l). fold (file_members rel l). now apply IH.
Qed.

Lemma write_tree_exact n : forall top rel ms w',
  path_of top = path_of src ++ rel ->
  get (root w0) (path_of src ++ rel) = Some n ->
  well_formed n = true ->
  write_triples zp src (walk_node top n) (at_archive ms) = (Ret tt, w') ->
  w' = at_archive (ms ++ members_of rel n).
Proof.
  induction n as [readable data|es IHes] using node_induction;
    intros top rel ms w' T G W.
  - simpl. intros [= <-]. now rewrite app_nil_r.
  - simpl.
    destruct (write_files zp src top (filenames es) (at_archive ms)) as [[[]|e] w1] eqn:Fi;
      [|discriminate].
    apply (write_files_exact top rel es T G W es (incl_refl _)) in Fi. subst w1.
    fold (file_members rel es). rewrite app_assoc.
    generalize (ms ++ file_members rel es). clear ms.
    destruct (well_formed_dir _ W) as [D F]. apply distinct_NoDup in D.
    assert (X : forall l, incl l es -> forall ms,
      write_triples zp src
        (flat_map (fun e => walk_node (join top (fst e)) (snd e)) l) (at_archive ms)
      = (Ret tt, w') ->
      w' = at_archive (ms ++ flat_map (fun e => members_of (rel ++ [fst e]) (snd e)) l)).
    { induction l as [|[name m] l IHl]; intros I ms.
      - simpl. intros [= <-]. now rewrite app_nil_r.
      - assert (Ie : In (name, m) es) by (apply I; now left).
        assert (Il : incl l es) by (intros e He; apply I; now right).
        simpl. rewrite write_triples_app.
        destruct (write_triples zp src (walk_node (join top name) m) (at_archive ms))
          as [[[]|e] w1] eqn:Sub; [|discriminate].
        rewrite Forall_forall in IHes, F. destruct (F _ Ie) as [Pn Wm]. simpl in Pn, Wm.
        apply (IHes _ Ie (join top name) (rel ++ [name])) in Sub; auto.
        + subst w1. intros H. apply IHl in H; [|assumption]. now rewrite <- app_assoc in H.
        + rewrite path_of_join by assumption. now rewrite T, app_assoc.
        + rewrite app_assoc, get_app, G. simpl. now rewrite (In_assoc _ _ _ D Ie). }
    intros ms. apply X, incl_refl.
Qed.

End Archive.


(** *** What the members of an archive are *)

Lemma assoc_In es k m : assoc k es = Some m -> In (k, m) es.
Proof.
  induction es as [|[k' m'] es IH]; simpl; [discriminate|].
  destruct (String.eqb k' k) eqn:E.
  - apply String.eqb_eq in E. intros [= ->]. subst. now left.
  - intros H. right. auto.
Qed.

Lemma in_file_members rel l a c :
  In (a, c) (file_members rel l)
  <-> exists name rd, In (name, File rd c) l /\ a = String.concat "/" (rel ++ [name]).
Proof.
  unfold file_members. rewrite in_flat_map. split.
  - intros [[name m] [I H]]. destruct m as [rd data|]; simpl in H; [|tauto].
    destruct H as [[= <- <-]|[]]. eauto.
  - intros (name & rd & I & ->). exists (name, File rd c). split; [assumption|].
    now left.
Qed.

Lemma members_of_sound n : forall rel a c,
  well_formed n = true ->
  In (a, c) (members_of rel n) ->
  exists x rd, a = String.concat "/" (rel ++ x) /\ get n x = Some (File rd c).
Proof.
  induction n as [readable data|es IHes] using node_induction; intros rel a c W.
  - simpl. tauto.
  - destruct (well_formed_dir _ W) as [D F]. apply distinct_NoDup in D.
    simpl. rewrite in_app_iff, in_file_members, in_flat_map.
    intros [(name & rd & I & ->)|[[name m] [I H]]].
    + exists [name], rd. split; [reflexivity|]. simpl. now rewrite (In_assoc _ _ _ D I).
    + rewrite Forall_forall in IHes, F. destruct (F _ I) as [_ Wm].
      destruct (IHes _ I _ _ _ Wm H) as (x & rd & -> & G).
      exists (name :: x), rd. simpl. rewrite <- app_assoc. split; [reflexivity|].
      now rewrite (In_assoc _ _ _ D I).
Qed.

Lemma members_of_complete x : forall n rel rd c,
  get n x = Some (File rd c) -> x <> [] ->
  In (String.concat "/" (rel ++ x), c) (members_of rel n).
Proof.
  induction x as [|name x IH]; intros n rel rd c G N; [congruence|].
  destruct n as [|es]; [discriminate|]. simpl in G.
  destruct (assoc name es) as [m|] eqn:A; [|discriminate].
  apply assoc_In in A. simpl. rewrite in_app_iff, in_file_members, in_flat_map.
  destruct x as [|name' x].
  - simpl in G. inversion G; subst. left. eauto.
  - right. exists (name, m). split; [assumption|]. simpl.
    replace (rel ++ name :: name' :: x) with ((rel ++ [name]) ++ name' :: x)
      by (now rewrite <- app_assoc).
    eapply IH; eauto. discriminate.
Qed.

(** The members are exactly the regular files of the tree, each under its
    relative path. *)
Lemma members_of_files es a c :
  well_formed (Dir es) = true ->
  In (a, c) (members_of [] (Dir es))
  <-> exists rel rd, a = String.concat "/" rel /\ get (Dir es) rel = Some (File rd c).
Proof.
  intros W. split.
  - intros H. destruct (members_of_sound _ _ _ _ W H) as (x & rd & -> & G). eauto.
  - intros (rel & rd & -> & G). apply (members_of_complete rel (Dir es) [] rd c G).
    intros ->. discriminate.
Qed.

(** *** The run of [_zip_folder_contents] *)

Lemma get_put_fresh r p v es :
  p <> [] -> get r (removelast p) = Some (Dir es) -> get (put r p v) p = Some v.
Proof.
  intros N G. destruct (exists_last N) as (p' & c & ->).
  rewrite removelast_last in G. eapply get_put_child; eauto.
Qed.

Lemma get_prefix_exists r p q n :
  get r (p ++ q) = Some n -> exists m, get r p = Some m.
Proof. rewrite get_app. destruct (get r p); [eauto|discriminate]. Qed.

Lemma is_prefix_app_false s p c :
  is_prefix s (p ++ [c]) = false -> is_prefix s p = false.
Proof.
  intros H. destruct (is_prefix s p) eqn:E; [|reflexivity].
  apply is_prefix_split in E as [t ->]. now rewrite <- app_assoc, is_prefix_app in H.
Qed.

(** Making the directory of the archive leaves an existing source as it
    is, when the archive does not go into the source. *)
Lemma output_dir_made dest w w1 srcp n name :
  path_of dest = path_of (dirname dest) ++ [name] ->
  is_prefix srcp (path_of dest) = false ->
  get (root w) srcp = Some n ->
  (if negb (String.eqb (dirname dest) "") && negb (path_exists (dirname dest) w)
   then makedirs (dirname dest) w else (Ret tt, w)) = (Ret tt, w1) ->
  clock w1 = clock w /\ depth_limit w1 = depth_limit w
  /\ get (root w1) srcp = Some n.
Proof.
  intros Pd Np G.
  destruct (String.eqb (dirname dest) "") eqn:E; simpl.
  { intros [= <-]. auto. }
  destruct (path_exists (dirname dest) w) eqn:X; simpl.
  { intros [= <-]. auto. }
  intros M. assert (L : lookup (dirname dest) w = None).
  { unfold path_exists in X. now destruct (lookup (dirname dest) w). }
  destruct (makedirs_ret _ _ _ L M) as (Hc & Hd & _ & Mk & _).
  split; [assumption|]. split; [assumption|].
  rewrite Pd in Np. apply is_prefix_app_false in Np.
  destruct (is_prefix (path_of (dirname dest)) srcp) eqn:Q.
  - exfalso. apply is_prefix_split in Q as [t Q]. rewrite Q in G.
    destruct (get_prefix_exists _ _ _ _ G) as [m Gm].
    unfold lookup, resolve in L. rewrite E, Gm in L. discriminate.
  - rewrite (mkdirs_other _ _ srcp _ (conj Q Np) Mk). assumption.
Qed.

Lemma zip_open_ret dest w w1 :
  zip_open dest w = (Ret tt, w1) ->
  resolve dest = Some (path_of dest)
  /\ w1 = with_root w (put (root w) (path_of dest) (File true (Zip false [])))
  /\ get (root w1) (path_of dest) = Some (File true (Zip false [])).
Proof.
  unfold zip_open. destruct (resolve dest) as [cp|] eqn:R; [|discriminate].
  pose proof (resolve_some _ _ R) as ->.
  destruct (get (root w) (path_of dest)) as [[rd data|es]|] eqn:G.
  - destruct (get (root w) (removelast (path_of dest))) as [[|es']|]; try discriminate.
    intros [= <-]. repeat split. cbn [root with_root]. eapply get_put_same; eauto.
  - discriminate.
  - destruct (get (root w) (removelast (path_of dest))) as [[|es']|] eqn:P; try discriminate.
    intros [= <-]. repeat split. cbn [root with_root].
    eapply get_put_fresh; eauto. intros Z. rewrite Z in G. discriminate.
Qed.

Lemma zip_close_ret dest w rd ms :
  resolve dest = Some (path_of dest) ->
  get (root w) (path_of dest) = Some (File rd (Zip false ms)) ->
  zip_close dest w
  = (Ret tt, with_root w (put (root w) (path_of dest) (File rd (Zip true ms)))).
Proof. intros R G. unfold zip_close. now rewrite R, G. Qed.

Lemma zip_close_raise dest w e w1 : zip_close dest w <> (Raise e, w1).
Proof.
  unfold zip_close. destruct (resolve dest); [|discriminate].
  destruct (get (root w) l) as [[rd [|[] ms]|]|]; discriminate.
Qed.

(** An archive run that returns leaves the closed archive of the source
    tree, when neither of the two places contains the other. *)
Lemma zip_run_exact src dest w w' es name :
  path_of dest = path_of (dirname dest) ++ [name] ->
  incomparable (path_of src) (path_of dest) ->
  String.eqb src "" = false ->
  get (root w) (path_of src) = Some (Dir es) ->
  well_formed (Dir es) = true ->
  zip_run src dest w = (Ret tt, w') ->
  lookup dest w' = Some (File true (Zip true (members_of [] (Dir es))))
  /\ lookup src w' = Some (Dir es).
Proof.
  intros Pd I Ns G W. unfold zip_run.
  destruct (if negb (String.eqb (dirname dest) "") && negb (path_exists (dirname dest) w)
            then makedirs (dirname dest) w else (Ret tt, w)) as [[[]|e] w1] eqn:M;
    [|discriminate].
  destruct (output_dir_made dest w w1 (path_of src) (Dir es) name Pd (proj1 I) G M)
    as (_ & _ & G1).
  destruct (zip_open dest w1) as [[[]|e] w2] eqn:O; [|discriminate].
  destruct (zip_open_ret _ _ _ O) as (R & E2 & G2).
  assert (Gs2 : get (root w2) (path_of src) = Some (Dir es)).
  { rewrite E2. cbn [root with_root]. rewrite get_put_other; [assumption|].
    now apply incomparable_sym. }
  assert (Wk : walk src w2 = walk_node src (Dir es)).
  { unfold walk, lookup, resolve. now rewrite Ns, Gs2. }
  rewrite Wk.
  assert (A0 : w2 = with_root w2 (put (root w2) (path_of dest) (File true (Zip false [])))).
  { rewrite (put_get_id _ _ _ G2). rewrite E2. reflexivity. }
  destruct (write_triples dest src (walk_node src (Dir es)) w2) as [[[]|e] w3] eqn:T.
  - rewrite A0 in T.
    apply (write_tree_exact dest src (path_of dest) w2 true R
             (incomparable_sym _ _ I) (ex_intro _ _ G2) (Dir es) src [] []) in T;
      [|now rewrite app_nil_r|now rewrite app_nil_r|assumption].
    simpl app in T.
    assert (G3 : get (root w3) (path_of dest)
                 = Some (File true (Zip false (members_of [] (Dir es))))).
    { rewrite T. cbn [root with_root]. eapply get_put_same; eauto. }
    rewrite (zip_close_ret _ _ _ _ R G3). intros [= <-].
    unfold lookup. rewrite R. unfold resolve. rewrite Ns. cbn [root with_root]. split.
    + eapply get_put_same; eauto.
    + rewrite get_put_other by (now apply incomparable_sym).
      rewrite T. cbn [root with_root].
      rewrite get_put_other by (now apply incomparable_sym). assumption.
  - destruct (zip_close dest w3) as [[[]|e'] w4]; discriminate.
Qed.

End ZipFacts.

(* ================================================================= *)
(** ** What a run leaves in place *)

Module KeepFacts.
Import PosixPath Clock Py Backup Posix TreeFacts CopyFacts PyFacts RunFacts CopyRun PathFacts ZipFacts.

Lemma keeps_dirs_refl r : keeps_dirs r r.
Proof. intros q es H. eauto. Qed.

Lemma keeps_dirs_trans a b c : keeps_dirs a b -> keeps_dirs b c -> keeps_dirs a c.
Proof. intros H1 H2 q es G. destruct (H1 _ _ G) as [es' G']. eauto. Qed.

Lemma put_keeps_dirs p : forall r v,
  (forall es, get r p <> Some (Dir es)) -> keeps_dirs r (put r p v).
Proof.
  induction p as [|c p IH]; intros r v N q es G.
  - exfalso. destruct r as [|es0]; [|now apply (N es0)].
    pose proof (get_file_root _ _ _ _ G) as ->. discriminate.
  - destruct r as [|es0]; [simpl; eauto|].
    destruct q as [|d q].
    + simpl. destruct (assoc c es0); [eauto|]. destruct p; eauto.
    + simpl in G. destruct (assoc d es0) as [m|] eqn:A; [|discriminate].
      destruct (String.eqb c d) eqn:E.
      * apply String.eqb_eq in E. subst d. simpl. rewrite A. simpl.
        rewrite assoc_upsert_same. apply (IH m v) with (es := es); [|assumption].
        intros es1 X. apply (N es1). simpl. now rewrite A.
      * apply String.eqb_neq in E. simpl.
        destruct (assoc c es0) as [m0|] eqn:A0.
        -- simpl. rewrite assoc_upsert_other by assumption. rewrite A. eauto.
        -- destruct p; simpl.
           ++ rewrite assoc_app, A. eauto.
           ++ rewrite A. eauto.
Qed.

Lemma mkdirs_keeps_dirs p : forall r r', mkdirs r p = Some r' -> keeps_dirs r r'.
Proof.
  induction p as [|c p IH]; intros r r'; destruct r as [|es0]; simpl; try discriminate.
  - intros [= <-]. apply keeps_dirs_refl.
  - destruct (assoc c es0) as [m|] eqn:A.
    + destruct (mkdirs m p) as [m'|] eqn:M; [|discriminate]. intros [= <-].
      intros q es G. destruct q as [|d q]; [simpl; eauto|]. simpl in G. simpl.
      destruct (String.eqb c d) eqn:E.
      * apply String.eqb_eq in E. subst d. rewrite A in G.
        rewrite assoc_upsert_same. eapply IH; eauto.
      * apply String.eqb_neq in E. rewrite assoc_upsert_other by assumption.
        destruct (assoc d es0); eauto.
    + intros [= <-]. intros q es G. destruct q as [|d q]; [simpl; eauto|].
      simpl in G. simpl. rewrite assoc_app.
      destruct (assoc d es0); [eauto|discriminate].
Qed.

Lemma makedirs_at_keeps dst ok r res r' :
  makedirs_at dst ok r = (res, r') -> keeps_dirs r r'.
Proof.
  unfold makedirs_at. destruct (get r dst) as [[|es]|].
  - intros [= _ <-]. apply keeps_dirs_refl.
  - destruct ok; intros [= _ <-]; apply keeps_dirs_refl.
  - destruct (mkdirs r dst) as [r1|] eqn:M; intros [= _ <-].
    + eapply mkdirs_keeps_dirs; eauto.
    + apply keeps_dirs_refl.
Qed.

Lemma makedirs_at_dir dst ok r r' :
  makedirs_at dst ok r = (Ret tt, r') -> exists es, get r' dst = Some (Dir es).
Proof.
  unfold makedirs_at. destruct (get r dst) as [[|es]|] eqn:G.
  - discriminate.
  - destruct ok; [|discriminate]. intros [= <-]. eauto.
  - destruct (mkdirs r dst) as [r1|] eqn:M; [|discriminate]. intros [= <-].
    exists []. eapply mkdirs_fresh; eauto.
Qed.

Lemma copy2_keeps s t r res r' : copy2 s t r = (res, r') -> keeps_dirs r r'.
Proof.
  unfold copy2. destruct (list_eqb s t); [intros [= _ <-]; apply keeps_dirs_refl|].
  destruct (get r s) as [[[] data|]|]; try (intros [= _ <-]; apply keeps_dirs_refl).
  destruct (get r t) as [[|es]|] eqn:G;
    destruct (get r (removelast t)) as [[|es']|];
    intros [= _ <-]; try apply keeps_dirs_refl;
    apply put_keeps_dirs; intros es1; rewrite G; discriminate.
Qed.

Lemma copy_entries_keeps copy_dir s t :
  (forall a b x res x', copy_dir a b x = (res, x') -> keeps_dirs x x') ->
  forall entries r errors res r' errors',
    copy_entries copy_dir s t entries r errors = (res, r', errors') -> keeps_dirs r r'.
Proof.
  intros K. induction entries as [|[name isdir] rest IH]; intros r errors res r' errors'.
  - simpl. intros [= _ <- _]. apply keeps_dirs_refl.
  - simpl. destruct (if isdir then _ else _) as [o x] eqn:C.
    assert (K1 : keeps_dirs r x).
    { destruct isdir; [eapply K; eauto|eapply copy2_keeps; eauto]. }
    destruct o as [[]|e].
    + intros H. eapply keeps_dirs_trans; eauto.
    + destruct (collect e errors).
      * intros H. eapply keeps_dirs_trans; eauto.
      * intros [= _ <- _]. assumption.
Qed.

Lemma copytree_keeps depth : forall s t r res r',
  copytree_at depth s t r = (res, r') -> keeps_dirs r r'.
Proof.
  induction depth as [|d IH]; intros s t r res r'; simpl.
  - intros [= _ <-]. apply keeps_dirs_refl.
  - destruct (get r s) as [[|es]|]; try (intros [= _ <-]; apply keeps_dirs_refl).
    destruct (makedirs_at t true r) as [[[]|e] r1] eqn:M.
    + pose proof (makedirs_at_keeps _ _ _ _ _ M) as K1.
      destruct (copy_entries _ _ _ _ _ _) as [[o r2] errs] eqn:C.
      pose proof (copy_entries_keeps _ _ _ IH _ _ _ _ _ _ C) as K2.
      destruct o; [|destruct errs]; intros [= _ <-]; eapply keeps_dirs_trans; eauto.
    + intros [= _ <-]. eapply makedirs_at_keeps; eauto.
Qed.

(** A copy that returns has made a directory of its destination. *)
Lemma copytree_makes_dir depth s t r r' :
  copytree_at depth s t r = (Ret tt, r') -> exists es, get r' t = Some (Dir es).
Proof.
  destruct depth as [|d]; simpl; [discriminate|].
  destruct (get r s) as [[|es]|]; try discriminate.
  destruct (makedirs_at t true r) as [[[]|e] r1] eqn:M; [|discriminate].
  destruct (makedirs_at_dir _ _ _ _ M) as [es1 G1].
  destruct (copy_entries _ _ _ _ _ _) as [[o r2] errs] eqn:C.
  pose proof (copy_entries_keeps _ _ _ (copytree_keeps d) _ _ _ _ _ _ C) as K.
  destruct o; [discriminate|]. destruct errs; [|discriminate]. intros [= <-]. eauto.
Qed.

Lemma copy_run_dir src dest w w' :
  copy_run src dest w = (Ret tt, w') -> path_isdir dest w' = true.
Proof.
  unfold copy_run.
  destruct (if path_exists dest w then (Ret tt, w) else makedirs dest w)
    as [[[]|e] w1]; [|discriminate].
  intros C. apply copytree_ret in C as [C R].
  apply copytree_makes_dir in C as [es G]. unfold path_isdir, lookup. now rewrite R, G.
Qed.

(** While an archive is written, its file stays an open archive. *)
Lemma write_files_keeps zp src top files : forall w res w' rd ms,
  resolve zp = Some (path_of zp) ->
  get (root w) (path_of zp) = Some (File rd (Zip false ms)) ->
  write_files zp src top files w = (res, w') ->
  exists ms', get (root w') (path_of zp) = Some (File rd (Zip false ms')).
Proof.
  induction files as [|file rest IH]; intros w res w' rd ms R G; simpl.
  - intros [= _ <-]. eauto.
  - destruct (zip_write zp (join top file) (relpath (join top file) src) w)
      as [[[]|e] w1] eqn:Z.
    + intros H. unfold zip_write in Z.
      destruct (member_of _ _ w) as [member|]; [|discriminate].
      rewrite R, G in Z. inversion Z; subst. clear Z.
      eapply IH in H; eauto. cbn [root with_root]. eapply get_put_same; eauto.
    + intros [= _ <-]. unfold zip_write in Z.
      destruct (member_of _ _ w) as [member|].
      * rewrite R, G in Z. discriminate.
      * inversion Z; subst. eauto.
Qed.

Lemma write_triples_keeps zp src triples : forall w res w' rd ms,
  resolve zp = Some (path_of zp) ->
  get (root w) (path_of zp) = Some (File rd (Zip false ms)) ->
  write_triples zp src triples w = (res, w') ->
  exists ms', get (root w') (path_of zp) = Some (File rd (Zip false ms')).
Proof.
  induction triples as [|[[top dirs] files] rest IH]; intros w res w' rd ms R G; simpl.
  - intros [= _ <-]. eauto.
  - destruct (write_files zp src top files w) as [[[]|e] w1] eqn:F;
      destruct (write_files_keeps _ _ _ _ _ _ _ _ _ R G F) as [ms1 G1].
    + intros H. eapply IH; eauto.
    + intros [= _ <-]. eauto.
Qed.

Lemma zip_run_file src dest w w' :
  zip_run src dest w = (Ret tt, w') -> path_isfile dest w' = true.
Proof.
  unfold zip_run.
  destruct (if negb (String.eqb (dirname dest) "") && negb (path_exists (dirname dest) w)
            then makedirs (dirname dest) w else (Ret tt, w)) as [[[]|e] w1];
    [|discriminate].
  destruct (zip_open dest w1) as [[[]|e] w2] eqn:O; [|discriminate].
  destruct (zip_open_ret _ _ _ O) as (R & _ & G2).
  destruct (write_triples dest src (walk src w2) w2) as [[[]|e] w3] eqn:T.
  - destruct (write_triples_keeps _ _ _ _ _ _ _ _ R G2 T) as [ms G3].
    rewrite (zip_close_ret _ _ _ _ R G3). intros [= <-].
    unfold path_isfile, lookup. rewrite R. cbn [root with_root].
    erewrite get_put_same; eauto.
  - destruct (zip_close dest w3) as [[[]|e'] w4]; discriminate.
Qed.


(** *** What lies beside the destination is left alone *)

Lemma makedirs_at_other dst ok r res r' q :
  incomparable dst q -> makedirs_at dst ok r = (res, r') -> get r' q = get r q.
Proof.
  intros I. unfold makedirs_at. destruct (get r dst) as [[|es]|].
  - now intros [= _ <-].
  - destruct ok; now intros [= _ <-].
  - destruct (mkdirs r dst) as [r1|] eqn:M; intros [= _ <-]; [|reflexivity].
    eapply mkdirs_other; eauto.
Qed.

Lemma copy2_other s t r res r' q :
  incomparable t q -> copy2 s t r = (res, r') -> get r' q = get r q.
Proof.
  intros I. unfold copy2. destruct (list_eqb s t); [now intros [= _ <-]|].
  destruct (get r s) as [[[] data|]|]; try (now intros [= _ <-]).
  destruct (get r t) as [[|es]|];
    destruct (get r (removelast t)) as [[|es']|];
    intros [= _ <-]; try reflexivity; now apply get_put_other.
Qed.

Lemma copy_entries_other copy_dir s t q :
  incomparable t q ->
  (forall a name x res x',
     copy_dir a (t ++ [name]) x = (res, x') -> get x' q = get x q) ->
  forall entries r errors res r' errors',
    copy_entries copy_dir s t entries r errors = (res, r', errors') ->
    get r' q = get r q.
Proof.
  intros I K. induction entries as [|[name isdir] rest IH]; intros r errors res r' errors'.
  - simpl. now intros [= _ <- _].
  - simpl. destruct (if isdir then _ else _) as [o x] eqn:C.
    assert (K1 : get x q = get r q).
    { destruct isdir; [eapply K; eauto|].
      eapply copy2_other; [|eauto]. now apply incomparable_app_l. }
    destruct o as [[]|e].
    + intros H. rewrite <- K1. eapply IH; eauto.
    + destruct (collect e errors).
      * intros H. rewrite <- K1. eapply IH; eauto.
      * now intros [= _ <- _].
Qed.

Lemma copytree_other depth : forall s t r res r' q,
  incomparable t q -> copytree_at depth s t r = (res, r') -> get r' q = get r q.
Proof.
  induction depth as [|d IH]; intros s t r res r' q I; simpl.
  - now intros [= _ <-].
  - destruct (get r s) as [[|es]|]; try (now intros [= _ <-]).
    destruct (makedirs_at t true r) as [[[]|e] r1] eqn:M.
    + pose proof (makedirs_at_other _ _ _ _ _ _ I M) as K1.
      destruct (copy_entries _ _ _ _ _ _) as [[o r2] errs] eqn:C.
      assert (K2 : get r2 q = get r1 q).
      { eapply copy_entries_other; [exact I| |exact C].
        intros a name x res0 x' H. eapply IH; [|exact H].
        now apply incomparable_app_l. }
      destruct o; [|destruct errs]; intros [= _ <-]; congruence.
    + intros [= _ <-]. eapply makedirs_at_other; eauto.
Qed.

Lemma makedirs_other dest w res w' q :
  incomparable (path_of dest) q -> makedirs dest w = (res, w') ->
  get (root w') q = get (root w) q.
Proof.
  intros I. unfold makedirs. destruct (resolve dest) as [cp|] eqn:R; [|now intros [= _ <-]].
  pose proof (resolve_some _ _ R) as ->.
  destruct (makedirs_at _ false (root w)) as [o r] eqn:M. intros [= _ <-].
  cbn [root with_root]. eapply makedirs_at_other; eauto.
Qed.

Lemma clear_destination_beside dest w res w' q :
  incomparable (path_of dest) q -> clear_destination dest w = (res, w') ->
  get (root w') q = get (root w) q.
Proof.
  intros I. unfold clear_destination, rmtree, remove.
  destruct (path_exists dest w); [|now intros [= _ <-]].
  destruct (resolve dest) as [cp|] eqn:R.
  - pose proof (resolve_some _ _ R) as ->.
    destruct (path_isdir dest w).
    + destruct (path_of dest) eqn:P; [now intros [= _ <-]|]. rewrite <- P in *.
      destruct (get (root w) (path_of dest)) as [[|es]|]; intros [= _ <-];
        try reflexivity. cbn [root with_root]. now apply get_del_other.
    + destruct (path_isfile dest w); [|now intros [= _ <-]].
      destruct (get (root w) (path_of dest)) as [[|es]|]; intros [= _ <-];
        try reflexivity. cbn [root with_root]. now apply get_del_other.
  - destruct (path_isdir dest w); [now intros [= _ <-]|].
    destruct (path_isfile dest w); now intros [= _ <-].
Qed.

Lemma copy_run_other src dest w res w' q :
  incomparable (path_of dest) q -> copy_run src dest w = (res, w') ->
  get (root w') q = get (root w) q.
Proof.
  intros I. unfold copy_run.
  destruct (if path_exists dest w then (Ret tt, w) else makedirs dest w)
    as [o w1] eqn:M.
  assert (K1 : get (root w1) q = get (root w) q).
  { destruct (path_exists dest w); [now inversion M|].
    eapply makedirs_other; eauto. }
  destruct o as [[]|e]; [|now intros [= _ <-]].
  unfold copytree. destruct (resolve src) as [sp|]; [|now intros [= _ <-]].
  destruct (resolve dest) as [dp|] eqn:R; [|now intros [= _ <-]].
  pose proof (resolve_some _ _ R) as ->.
  destruct (copytree_at _ _ _ _) as [o r] eqn:C. intros [= _ <-].
  cbn [root with_root]. rewrite <- K1. eapply copytree_other; eauto.
Qed.

Lemma zip_write_other zp fp arc w res w' q :
  incomparable (path_of zp) q -> zip_write zp fp arc w = (res, w') ->
  get (root w') q = get (root w) q.
Proof.
  intros I. unfold zip_write. destruct (member_of fp arc w); [|now intros [= _ <-]].
  destruct (resolve zp) as [cp|] eqn:R; [|now intros [= _ <-]].
  pose proof (resolve_some _ _ R) as ->.
  destruct (get (root w) (path_of zp)) as [[rd [|[] ms]|]|]; intros [= _ <-];
    try reflexivity. cbn [root with_root]. now apply get_put_other.
Qed.

Lemma write_files_other zp src top files q :
  incomparable (path_of zp) q ->
  forall w res w', write_files zp src top files w = (res, w') ->
                   get (root w') q = get (root w) q.
Proof.
  intros I. induction files as [|file rest IH]; intros w res w'; simpl.
  - now intros [= _ <-].
  - destruct (zip_write _ _ _ w) as [[[]|e] w1] eqn:Z;
      pose proof (zip_write_other _ _ _ _ _ _ _ I Z) as K.
    + intros H. rewrite <- K. eauto.
    + now intros [= _ <-].
Qed.

Lemma write_triples_other zp src triples q :
  incomparable (path_of zp) q ->
  forall w res w', write_triples zp src triples w = (res, w') ->
                   get (root w') q = get (root w) q.
Proof.
  intros I. induction triples as [|[[top dirs] files] rest IH]; intros w res w'; simpl.
  - now intros [= _ <-].
  - destruct (write_files zp src top files w) as [[[]|e] w1] eqn:F;
      pose proof (write_files_other _ _ _ _ _ I _ _ _ F) as K.
    + intros H. rewrite <- K. eauto.
    + now intros [= _ <-].
Qed.

Lemma zip_open_other dest w res w' q :
  incomparable (path_of dest) q -> zip_open dest w = (res, w') ->
  get (root w') q = get (root w) q.
Proof.
  intros I. unfold zip_open. destruct (resolve dest) as [cp|] eqn:R; [|now intros [= _ <-]].
  pose proof (resolve_some _ _ R) as ->.
  destruct (get (root w) (path_of dest)) as [[|es]|];
    destruct (get (root w) (removelast (path_of dest))) as [[|es']|];
    intros [= _ <-]; try reflexivity; cbn [root with_root]; now apply get_put_other.
Qed.

Lemma zip_close_other dest w res w' q :
  incomparable (path_of dest) q -> zip_close dest w = (res, w') ->
  get (root w') q = get (root w) q.
Proof.
  intros I. unfold zip_close. destruct (resolve dest) as [cp|] eqn:R; [|now intros [= _ <-]].
  pose proof (resolve_some _ _ R) as ->.
  destruct (get (root w) (path_of dest)) as [[rd [|[] ms]|]|]; intros [= _ <-];
    try reflexivity. cbn [root with_root]. now apply get_put_other.
Qed.

(** Making the directory the archive goes into changes nothing beside
    the archive. *)
Lemma output_dir_other dest n w res w' q :
  path_of dest = path_of (dirname dest) ++ [n] ->
  incomparable (path_of dest) q ->
  (if negb (String.eqb (dirname dest) "") && negb (path_exists (dirname dest) w)
   then makedirs (dirname dest) w else (Ret tt, w)) = (res, w') ->
  get (root w') q = get (root w) q.
Proof.
  intros Pd I.
  destruct (String.eqb (dirname dest) "") eqn:E; simpl; [now intros [= _ <-]|].
  destruct (path_exists (dirname dest) w) eqn:X; simpl; [now intros [= _ <-]|].
  assert (L : get (root w) (path_of (dirname dest)) = None).
  { unfold path_exists, lookup, resolve in X. rewrite E in X.
    now destruct (get (root w) (path_of (dirname dest))). }
  unfold makedirs, resolve. rewrite E. unfold makedirs_at. rewrite L.
  destruct (mkdirs (root w) (path_of (dirname dest))) as [r1|] eqn:M;
    intros [= _ <-]; [|reflexivity]. cbn [root with_root].
  destruct (is_prefix (path_of (dirname dest)) q) eqn:P.
  - apply is_prefix_split in P as [x ->].
    assert (Nx : x <> []).
    { intros ->. rewrite app_nil_r in I. destruct I as [_ I].
      now rewrite Pd, is_prefix_app in I. }
    rewrite (get_below_empty _ _ _ (mkdirs_fresh _ _ _ L M) Nx).
    now rewrite get_app, L.
  - eapply mkdirs_other; [|exact M]. split; [assumption|].
    destruct I as [_ I]. rewrite Pd in I. now apply is_prefix_app_false in I.
Qed.

Lemma zip_run_other src dest n w res w' q :
  path_of dest = path_of (dirname dest) ++ [n] ->
  incomparable (path_of dest) q -> zip_run src dest w = (res, w') ->
  get (root w') q = get (root w) q.
Proof.
  intros Pd I. unfold zip_run.
  destruct (if negb (String.eqb (dirname dest) "") && negb (path_exists (dirname dest) w)
            then makedirs (dirname dest) w else (Ret tt, w)) as [o w1] eqn:M.
  pose proof (output_dir_other _ _ _ _ _ _ Pd I M) as K1.
  destruct o as [[]|e]; [|now intros [= _ <-]].
  destruct (zip_open dest w1) as [o w2] eqn:O.
  pose proof (zip_open_other _ _ _ _ _ I O) as K2.
  destruct o as [[]|e]; [|intros [= _ <-]; congruence].
  destruct (write_triples dest src (walk src w2) w2) as [o w3] eqn:T.
  pose proof (write_triples_other _ _ _ _ I _ _ _ T) as K3.
  destruct (zip_close dest w3) as [o' w4] eqn:C.
  pose proof (zip_close_other _ _ _ _ _ I C) as K4.
  destruct o as [[]|e]; [|destruct o' as [[]|e']]; intros [= _ <-]; congruence.
Qed.

End KeepFacts.

(* ================================================================= *)
(** ** The backup on the tree machine *)

Module BackupFacts.
Import PosixPath Clock Py Backup Posix TreeFacts CopyFacts PyFacts RunFacts CopyRun PathFacts ZipFacts KeepFacts.

(** *** Counting *)

Lemma fold_count triples : forall acc,
  fold_left (fun count '(_, _, files) => count + length files) triples acc
  = acc + list_sum (map (fun t : string * list string * list string => length (snd t)) triples).
Proof.
  induction triples as [|[[top dirs] files] rest IH]; intros acc; simpl; [lia|].
  rewrite IH. lia.
Qed.

Lemma walk_count_entries es : forall top,
  Forall (fun e => forall top,
            list_sum (map (fun t : string * list string * list string => length (snd t))
                          (walk_node top (snd e)))
            = if is_dir (snd e) then count_files (snd e) else 0) es ->
  length (filenames es)
  + list_sum (map (fun t : string * list string * list string => length (snd t))
                  (flat_map (fun e => walk_node (join top (fst e)) (snd e)) es))
  = list_sum (map (fun e => count_files (snd e)) es).
Proof.
  intros top. induction 1 as [|[name m] es Hm Hes IH]; [reflexivity|].
  unfold filenames in *. simpl in Hm. cbn [flat_map fst snd map list_sum filter].
  rewrite map_app, list_sum_app, (Hm (join top name)).
  destruct m as [readable data|sub]; cbn [is_dir negb map length fst] in *;
    match goal with
    | |- context [list_sum (?a :: ?l)] => change (list_sum (a :: l)) with (a + list_sum l)
    end;
    [change (count_files (File readable data)) with 1|]; lia.
Qed.

Lemma walk_count n : forall top,
  list_sum (map (fun t : string * list string * list string => length (snd t))
                (walk_node top n))
  = if is_dir n then count_files n else 0.
Proof.
  induction n as [readable data|es IHes] using node_induction; intros top;
    [reflexivity|].
  cbn [walk_node map list_sum snd is_dir count_files].
  now apply walk_count_entries.
Qed.

(** [_count_files_in_folder] counts the regular files of the tree. *)
Lemma counted_files_in folder w : counted folder w = files_in (lookup folder w).
Proof.
  unfold counted, walk, files_in. rewrite fold_count. simpl.
  destruct (lookup folder w) as [n|]; [|reflexivity].
  rewrite walk_count. now destruct n.
Qed.


(** *** The destination *)

Lemma destination_text src base compress t :
  destination src base compress t
  = if compress
    then (join base (basename src ++ "_" ++ strftime t ++ "_v1.0.0") ++ ".zip")%string
    else join base (basename src ++ "_" ++ strftime t ++ "_v1.0.0")%string.
Proof. unfold destination, destination_path, backup_name. now destruct compress. Qed.

Lemma destination_parent src base compress t :
  exists n,
    path_of (destination src base compress t)
    = path_of (dirname (destination src base compress t)) ++ [n].
Proof.
  destruct (destination_shape src base compress t) as (n & P & E & _).
  exists n. destruct (proper_name_parts _ P) as (_ & _ & _ & S).
  pose proof (basename_join base n S) as B. rewrite <- E in B.
  rewrite <- B. apply path_of_dirname. now rewrite B.
Qed.

Lemma resolve_nonempty p cp : resolve p = Some cp -> String.eqb p "" = false.
Proof. unfold resolve. now destruct (String.eqb p ""). Qed.

(** An archive run that returns leaves the closed archive of the source
    tree and the source as it was, when neither place contains the other. *)
Lemma write_run_zip_exact src base t w w' es :
  well_formed (root w) = true ->
  incomparable (path_of src) (path_of (destination src base true t)) ->
  lookup src w = Some (Dir es) ->
  write_run src (destination src base true t) true w = (Ret tt, w') ->
  lookup (destination src base true t) w'
  = Some (File true (Zip true (members_of [] (Dir es))))
  /\ lookup src w' = Some (Dir es).
Proof.
  intros W I L R. set (dest := destination src base true t) in *.
  destruct (lookup_resolve _ _ _ L) as [Rs G].
  destruct (get_dir_root _ _ _ G) as [es0 Hr].
  destruct (destination_parent src base true t) as [n Pd]. fold dest in Pd.
  unfold write_run in R.
  destruct (clear_destination dest w) as [[[]|e] w1] eqn:C; [|discriminate].
  assert (G1 : get (root w1) (path_of src) = Some (Dir es)).
  { rewrite (clear_destination_other _ _ _ _ _ Hr C); [assumption|].
    now apply incomparable_sym. }
  eapply zip_run_exact; eauto.
  - eapply resolve_nonempty; eauto.
  - eapply well_formed_get; eauto.
Qed.

Lemma clear_destination_present dest w old :
  lookup dest w = Some old -> path_of dest <> [] ->
  clear_destination dest w = (Ret tt, with_root w (del (root w) (path_of dest))).
Proof.
  intros L N. destruct (lookup_resolve _ _ _ L) as [R G].
  unfold clear_destination, path_exists, path_isdir, path_isfile, rmtree, remove.
  rewrite L, R, G. destruct old as [rd data|es]; [reflexivity|].
  destruct (path_of dest); [congruence|]. now rewrite G.
Qed.

(** Whatever a run does, it does at the destination or below it. *)
Lemma write_run_other src base compress t w res w' q :
  incomparable (path_of (destination src base compress t)) q ->
  write_run src (destination src base compress t) compress w = (res, w') ->
  get (root w') q = get (root w) q.
Proof.
  intros I. destruct (destination_parent src base compress t) as [n Pd].
  set (dest := destination src base compress t) in *. unfold write_run.
  destruct (clear_destination dest w) as [o w1] eqn:C.
  pose proof (clear_destination_beside _ _ _ _ _ I C) as K.
  destruct o as [[]|e]; [|now intros [= _ <-]].
  destruct compress; intros H; rewrite <- K.
  - eapply zip_run_other; eauto.
  - eapply copy_run_other; eauto.
Qed.

(** *** The claims on the tree machine *)






End BackupFacts.

(* ================================================================= *)
(** ** Runs on the example machines *)

Module Runs.
Import PosixPath Clock Py Backup Posix TreeFacts CopyFacts PyFacts RunFacts CopyRun PathFacts ZipFacts KeepFacts BackupFacts Examples.







(** A source that does not exist. *)
Lemma missing_source_no_effect_witness :
  exists r, is_error r = true
    /\ perform_backup posix "/nope" "/backups" true (mkState w0 [])
       = (Ret false, mkState w0 ([] ++ [r])).
Proof.
  apply (missing_source_no_effect posix "/nope" "/backups" true (mkState w0 [])).
  left. vm_compute. reflexivity.
Defined.


(** C10: the call is not atomic.  The source holds a file that cannot be
    read and the destination an earlier backup: the copy, and likewise the
    archive, fails after the clean-up, the call returns [False] with an
    error in the log, the earlier backup is gone, and what stands in its
    place lacks a file of the source. *)
Theorem failed_backup_loses_old_artifact :
  (exists s',
     lookup (destination "/docs" "/backups" false (clock w2)) w2 = Some old_backup
     /\ perform_backup posix "/docs" "/backups" false (mkState w2 []) = (Ret false, s')
     /\ existsb is_error (log s') = true
     /\ lookup (destination "/docs" "/backups" false (clock w2)) (world s')
        = Some (Dir [("a.txt", text [Byte.x61])])
     /\ lookup (destination "/docs" "/backups" false (clock w2)) (world s')
        <> Some old_backup
     /\ lookup (destination "/docs" "/backups" false (clock w2)) (world s')
        <> lookup "/docs" w2)
  /\ (exists s',
        lookup (destination "/docs" "/backups" true (clock w3)) w3 = Some old_archive
        /\ perform_backup posix "/docs" "/backups" true (mkState w3 []) = (Ret false, s')
        /\ existsb is_error (log s') = true
        /\ lookup (destination "/docs" "/backups" true (clock w3)) (world s')
           = Some (File true (Zip true [("a.txt", Bytes [Byte.x61])]))
        /\ lookup (destination "/docs" "/backups" true (clock w3)) (world s')
           <> Some old_archive).
Proof.
  split; eexists.
  - split; [vm_compute; reflexivity|]. split; [vm_compute; reflexivity|].
    split; [vm_compute; reflexivity|]. split; [vm_compute; reflexivity|].
    split; vm_compute; discriminate.
  - split; [vm_compute; reflexivity|]. split; [vm_compute; reflexivity|].
    split; [vm_compute; reflexivity|]. split; [vm_compute; reflexivity|].
    vm_compute; discriminate.
Qed.

End Runs.

(* ================================================================= *)
(** ** The preferences *)

Module ConfigFacts.
Import Py Config.

Lemma dict_get_set_same k v d : dict_get k (dict_set k v d) = Some v.
Proof.
  induction d as [|[k' x] d IH]; simpl.
  - now rewrite String.eqb_refl.
  - destruct (String.eqb k' k) eqn:E; simpl; now rewrite E.
Qed.

Lemma dict_get_set_other k k' v d :
  k <> k' -> dict_get k' (dict_set k v d) = dict_get k' d.
Proof.
  intros N. induction d as [|[k0 x] d IH]; simpl.
  - apply String.eqb_neq in N. now rewrite N.
  - destruct (String.eqb k0 k) eqn:E; simpl.
    + apply String.eqb_eq in E. subst k0. apply String.eqb_neq in N. now rewrite N.
    + now rewrite IH.
Qed.

Lemma in_keys_set k k' v d :
  In k' (map fst (dict_set k v d)) <-> k' = k \/ In k' (map fst d).
Proof.
  induction d as [|[k0 x] d IH]; simpl.
  - intuition.
  - destruct (String.eqb k0 k) eqn:E; simpl.
    + apply String.eqb_eq in E. subst k0. intuition.
    + rewrite IH. intuition.
Qed.

Lemma NoDup_keys_set k v d :
  NoDup (map fst d) -> NoDup (map fst (dict_set k v d)).
Proof.
  induction d as [|[k0 x] d IH]; simpl; intros N.
  - constructor; [tauto|constructor].
  - inversion N; subst. destruct (String.eqb k0 k) eqn:E; simpl.
    + now constructor.
    + constructor; [|auto]. rewrite in_keys_set. intros [->|I]; [|tauto].
      now rewrite String.eqb_refl in E.
Qed.

Lemma has_exactly_keys_set k v d ks :
  In k ks -> has_exactly_keys (JDict d) ks ->
  has_exactly_keys (JDict (dict_set k v d)) ks.
Proof.
  intros I (items & E & N & K). inversion E; subst items.
  exists (dict_set k v d). split; [reflexivity|]. split; [now apply NoDup_keys_set|].
  intros k'. rewrite in_keys_set, K. split; [intros [->|]|]; auto.
Qed.

Lemma default_config_keys : has_exactly_keys default_config the_four_keys.
Proof.
  eexists. split; [reflexivity|]. split.
  - simpl. repeat constructor; simpl; intuition discriminate.
  - simpl. unfold the_four_keys. intuition.
Qed.

(** A file that is text but not JSON is replaced by the defaults. *)
Lemma load_config_malformed ro cfg sv dv cv dl lg :
  exists dl',
    _load_config (mkState (mkApp (Some Malformed) ro cfg sv dv cv dl) lg)
    = (Ret default_config,
       mkState (mkApp (if ro then Some Malformed else Some (Document default_config))
                      ro cfg sv dv cv dl') lg).
Proof. destruct ro; eexists; reflexivity. Qed.

(** C8 at its failing input: when config.json holds bytes that are not
    text, [json.load] raises UnicodeDecodeError, which is no
    JSONDecodeError: the call raises it on, no defaults are returned and
    the file stays as it is. *)
Theorem load_config_undecodable_raises ro cfg sv dv cv dl lg :
  _load_config (mkState (mkApp (Some Undecodable) ro cfg sv dv cv dl) lg)
  = (Raise (mkExn UnicodeDecodeError ["invalid start byte"]),
     mkState (mkApp (Some Undecodable) ro cfg sv dv cv dl) lg).
Proof. reflexivity. Qed.

(** C9 as stated fails: a configuration loaded from a file that holds the
    object {"foo": 1} is persisted by a save from the GUI with the keys
    foo, source_folder, destination_folder, compress_backup. *)
Lemma foreign_keys_are_persisted :
  let a := mkApp (Some (Document (JDict [("foo", JInt 1)]))) false JNull
                 "/src" "/dst" true [] in
  fst (_load_config (mkState a [])) = Ret (JDict [("foo", JInt 1)])
  /\ exists saved,
       config_json
         (world (snd (_save_preferences_from_gui
                        (mkState (mkApp (config_json a) false (JDict [("foo", JInt 1)])
                                        "/src" "/dst" true []) []))))
       = Some (Document saved)
       /\ keys saved
          = Some ["foo"; "source_folder"; "destination_folder"; "compress_backup"]
       /\ ~ has_exactly_keys saved the_four_keys.
Proof.
  cbv zeta. split; [reflexivity|]. eexists. split; [reflexivity|]. split; [reflexivity|].
  intros (items & E & _ & K). inversion E; subst items. clear E.
  assert (I : In "foo" the_four_keys) by (apply K; simpl; auto).
  simpl in I. intuition discriminate.
Qed.

(** C9, amended: a save from the GUI, when the loaded configuration is a
    JSON object and the file can be written, persists the object in which
    source_folder, destination_folder and compress_backup hold the state
    of the GUI and every other key is as loaded; an object with exactly
    the four keys, as the default record is, is persisted with exactly the
    four keys. *)
Theorem save_preferences_keeps_other_keys a lg items :
  config a = JDict items ->
  read_only a = false ->
  exists saved,
    _save_preferences_from_gui (mkState a lg)
    = (Ret tt,
       mkState (mkApp (Some (Document (JDict saved))) false (JDict saved)
                      (source_path_var a) (destination_path_var a) (compress_var a)
                      (dialogs a)) lg)
    /\ dict_get "source_folder" saved = Some (JStr (source_path_var a))
    /\ dict_get "destination_folder" saved = Some (JStr (destination_path_var a))
    /\ dict_get "compress_backup" saved = Some (JBool (compress_var a))
    /\ (forall k, k <> "source_folder" -> k <> "destination_folder" ->
                  k <> "compress_backup" -> dict_get k saved = dict_get k items)
    /\ (has_exactly_keys (JDict items) the_four_keys ->
        has_exactly_keys (JDict saved) the_four_keys)
    /\ has_exactly_keys default_config the_four_keys.
Proof.
  intros C R. destruct a as [cj ro cfg sv dv cv dl]. simpl in *. subst cfg ro.
  exists (dict_set "compress_backup" (JBool cv)
            (dict_set "destination_folder" (JStr dv)
               (dict_set "source_folder" (JStr sv) items))).
  split; [reflexivity|].
  split; [rewrite !dict_get_set_other by discriminate; apply dict_get_set_same|].
  split; [rewrite !dict_get_set_other by discriminate; apply dict_get_set_same|].
  split; [apply dict_get_set_same|].
  split; [intros k N1 N2 N3; rewrite !dict_get_set_other by congruence; reflexivity|].
  split; [|apply default_config_keys].
  intros H. repeat apply has_exactly_keys_set; simpl; auto.
Qed.

(** A save on top of the default record. *)
Lemma save_preferences_keeps_other_keys_witness :
  exists saved,
    _save_preferences_from_gui
      (mkState (mkApp None false default_config "/src" "/dst" true []) [])
    = (Ret tt,
       mkState (mkApp (Some (Document (JDict saved))) false (JDict saved)
                      "/src" "/dst" true []) [])
    /\ dict_get "backup_interval_days" saved = Some (JInt 7)
    /\ has_exactly_keys (JDict saved) the_four_keys.
Proof.
  destruct (save_preferences_keeps_other_keys
              (mkApp None false default_config "/src" "/dst" true []) []
              [("source_folder", JStr ""); ("destination_folder", JStr "");
               ("compress_backup", JBool false); ("backup_interval_days", JInt 7)]
              eq_refl eq_refl)
    as (saved & E & _ & _ & _ & O & K & D).
  exists saved. split; [exact E|]. split.
  - rewrite O by discriminate. reflexivity.
  - exact (K D).
Defined.

End ConfigFacts.

(* ================================================================= *)
(** ** Copies and archives, whatever the files allow *)

Module TotalFacts.
Import PosixPath Clock Py Backup Posix Trees TreeFacts CopyFacts PyFacts RunFacts CopyRun PathFacts ZipFacts KeepFacts BackupFacts.

(** *** Unlinking *)

Lemma discard_absent c es : assoc c es = None -> discard c es = es.
Proof.
  unfold discard. induction es as [|[k m] es IH]; simpl; [reflexivity|].
  destruct (String.eqb k c); [discriminate|]. intros H. simpl. now rewrite IH.
Qed.

Lemma discard_app c es es' : discard c (es ++ es') = discard c es ++ discard c es'.
Proof. unfold discard. apply filter_app. Qed.

Lemma del_absent p : forall r, get r p = None -> del r p = r.
Proof.
  induction p as [|c p IH]; intros r; simpl; [discriminate|].
  destruct r as [|es]; [reflexivity|].
  destruct (assoc c es) as [m|] eqn:E.
  - intros G. destruct p as [|d p]; [discriminate|].
    rewrite (IH _ G). now rewrite (upsert_present _ _ _ E).
  - intros _. destruct p; [now rewrite discard_absent|reflexivity].
Qed.

(** What was put where nothing was goes away again when it is unlinked. *)
Lemma del_put_fresh p : forall r v, get r p = None -> del (put r p v) p = r.
Proof.
  induction p as [|c p IH]; intros r v; simpl; [discriminate|].
  destruct r as [|es]; [reflexivity|].
  destruct (assoc c es) as [m|] eqn:E.
  - intros G. destruct p as [|d p]; [discriminate|].
    rewrite assoc_upsert_same, (IH _ _ G), upsert_upsert.
    now rewrite (upsert_present _ _ _ E).
  - intros _. destruct p as [|d p].
    + rewrite discard_app, (discard_absent _ _ E). unfold discard. simpl.
      rewrite String.eqb_refl. simpl. now rewrite app_nil_r.
    + now rewrite E.
Qed.

Lemma get_del_parent p : forall r c es,
  get r p = Some (Dir es) -> get (del r (p ++ [c])) p = Some (Dir (discard c es)).
Proof.
  induction p as [|d p IH]; intros r c es; simpl.
  - now intros [= ->].
  - destruct r as [|es0]; [discriminate|].
    destruct (assoc d es0) as [m|] eqn:E; [|discriminate].
    intros G. destruct (p ++ [c]) eqn:Q; [now destruct p|]. rewrite <- Q.
    simpl. rewrite assoc_upsert_same. now apply IH.
Qed.

Lemma with_root_id w : with_root w (root w) = w.
Proof. now destruct w. Qed.

(** The clean-up unlinks whatever is at the destination. *)
Lemma clear_destination_exact dest w :
  resolve dest = Some (path_of dest) -> path_of dest <> [] ->
  clear_destination dest w = (Ret tt, with_root w (del (root w) (path_of dest))).
Proof.
  intros R N. destruct (lookup dest w) as [old|] eqn:L.
  - eapply clear_destination_present; eauto.
  - unfold clear_destination, path_exists. rewrite L.
    unfold lookup in L. rewrite R in L. now rewrite (del_absent _ _ L), with_root_id.
Qed.

(** *** Pruned trees *)

Lemma prune_dir es : prune (Dir es) = Dir (flat_map kept es).
Proof. reflexivity. Qed.

Lemma assoc_kept c es : assoc c es = None -> assoc c (flat_map kept es) = None.
Proof.
  induction es as [|[k m] es IH]; simpl; [reflexivity|].
  destruct (String.eqb k c) eqn:E; [discriminate|]. intros H.
  rewrite assoc_app, (IH H). unfold kept. simpl.
  destruct m as [[] data|sub]; simpl; now rewrite ?E.
Qed.

Lemma prune_readable n : all_readable n = true -> prune n = n.
Proof.
  induction n as [readable data|es IH] using node_induction; [reflexivity|].
  simpl. intros H. f_equal. rewrite forallb_forall in H.
  induction es as [|[k m] es IHes]; [reflexivity|].
  inversion IH; subst. simpl.
  assert (Hm : all_readable m = true) by (apply (H (k, m)); now left).
  rewrite IHes; [|assumption|intros e I; apply H; now right].
  destruct m as [[] data|sub]; simpl in *; try discriminate; [reflexivity|].
  f_equal. f_equal. now apply H2.
Qed.

Lemma height_entry es e d :
  In e es -> height (Dir es) <= S d -> height (snd e) <= d.
Proof.
  simpl. intros I H. apply le_S_n in H.
  apply list_max_le in H. rewrite Forall_forall in H.
  apply H. now apply (in_map (fun e => height (snd e))).
Qed.

(** *** copytree, whatever the files allow *)

Section TotalEntries.

Variable copy_dir : list string -> list string -> node -> outcome unit * node.
Variables (src dst : list string) (r : node) (es : list (string * node)).

Hypothesis apart : incomparable src dst.
Hypothesis source : get r src = Some (Dir es).
Hypothesis names : NoDup (map fst es).
Hypothesis target : exists n, get r dst = Some n.

Hypothesis copy_dir_total : forall name sub x,
  In (name, Dir sub) es ->
  get x (src ++ [name]) = Some (Dir sub) ->
  vacant x (dst ++ [name]) ->
  exists res,
    copy_dir (src ++ [name]) (dst ++ [name]) x
    = (res, put x (dst ++ [name]) (prune (Dir sub)))
    /\ verdict res (Dir sub).

Lemma copy_entries_total suf : forall pre errors,
  es = pre ++ suf ->
  exists new,
    copy_entries copy_dir src dst (map (fun e => (fst e, is_dir (snd e))) suf)
                 (put r dst (Dir (flat_map kept pre))) errors
    = (None, put r dst (Dir (flat_map kept (pre ++ suf))), errors ++ new)
    /\ (new = [] <-> forallb (fun e => all_readable (snd e)) suf = true).
Proof.
  destruct target as [n0 T].
  induction suf as [|[name m] suf IH]; intros pre errors E; simpl.
  - exists []. rewrite !app_nil_r. split; [reflexivity|tauto].
  - set (P := flat_map kept pre).
    assert (Hd : get (put r dst (Dir P)) dst = Some (Dir P))
      by (eapply get_put_same; eauto).
    assert (Hs : get (put r dst (Dir P)) (src ++ [name]) = Some m).
    { rewrite get_put_other by (apply incomparable_app_r, incomparable_sym, apart).
      rewrite get_app, source. simpl.
      rewrite E in names. destruct (assoc_middle _ _ _ _ names) as [_ A].
      now rewrite E, A. }
    assert (Hp : assoc name P = None).
    { apply assoc_kept. rewrite E in names. now destruct (assoc_middle _ _ _ _ names). }
    assert (Hn : forall v, put (put r dst (Dir P)) (dst ++ [name]) v
                           = put r dst (Dir (P ++ [(name, v)]))).
    { intros v. rewrite (put_child _ _ _ _ _ Hd), put_put_same. now rewrite upsert_absent. }
    assert (E' : es = (pre ++ [(name, m)]) ++ suf) by (now rewrite <- app_assoc).
    assert (K : flat_map kept (pre ++ [(name, m)]) = P ++ kept (name, m)).
    { rewrite flat_map_app. simpl. now rewrite app_nil_r. }
    destruct m as [readable data|sub]; simpl.
    + (* a regular file *)
      unfold copy2. rewrite list_eqb_false
        by (apply incomparable_neq, incomparable_app_l, incomparable_app_r, apart).
      rewrite Hs. destruct readable.
      * rewrite removelast_last, Hd, get_app, Hd. simpl. rewrite Hp, Hn.
        destruct (IH (pre ++ [(name, File true data)]) errors E') as (new & C & Q).
        rewrite K in C. unfold kept in C. simpl in C. rewrite <- app_assoc in C.
        exists new. split; [exact C|exact Q].
      * unfold collect, error. simpl.
        destruct (IH (pre ++ [(name, File false data)])
                     (errors ++ ["Permission denied"]) E') as (new & C & Q).
        rewrite K in C. unfold kept in C. simpl in C.
        rewrite app_nil_r, <- !app_assoc in C. fold P in C.
        exists ("Permission denied" :: new). split; [exact C|].
        split; discriminate.
    + (* a directory *)
      destruct (copy_dir_total name sub (put r dst (Dir P))) as (res & C & V).
      * rewrite E. apply in_or_app. right. now left.
      * assumption.
      * right. exists dst, name, P. auto.
      * rewrite C, Hn.
        destruct res as [[]|e]; simpl in V.
        -- destruct (IH (pre ++ [(name, Dir sub)]) errors E') as (new & C' & Q).
           rewrite K in C'. unfold kept in C'. simpl snd in C'. simpl fst in C'.
           cbv iota in C'. rewrite <- app_assoc in C'.
           exists new. split; [exact C'|]. now rewrite V.
        -- destruct V as (V & Ce & Ae).
           assert (Co : collect e errors = Some (errors ++ args e)).
           { unfold collect, isinstance. now rewrite Ce. }
           rewrite Co.
           destruct (IH (pre ++ [(name, Dir sub)]) (errors ++ args e) E')
             as (new & C' & Q).
           rewrite K in C'. unfold kept in C'. simpl snd in C'. simpl fst in C'.
           cbv iota in C'. rewrite <- !app_assoc in C'.
           exists (args e ++ new). split; [exact C'|]. rewrite V. simpl.
           split; [|discriminate]. intros Z. apply app_eq_nil in Z as [Z _].
           contradiction.
Qed.

End TotalEntries.

(** A copy between two places that are not nested, deep enough not to
    exhaust the interpreter: the readable part of the tree arrives, and
    the copy returns exactly when that is all of it. *)
Lemma copytree_total depth : forall src dst r es,
  incomparable src dst ->
  get r src = Some (Dir es) ->
  well_formed (Dir es) = true ->
  vacant r dst ->
  height (Dir es) <= depth ->
  exists res,
    copytree_at depth src dst r = (res, put r dst (prune (Dir es)))
    /\ verdict res (Dir es).
Proof.
  induction depth as [|d IH]; intros src dst r es I S W V H; [simpl in H; lia|].
  cbn [copytree_at]. rewrite S. destruct (makedirs_vacant _ _ V) as [-> G].
  destruct (well_formed_dir _ W) as [D F].
  assert (S1 : get (put r dst (Dir [])) src = Some (Dir es))
    by (rewrite get_put_other; [assumption|now apply incomparable_sym]).
  destruct (copy_entries_total (copytree_at d) src dst (put r dst (Dir [])) es
              I S1 (distinct_NoDup _ D) (ex_intro _ _ G)) with (suf := es) (pre := @nil (string * node)) (errors := @nil string)
    as (new & C & Q); [|reflexivity|].
  - intros name sub x Hin Gx Vx. apply IH; auto.
    + apply incomparable_app_l, incomparable_app_r, I.
    + rewrite Forall_forall in F. apply (F _ Hin).
    + apply (height_entry es (name, Dir sub) d Hin H).
  - simpl flat_map in C. rewrite !put_put_same in C. simpl app in C.
    rewrite C, prune_dir.
    change (forallb (fun e => all_readable (snd e)) es) with (all_readable (Dir es)) in Q.
    destruct new as [|x new].
    + exists (Ret tt). split; [reflexivity|]. simpl. now apply Q.
    + exists (Raise (mkExn ShutilError (x :: new))). split; [reflexivity|].
      simpl. split; [|split; [reflexivity|discriminate]].
      destruct (forallb _ es) eqn:A; [|reflexivity].
      assert (Z : x :: new = []) by (now apply Q). discriminate.
Qed.

(** *** The copy of a run *)

Lemma copy_run_total src dest w es bs name :
  String.eqb src "" = false ->
  resolve dest = Some (path_of dest) ->
  path_of dest = bs ++ [name] ->
  incomparable (path_of src) (path_of dest) ->
  get (root w) (path_of src) = Some (Dir es) ->
  well_formed (Dir es) = true ->
  height (Dir es) <= depth_limit w ->
  (exists l, get (root w) bs = Some (Dir l)) ->
  exists res,
    write_run src dest false w
    = (res, with_root w (put (del (root w) (path_of dest)) (path_of dest) (prune (Dir es))))
    /\ verdict res (Dir es).
Proof.
  intros Ns Rd Pd I G W H [l B].
  assert (Nd : path_of dest <> []) by (rewrite Pd; now destruct bs).
  unfold write_run. rewrite (clear_destination_exact _ _ Rd Nd).
  set (r1 := del (root w) (path_of dest)).
  assert (G1 : get r1 (path_of dest) = None) by (now apply get_del_same).
  assert (B1 : get r1 bs = Some (Dir (discard name l))).
  { unfold r1. rewrite Pd. now apply get_del_parent. }
  assert (S1 : get r1 (path_of src) = Some (Dir es)).
  { unfold r1. rewrite get_del_other; [assumption|now apply incomparable_sym]. }
  unfold copy_run, path_exists, lookup. rewrite Rd. cbn [root with_root]. rewrite G1.
  unfold makedirs. rewrite Rd. unfold makedirs_at. cbn [root with_root]. rewrite G1.
  assert (Mk : mkdirs r1 (path_of dest) = Some (put r1 (path_of dest) (Dir []))).
  { rewrite Pd. apply (mkdirs_child _ _ _ _ B1 (assoc_discard_same _ _)). }
  rewrite Mk.
  unfold copytree, resolve at 1. rewrite Ns, Rd.
  cbn [root with_root depth_limit].
  destruct (copytree_total (depth_limit w) (path_of src) (path_of dest)
              (put r1 (path_of dest) (Dir [])) es) as (res & C & V); auto.
  - rewrite get_put_other; [assumption|now apply incomparable_sym].
  - left. rewrite Pd. eapply get_put_child; eauto.
  - rewrite C, put_put_same. exists res. split; [|assumption].
    now destruct res.
Qed.

(** *** The archive, whatever the files allow *)

Lemma readable_split (l : list (string * node)) :
  forallb (fun e => all_readable (snd e)) l
  = forallb (fun e => is_dir (snd e) || all_readable (snd e)) l
    && forallb (fun e => negb (is_dir (snd e)) || all_readable (snd e)) l.
Proof.
  induction l as [|[k m] l IH]; [reflexivity|]. simpl. rewrite IH.
  destruct m as [[] data|sub]; simpl; try reflexivity.
  repeat match goal with
         | |- context [forallb ?f ?x] => destruct (forallb f x)
         end; reflexivity.
Qed.

Section TotalArchive.

Variables (zp src : string) (zpc : list string) (w0 : host) (rd : bool).
Hypothesis zp_resolves : resolve zp = Some zpc.
Hypothesis apart : incomparable zpc (path_of src).
Hypothesis present : exists n, get (root w0) zpc = Some n.

(** The machine when the archive being written holds the members [ms]. *)
Local Abbreviation at_archive ms :=
  (with_root w0 (put (root w0) zpc (File rd (Zip false ms)))).

Lemma write_files_total top rel es :
  path_of top = path_of src ++ rel ->
  get (root w0) (path_of src ++ rel) = Some (Dir es) ->
  well_formed (Dir es) = true ->
  forall l, incl l es ->
  forall ms, exists res ms1 rest,
    write_files zp src top (filenames l) (at_archive ms)
    = (res, at_archive (ms ++ ms1))
    /\ file_members rel l = ms1 ++ rest
    /\ match res with
       | Ret _ =>
           rest = []
           /\ forallb (fun e => is_dir (snd e) || all_readable (snd e)) l = true
       | Raise e =>
           rest <> []
           /\ forallb (fun e => is_dir (snd e) || all_readable (snd e)) l = false
           /\ cls e = PermissionError
       end.
Proof.
  intros T G W. destruct (well_formed_dir _ W) as [D F]. apply distinct_NoDup in D.
  induction l as [|[name m] l IH]; intros I ms.
  - exists (Ret tt), [], []. simpl. rewrite app_nil_r. auto.
  - assert (Ie : In (name, m) es) by (apply I; now left).
    assert (Il : incl l es) by (intros e He; apply I; now right).
    destruct m as [readable data|sub]; unfold filenames, file_members; simpl.
    + fold (filenames l). fold (file_members rel l).
      rewrite Forall_forall in F. destruct (F _ Ie) as [Pn _]. simpl in Pn.
      assert (Pj : path_of (join top name) = path_of src ++ (rel ++ [name])).
      { rewrite path_of_join by assumption. now rewrite T, app_assoc. }
      assert (L : lookup (join top name) (at_archive ms) = Some (File readable data)).
      { rewrite (lookup_at_archive src zpc w0 rd apart _ _ (rel ++ [name])); [| |assumption].
        - rewrite Pj, app_assoc, get_app, G. simpl. now rewrite (In_assoc _ _ _ D Ie).
        - apply join_nonempty. now destruct (proper_name_parts _ Pn). }
      rewrite (relpath_below _ _ (rel ++ [name])) by
          (assumption || (destruct rel; discriminate)).
      destruct readable.
      * rewrite (zip_write_stored zp zpc w0 rd zp_resolves present _ _ _ _ L).
        destruct (IH Il (ms ++ [(String.concat "/" (rel ++ [name]), data)]))
          as (res & ms1 & rest & C & M & V).
        exists res, ((String.concat "/" (rel ++ [name]), data) :: ms1), rest.
        rewrite <- app_assoc in C. split; [exact C|]. split; [now rewrite M|exact V].
      * exists (Raise (error PermissionError "Permission denied")), [],
               ((String.concat "/" (rel ++ [name]), data) :: file_members rel l).
        unfold zip_write, member_of. rewrite L, app_nil_r.
        split; [reflexivity|]. split; [reflexivity|].
        split; [discriminate|]. split; reflexivity.
    + fold (filenames l). fold (file_members rel l). now apply IH.
Qed.

Lemma write_tree_total n : forall top rel ms,
  path_of top = path_of src ++ rel ->
  get (root w0) (path_of src ++ rel) = Some n ->
  well_formed n = true ->
  exists res ms1 rest,
    write_triples zp src (walk_node top n) (at_archive ms)
    = (res, at_archive (ms ++ ms1))
    /\ members_of rel n = ms1 ++ rest
    /\ match res with
       | Ret _ => rest = [] /\ negb (is_dir n) || all_readable n = true
       | Raise e =>
           rest <> [] /\ negb (is_dir n) || all_readable n = false
           /\ cls e = PermissionError
       end.
Proof.
  induction n as [readable data|es IHes] using node_induction;
    intros top rel ms T G W.
  - exists (Ret tt), [], []. simpl. rewrite app_nil_r. auto.
  - cbn [walk_node write_triples members_of is_dir negb orb].
    change (all_readable (Dir es)) with (forallb (fun e => all_readable (snd e)) es).
    rewrite readable_split.
    destruct (write_files_total top rel es T G W es (incl_refl _) ms)
      as (res1 & a1 & b1 & C1 & M1 & V1).
    rewrite C1, M1. destruct res1 as [[]|e].
    2:{ destruct V1 as (N1 & R1 & E1). exists (Raise e), a1, (b1 ++ flat_map (fun e => members_of (rel ++ [fst e]) (snd e)) es).
        rewrite <- app_assoc, R1. split; [reflexivity|]. split; [reflexivity|].
        split; [|split; [reflexivity|assumption]].
        intros Z. apply app_eq_nil in Z as [Z _]. contradiction. }
    destruct V1 as (-> & R1). rewrite R1, app_nil_r. cbn [andb].
    destruct (well_formed_dir _ W) as [D F]. apply distinct_NoDup in D.
    assert (X : forall l, incl l es -> forall ms, exists res ms1 rest,
      write_triples zp src
        (flat_map (fun e => walk_node (join top (fst e)) (snd e)) l) (at_archive ms)
      = (res, at_archive (ms ++ ms1))
      /\ flat_map (fun e => members_of (rel ++ [fst e]) (snd e)) l = ms1 ++ rest
      /\ match res with
         | Ret _ =>
             rest = []
             /\ forallb (fun e => negb (is_dir (snd e)) || all_readable (snd e)) l = true
         | Raise e =>
             rest <> []
             /\ forallb (fun e => negb (is_dir (snd e)) || all_readable (snd e)) l = false
             /\ cls e = PermissionError
         end).
    { induction l as [|[name m] l IHl]; intros I ms0.
      - exists (Ret tt), [], []. simpl. rewrite app_nil_r. auto.
      - assert (Ie : In (name, m) es) by (apply I; now left).
        assert (Il : incl l es) by (intros e He; apply I; now right).
        cbn [flat_map fst snd forallb]. rewrite write_triples_app.
        rewrite Forall_forall in IHes, F. destruct (F _ Ie) as [Pn Wm]. simpl in Pn, Wm.
        destruct (IHes _ Ie (join top name) (rel ++ [name]) ms0)
          as (res & a & b & C & M & V); auto.
        + rewrite path_of_join by assumption. now rewrite T, app_assoc.
        + rewrite app_assoc, get_app, G. simpl. now rewrite (In_assoc _ _ _ D Ie).
        + cbn [snd] in C, M, V. rewrite C, M. destruct res as [[]|e].
          * destruct V as (-> & R). rewrite R, app_nil_r. cbn [andb].
            destruct (IHl Il (ms0 ++ a)) as (res' & a' & b' & C' & M' & V').
            exists res', (a ++ a'), b'. rewrite app_assoc. split; [exact C'|].
            split; [now rewrite M', app_assoc|exact V'].
          * destruct V as (N & R & E). rewrite R. cbn [andb].
            exists (Raise e), a,
                   (b ++ flat_map (fun e => members_of (rel ++ [fst e]) (snd e)) l).
            split; [reflexivity|]. split; [now rewrite app_assoc|].
            split; [|split; [reflexivity|assumption]].
            intros Z. apply app_eq_nil in Z as [Z _]. contradiction. }
    destruct (X es (incl_refl _) (ms ++ a1)) as (res & a & b & C & M & V).
    exists res, (a1 ++ a), b. rewrite C, M, !app_assoc.
    split; [reflexivity|]. split; [reflexivity|]. exact V.
Qed.

End TotalArchive.

(** *** The archive of a run *)

Lemma zip_run_total src dest w es name :
  String.eqb src "" = false ->
  resolve dest = Some (path_of dest) ->
  path_of dest = path_of (dirname dest) ++ [name] ->
  incomparable (path_of src) (path_of dest) ->
  get (root w) (path_of src) = Some (Dir es) ->
  well_formed (Dir es) = true ->
  (exists l, get (root w) (path_of (dirname dest)) = Some (Dir l)) ->
  exists res ms rest,
    write_run src dest true w
    = (res, with_root w (put (del (root w) (path_of dest)) (path_of dest)
                             (File true (Zip true ms))))
    /\ members_of [] (Dir es) = ms ++ rest
    /\ match res with
       | Ret _ => rest = [] /\ all_readable (Dir es) = true
       | Raise e =>
           rest <> [] /\ all_readable (Dir es) = false /\ cls e = PermissionError
       end.
Proof.
  intros Ns Rd Pd I G W [l B].
  assert (Nd : path_of dest <> []) by (rewrite Pd; now destruct (path_of (dirname dest))).
  unfold write_run. rewrite (clear_destination_exact _ _ Rd Nd).
  set (r1 := del (root w) (path_of dest)).
  assert (G1 : get r1 (path_of dest) = None) by (now apply get_del_same).
  assert (B1 : get r1 (path_of (dirname dest)) = Some (Dir (discard name l))).
  { unfold r1. rewrite Pd at 1. now apply get_del_parent. }
  assert (S1 : get r1 (path_of src) = Some (Dir es)).
  { unfold r1. rewrite get_del_other; [assumption|now apply incomparable_sym]. }
  unfold zip_run.
  assert (Sk : negb (String.eqb (dirname dest) "")
               && negb (path_exists (dirname dest) (with_root w r1)) = false).
  { destruct (String.eqb (dirname dest) "") eqn:E; [reflexivity|].
    unfold path_exists, lookup, resolve. rewrite E. cbn [root with_root].
    now rewrite B1. }
  rewrite Sk. unfold zip_open. rewrite Rd. cbn [root with_root]. rewrite G1.
  assert (Rl : removelast (path_of dest) = path_of (dirname dest))
    by (rewrite Pd at 1; apply removelast_last).
  rewrite Rl, B1.
  set (w2 := with_root (with_root w r1) (put r1 (path_of dest) (File true (Zip false [])))).
  assert (G2 : get (root w2) (path_of dest) = Some (File true (Zip false []))).
  { unfold w2. cbn [root with_root]. rewrite Pd. eapply get_put_child; eauto. }
  assert (S2 : get (root w2) (path_of src) = Some (Dir es)).
  { unfold w2. cbn [root with_root].
    rewrite get_put_other; [assumption|now apply incomparable_sym]. }
  assert (Wk : walk src w2 = walk_node src (Dir es)).
  { unfold walk, lookup, resolve. now rewrite Ns, S2. }
  rewrite Wk.
  assert (A : forall ms, with_root w2 (put (root w2) (path_of dest) (File true (Zip false ms)))
                         = with_root w (put r1 (path_of dest) (File true (Zip false ms)))).
  { intros ms. unfold w2, with_root. cbn [root clock depth_limit].
    now rewrite put_put_same. }
  assert (A0 : w2 = with_root w2 (put (root w2) (path_of dest) (File true (Zip false [])))).
  { rewrite (put_get_id _ _ _ G2). now rewrite with_root_id. }
  rewrite A0.
  destruct (write_tree_total dest src (path_of dest) w2 true Rd
              (incomparable_sym _ _ I) (ex_intro _ _ G2) (Dir es) src [] [])
    as (res & ms & rest & C & M & V);
    [now rewrite app_nil_r|now rewrite app_nil_r|assumption|].
  rewrite C. cbn [app]. rewrite A.
  assert (Cl : zip_close dest (with_root w (put r1 (path_of dest) (File true (Zip false ms))))
               = (Ret tt, with_root w (put r1 (path_of dest) (File true (Zip true ms))))).
  { assert (Gm : get (put r1 (path_of dest) (File true (Zip false ms))) (path_of dest)
                 = Some (File true (Zip false ms)))
      by (rewrite Pd; eapply get_put_child; exact B1).
    unfold zip_close. rewrite Rd. cbn [root with_root]. rewrite Gm.
    unfold with_root. cbn [root clock depth_limit]. now rewrite put_put_same. }
  rewrite Cl. exists res, ms, rest.
  split; [now destruct res as [[]|e]|]. split; [assumption|].
  destruct res; exact V.
Qed.

End TotalFacts.

(* ================================================================= *)
(** ** More on the manager *)

Module ManagerFacts.
Import PosixPath Clock Py Backup Posix Trees Examples Desk TreeFacts CopyFacts PyFacts RunFacts CopyRun PathFacts ZipFacts KeepFacts BackupFacts TotalFacts.

(** *** The name of a backup *)

Lemma digit_inj a b : a < 10 -> b < 10 -> digit a = digit b -> a = b.
Proof.
  intros A B.
  do 10 (destruct a as [|a]; [do 10 (destruct b as [|b]; [now intros|]); lia|]).
  lia.
Qed.

Lemma digit_mod d : digit d = digit (d mod 10).
Proof. unfold digit. now rewrite Nat.Div0.mod_mod. Qed.

Lemma dec2_inj n m : n < 100 -> m < 100 -> dec2 n = dec2 m -> n = m.
Proof.
  intros N M H. unfold dec2 in H.
  assert (H1 : digit (n / 10) = digit (m / 10)) by congruence.
  assert (H2 : digit n = digit m) by congruence.
  rewrite (digit_mod n), (digit_mod m) in H2.
  apply digit_inj in H1; [|apply Nat.Div0.div_lt_upper_bound; lia..].
  apply digit_inj in H2; [|apply Nat.mod_upper_bound; lia..].
  rewrite (Nat.div_mod_eq n 10), (Nat.div_mod_eq m 10). lia.
Qed.

Lemma dec4_inj n m : n < 10000 -> m < 10000 -> dec4 n = dec4 m -> n = m.
Proof.
  intros N M H. change 10000 with (10 * 10 * 10 * 10) in N, M. unfold dec4 in H.
  assert (H1 : digit (n / 1000) = digit (m / 1000)) by congruence.
  assert (H2 : digit (n / 100) = digit (m / 100)) by congruence.
  assert (H3 : dec2 n = dec2 m) by congruence.
  clear H. unfold dec2 in H3.
  assert (H4 : digit (n / 10) = digit (m / 10)) by congruence.
  assert (H5 : digit n = digit m) by congruence.
  clear H3.
  replace (n / 1000) with (n / 10 / 10 / 10) in H1
    by (rewrite !Nat.Div0.div_div; reflexivity).
  replace (m / 1000) with (m / 10 / 10 / 10) in H1
    by (rewrite !Nat.Div0.div_div; reflexivity).
  replace (n / 100) with (n / 10 / 10) in H2
    by (rewrite !Nat.Div0.div_div; reflexivity).
  replace (m / 100) with (m / 10 / 10) in H2
    by (rewrite !Nat.Div0.div_div; reflexivity).
  rewrite (digit_mod (n / 10 / 10)), (digit_mod (m / 10 / 10)) in H2.
  rewrite (digit_mod (n / 10)), (digit_mod (m / 10)) in H4.
  rewrite (digit_mod n), (digit_mod m) in H5.
  apply digit_inj in H1;
    [|repeat apply Nat.Div0.div_lt_upper_bound; lia..].
  apply digit_inj in H2; [|apply Nat.mod_upper_bound; lia..].
  apply digit_inj in H4; [|apply Nat.mod_upper_bound; lia..].
  apply digit_inj in H5; [|apply Nat.mod_upper_bound; lia..].
  pose proof (Nat.div_mod_eq n 10). pose proof (Nat.div_mod_eq m 10).
  pose proof (Nat.div_mod_eq (n / 10) 10). pose proof (Nat.div_mod_eq (m / 10) 10).
  pose proof (Nat.div_mod_eq (n / 10 / 10) 10).
  pose proof (Nat.div_mod_eq (m / 10 / 10) 10).
  lia.
Qed.

Lemma datetime_bounds t :
  year t < 10000 /\ month t < 100 /\ day t < 100
  /\ hour t < 100 /\ minute t < 100 /\ second t < 100.
Proof.
  pose proof (datetime_ok t) as H.
  repeat (apply andb_true_iff in H as [H ?]).
  repeat match goal with
         | H : (_ <=? _)%nat = true |- _ => apply Nat.leb_le in H
         | H : (_ <? _)%nat = true |- _ => apply Nat.ltb_lt in H
         end.
  split; [|lia].
  change 10000 with (S 9999). now apply Nat.lt_succ_r.
Qed.

Lemma length_dec2 n : String.length (dec2 n) = 2.
Proof. reflexivity. Qed.

Lemma append_inj_l (a b c d : string) :
  String.length a = String.length c -> (a ++ b = c ++ d)%string -> a = c /\ b = d.
Proof.
  revert c. induction a as [|x a IH]; intros [|y c]; simpl; try discriminate.
  - auto.
  - intros L H. injection L as L. injection H as -> H.
    destruct (IH _ L H) as [-> ->]. auto.
Qed.

Lemma strftime_inj a b : strftime a = strftime b -> same_second a b.
Proof.
  destruct (datetime_bounds a) as (Ya & Ma & Da & Ha & Na & Sa).
  destruct (datetime_bounds b) as (Yb & Mb & Db & Hb & Nb & Sb).
  unfold strftime. intros H.
  apply append_inj_l in H as [H1 H]; [|reflexivity].
  apply (append_inj_l "-") in H as [_ H]; [|reflexivity].
  apply append_inj_l in H as [H2 H]; [|reflexivity].
  apply (append_inj_l "-") in H as [_ H]; [|reflexivity].
  apply append_inj_l in H as [H3 H]; [|reflexivity].
  apply (append_inj_l "_") in H as [_ H]; [|reflexivity].
  apply append_inj_l in H as [H4 H]; [|reflexivity].
  apply (append_inj_l "-") in H as [_ H]; [|reflexivity].
  apply append_inj_l in H as [H5 H]; [|reflexivity].
  apply (append_inj_l "-") in H as [_ H]; [|reflexivity].
  unfold same_second.
  repeat split; [apply dec4_inj|apply dec2_inj..]; assumption.
Qed.

Lemma length_strftime t : String.length (strftime t) = 19.
Proof. reflexivity. Qed.

Lemma length_append (a b : string) :
  String.length (a ++ b) = String.length a + String.length b.
Proof. induction a; simpl; [reflexivity|now rewrite IHa]. Qed.

Lemma append_inj_r (a b c d : string) :
  String.length b = String.length d -> (a ++ b = c ++ d)%string -> a = c /\ b = d.
Proof.
  intros L. revert c. induction a as [|x a IH]; intros [|y c]; simpl.
  - auto.
  - intros H. exfalso. apply (f_equal String.length) in H. simpl in H.
    rewrite length_append in H. lia.
  - intros H. exfalso. apply (f_equal String.length) in H. simpl in H.
    rewrite length_append in H. lia.
  - intros H. injection H as -> H. destruct (IH _ H) as [-> ->]. auto.
Qed.

(** X1: The name [_generate_backup_folder_name] returns tells the base name
    and the second of the clock: two calls return the same name exactly
    when they were given the same base name and read the clock within the
    same second. *)
Theorem folder_name_tells_base_and_second {W} (os : OS W) b1 b2 (s1 s2 : state W) :
  fst (_generate_backup_folder_name os b1 s1)
  = fst (_generate_backup_folder_name os b2 s2)
  <-> b1 = b2
      /\ same_second (fst (datetime_now os (world s1)))
                     (fst (datetime_now os (world s2))).
Proof.
  unfold _generate_backup_folder_name, bind, now, ret.
  destruct (datetime_now os (world s1)) as [t1 w1].
  destruct (datetime_now os (world s2)) as [t2 w2]. cbn [fst]. split.
  - intros H. assert (E : (b1 ++ "_" ++ strftime t1 ++ "_" ++ "v1.0.0")%string
                          = (b2 ++ "_" ++ strftime t2 ++ "_" ++ "v1.0.0")%string)
      by congruence.
    apply append_inj_r in E as [-> E]; [|reflexivity]. split; [reflexivity|].
    apply (append_inj_l "_") in E as [_ E]; [|reflexivity].
    apply append_inj_l in E as [E _]; [|reflexivity]. now apply strftime_inj.
  - intros [-> (Y & Mo & D & H & Mi & S)]. unfold strftime.
    now rewrite Y, Mo, D, H, Mi, S.
Qed.

(** *** Counting *)


(** *** What the two writers return *)

(** X3: [_copy_folder_contents] and [_zip_folder_contents] never return
    [False], whatever the operating system does: they return [True] or
    raise. *)
Theorem writers_never_return_false {W} (os : OS W) src dst (s s' : state W) b :
  _copy_folder_contents os src dst s = (Ret b, s')
  \/ _zip_folder_contents os src dst s = (Ret b, s') ->
  b = true.
Proof.
  intros [H|H].
  - eapply (copy_returns_true os); eauto.
  - eapply (zip_returns_true os); eauto.
Qed.

Lemma writers_never_return_false_witness :
  _copy_folder_contents posix "/docs" "/backups/copy" (mkState w0 [])
  = (Ret true, snd (_copy_folder_contents posix "/docs" "/backups/copy" (mkState w0 [])))
  /\ true = true.
Proof.
  assert (E : _copy_folder_contents posix "/docs" "/backups/copy" (mkState w0 [])
              = (Ret true,
                 snd (_copy_folder_contents posix "/docs" "/backups/copy" (mkState w0 []))))
    by (vm_compute; reflexivity).
  split; [exact E|].
  exact (writers_never_return_false posix "/docs" "/backups/copy" _ _ true (or_introl E)).
Defined.

(** *** What a backup leaves, whatever the files allow *)

Lemma run_of_write src base c w lg res w' :
  path_exists src w && path_isdir src w = true ->
  write_run src (destination src base c (clock w)) c w = (res, w') ->
  exists lg',
    perform_backup posix src base c (mkState w lg)
    = (Ret (match res with Ret _ => true | Raise _ => false end), mkState w' lg').
Proof.
  intros E R. destruct (perform_backup_started src base c w lg E) as (mid & msg & H).
  rewrite R in H. rewrite H. destruct res; eauto.
Qed.

Lemma lookup_dir_tests src w es :
  lookup src w = Some (Dir es) ->
  path_exists src w && path_isdir src w = true /\ String.eqb src "" = false.
Proof.
  intros L. unfold path_exists, path_isdir. rewrite L. split; [reflexivity|].
  unfold lookup, resolve in L. now destruct (String.eqb src "").
Qed.

(** The world a copy run leaves. *)
Lemma copy_backup_world src base w lg es :
  lookup src w = Some (Dir es) ->
  well_formed (Dir es) = true ->
  height (Dir es) <= depth_limit w ->
  (exists bs, get (root w) (path_of base) = Some (Dir bs)) ->
  incomparable (path_of src) (path_of (destination src base false (clock w))) ->
  exists lg',
    perform_backup posix src base false (mkState w lg)
    = (Ret (all_readable (Dir es)),
       mkState (with_root w (put (del (root w) (path_of (destination src base false (clock w))))
                                 (path_of (destination src base false (clock w)))
                                 (prune (Dir es)))) lg').
Proof.
  intros L W H B I. destruct (lookup_dir_tests _ _ _ L) as [E Ns].
  destruct (lookup_resolve _ _ _ L) as [_ G].
  destruct (destination_shape src base false (clock w)) as (n & _ & _ & Pd).
  destruct (destination_resolves src base false (clock w)) as [Rd _].
  destruct (copy_run_total src _ w es (path_of base) n Ns Rd Pd I G W H B)
    as (res & R & V).
  destruct (run_of_write src base false w lg _ _ E R) as [lg' P].
  exists lg'. rewrite P. destruct res as [[]|e]; unfold verdict in V.
  - now rewrite V.
  - destruct V as [-> _]. reflexivity.
Qed.

(** The world an archive run leaves. *)
Lemma zip_backup_world src base w lg es :
  lookup src w = Some (Dir es) ->
  well_formed (Dir es) = true ->
  (exists bs, get (root w) (path_of base) = Some (Dir bs)) ->
  incomparable (path_of src) (path_of (destination src base true (clock w))) ->
  exists lg' ms rest,
    perform_backup posix src base true (mkState w lg)
    = (Ret (all_readable (Dir es)),
       mkState (with_root w (put (del (root w) (path_of (destination src base true (clock w))))
                                 (path_of (destination src base true (clock w)))
                                 (File true (Zip true ms)))) lg')
    /\ members_of [] (Dir es) = ms ++ rest
    /\ (rest = [] <-> all_readable (Dir es) = true).
Proof.
  intros L W B I. destruct (lookup_dir_tests _ _ _ L) as [E Ns].
  destruct (lookup_resolve _ _ _ L) as [_ G].
  destruct (destination_shape src base true (clock w)) as (n & _ & _ & Pd).
  destruct (destination_parent src base true (clock w)) as [n' Pd'].
  destruct (destination_resolves src base true (clock w)) as [Rd _].
  assert (Eb : path_of (dirname (destination src base true (clock w))) = path_of base).
  { rewrite Pd in Pd'. now apply app_inj_tail in Pd' as [-> _]. }
  rewrite <- Eb in B.
  destruct (zip_run_total src _ w es n' Ns Rd Pd' I G W B) as (res & ms & rest & R & M & V).
  destruct (run_of_write src base true w lg _ _ E R) as [lg' P].
  exists lg', ms, rest. rewrite P. split; [|split; [assumption|]].
  - destruct res as [[]|e]; [now destruct V as [_ ->]|now destruct V as (_ & -> & _)].
  - destruct res as [[]|e].
    + destruct V as [-> ->]. tauto.
    + destruct V as (N & -> & _). split; [contradiction|discriminate].
Qed.

Lemma lookup_put_del dest w v :
  resolve dest = Some (path_of dest) ->
  (exists bs name l, path_of dest = bs ++ [name] /\ get (root w) bs = Some (Dir l)) ->
  lookup dest (with_root w (put (del (root w) (path_of dest)) (path_of dest) v)) = Some v.
Proof.
  intros R (bs & name & l & Pd & B). unfold lookup. rewrite R. cbn [root with_root].
  rewrite Pd. eapply get_put_child. exact (get_del_parent _ _ _ _ B).
Qed.

Lemma lookup_beside src dest w v n :
  lookup src w = Some n ->
  incomparable (path_of src) (path_of dest) ->
  lookup src (with_root w (put (del (root w) (path_of dest)) (path_of dest) v)) = Some n.
Proof.
  intros L I. destruct (lookup_resolve _ _ _ L) as [R G].
  unfold lookup. rewrite R. cbn [root with_root].
  rewrite get_put_other, get_del_other; auto using incomparable_sym.
Qed.





(** *** A second backup within the same second *)

Lemma write_run_again src dest c w v :
  resolve dest = Some (path_of dest) -> path_of dest <> [] ->
  write_run src dest c
            (with_root w (put (del (root w) (path_of dest)) (path_of dest) v))
  = write_run src dest c w.
Proof.
  intros R N. unfold write_run. rewrite !(clear_destination_exact _ _ R N).
  cbn [root with_root]. rewrite del_put_fresh by (now apply get_del_same).
  reflexivity.
Qed.



(** *** The warning *)

Ltac quiet :=
  repeat first
    [ apply logs_ret | apply logs_raise | apply logs_peek
    | apply logs_lift | apply logs_now
    | apply logs_logger; discriminate
    | apply logs_with_ZipFile
    | apply logs_bind | apply logs_try_except | apply logs_for_each
    | apply logs_if
    | intros [[? ?] ?] | intro ].

Lemma writers_log_no_warning {W} (os : OS W) src dst :
  logs (fun r => level r <> WARNING) (_zip_folder_contents os src dst)
  /\ logs (fun r => level r <> WARNING) (_copy_folder_contents os src dst).
Proof.
  split; [unfold _zip_folder_contents|unfold _copy_folder_contents]; quiet.
Qed.

Lemma except_logs_no_warning {W} src dst e :
  logs (fun r => level r <> WARNING) (@perform_backup_except W src dst e).
Proof.
  unfold perform_backup_except.
  repeat match goal with
         | |- context [isinstance e ?c] => destruct (isinstance e c)
         end; quiet.
Qed.

Lemma finally_logs_no_warning {W} (os : OS W) src t l :
  logs (fun r => level r <> WARNING) (perform_backup_finally os src t l).
Proof. unfold perform_backup_finally. quiet. Qed.

(** The [try] block, when nothing is at the destination. *)
Lemma try_logs_no_warning src dest c w lg :
  path_exists dest w = false ->
  exists new,
    log (snd (perform_backup_try posix src dest c (mkState w lg))) = lg ++ new
    /\ Forall (fun r => level r <> WARNING) new.
Proof.
  intros X. unfold perform_backup_try. unfold bind at 1. unfold peek at 1.
  cbn [world log os_path_exists posix]. rewrite X.
  unfold bind at 1. unfold ret at 1.
  match goal with
  | |- exists new, log (snd (?m ?s)) = _ ++ new /\ _ =>
      cut (logs (fun r => level r <> WARNING) m); [intros Q; apply (Q s)|]
  end.
  unfold _count_files_in_folder.
  destruct (writers_log_no_warning posix src dest) as [Z C].
  destruct c; quiet; assumption.
Qed.

Lemma bind_ret_run {W A B} (m : M W A) (k : A -> M W B) s a s1 :
  m s = (Ret a, s1) -> bind m k s = k a s1.
Proof. intros H. unfold bind. now rewrite H. Qed.

(** The [try] block, when something is at the destination: it goes, a
    warning is logged, and the block goes on as if nothing had been
    there. *)
Lemma try_after_clear src dest c w lg :
  resolve dest = Some (path_of dest) -> path_of dest <> [] ->
  path_exists dest w = true ->
  exists msg,
    perform_backup_try posix src dest c (mkState w lg)
    = perform_backup_try posix src dest c
        (mkState (with_root w (del (root w) (path_of dest)))
                 (lg ++ [mkRecord WARNING msg])).
Proof.
  intros R N X.
  assert (X' : path_exists dest (with_root w (del (root w) (path_of dest))) = false).
  { unfold path_exists, lookup. rewrite R. cbn [root with_root].
    now rewrite get_del_same. }
  unfold perform_backup_try.
  rewrite (bind_ret_run (peek (os_path_exists posix dest)) _ (mkState w lg)
             (path_exists dest w) (mkState w lg) eq_refl).
  rewrite X.
  match goal with
  | |- exists msg, bind ?cl ?k ?s = _ =>
      assert (A : exists msg,
                 cl s = (Ret tt, mkState (with_root w (del (root w) (path_of dest)))
                                         (lg ++ [mkRecord WARNING msg])))
  end.
  { unfold path_exists in X. destruct (lookup dest w) as [old|] eqn:L; [|discriminate].
    pose proof (clear_destination_present _ _ _ L N) as C.
    unfold clear_destination, path_exists in C. rewrite L in C.
    unfold bind, peek, lift, logger. cbn [world log os_path_isdir os_path_isfile
                                          shutil_rmtree os_remove posix].
    destruct (path_isdir dest w) eqn:D; cbn [world log].
    - rewrite C. eexists. reflexivity.
    - assert (F : path_isfile dest w = true).
      { unfold path_isdir in D. unfold path_isfile. rewrite L in *. now destruct old. }
      rewrite F in *. cbn [world log]. rewrite C. eexists. reflexivity. }
  destruct A as [msg A]. exists msg. rewrite (bind_ret_run _ _ _ _ _ A).
  match goal with
  | |- _ = bind _ ?k1 ?s1 =>
      rewrite (bind_ret_run (peek (os_path_exists posix dest)) k1 s1
                 (path_exists dest (world s1)) s1 eq_refl)
  end.
  cbn [world]. rewrite X'.
  match goal with
  | |- _ = bind (ret tt) ?k ?s1 => now rewrite (bind_ret_run (ret tt) k s1 tt s1 eq_refl)
  end.
Qed.


(** *** The names in an archive *)

Lemma get_proper rel : forall n m,
  well_formed n = true -> get n rel = Some m ->
  Forall (fun c => proper_name c = true) rel.
Proof.
  induction rel as [|c rel IH]; intros n m W G; [constructor|].
  destruct n as [|es]; [discriminate|]. simpl in G.
  destruct (assoc c es) as [m'|] eqn:A; [|discriminate].
  destruct (well_formed_dir _ W) as [_ F]. rewrite Forall_forall in F.
  destruct (F _ (assoc_In _ _ _ A)) as [P Wm]. constructor; [exact P|].
  eapply IH; eauto.
Qed.



(** *** How a file that cannot be read is reported *)

Lemma except_message {W} src dst e :
  exists msg, forall s : state W,
    perform_backup_except src dst e s
    = (Ret (mkLocals false 0 msg), mkState (world s) (log s ++ [mkRecord ERROR msg])).
Proof.
  unfold perform_backup_except.
  destruct (isinstance e PermissionError); [eexists; reflexivity|].
  destruct (isinstance e ShutilError); [eexists; reflexivity|].
  destruct (isinstance e BadZipFile); [eexists; reflexivity|].
  rewrite isinstance_Exception. eexists; reflexivity.
Qed.

(** A run whose writing raised: the error record and the result line end
    the log, with the message the [except] clauses choose. *)
Lemma failed_run_log src base c w lg e w' :
  path_exists src w && path_isdir src w = true ->
  write_run src (destination src base c (clock w)) c w = (Raise e, w') ->
  exists mid msg,
    (forall s : state host,
       perform_backup_except src (destination src base c (clock w)) e s
       = (Ret (mkLocals false 0 msg), mkState (world s) (log s ++ [mkRecord ERROR msg])))
    /\ perform_backup posix src base c (mkState w lg)
       = (Ret false,
          mkState w' (lg ++ mid
                         ++ [mkRecord ERROR msg;
                             mkRecord INFO
                               (result_line src (mkDelta (clock w') (clock w))
                                            (mkLocals false 0 msg))])).
Proof.
  intros H R. apply andb_true_iff in H as [H1 H2].
  unfold perform_backup. unfold bind at 1. unfold peek at 1.
  cbn [world log os_path_exists os_path_isdir posix]. rewrite H1. cbn [negb].
  unfold bind at 1. unfold peek at 1.
  cbn [world log os_path_exists os_path_isdir posix]. rewrite H2. cbn [negb].
  unfold bind at 1. unfold _generate_backup_folder_name, now at 1.
  unfold bind at 1. cbn [world log datetime_now posix]. unfold ret at 1.
  unfold bind at 1. unfold logger at 1. cbn [world log].
  unfold bind at 1. unfold now at 1. cbn [world log datetime_now posix].
  fold (backup_name src (clock w)). fold (destination src base c (clock w)).
  set (dest := destination src base c (clock w)) in *.
  set (lg1 := lg ++ _).
  unfold finally_return, try_except.
  destruct (try_posix src dest c (mkState w lg1)) as [n1 ->]. cbn [world log].
  rewrite R.
  destruct (except_message (W := host) src dest e) as [msg M].
  rewrite M. cbn [world log]. rewrite finally_posix. cbn [success].
  exists ([mkRecord INFO
             [Lit "Starting backup of '"; FStr src; Lit "' to '"; FStr dest;
              Lit "' (Compression: "; FBool c; Lit ")"]] ++ n1), msg.
  split; [exact M|]. subst lg1. now rewrite <- !app_assoc.
Qed.



(** *** The constructor of the manager *)

Lemma mkdirs_some p : forall r,
  (forall q rd data, is_prefix q p = true -> get r q <> Some (File rd data)) ->
  exists r', mkdirs r p = Some r'.
Proof.
  induction p as [|c p IH]; intros r H.
  - destruct r as [rd data|es]; [now destruct (H [] rd data eq_refl)|]. simpl. eauto.
  - destruct r as [rd data|es]; [now destruct (H [] rd data eq_refl)|]. simpl.
    destruct (assoc c es) as [m|] eqn:A; [|eauto].
    destruct (IH m) as [m' ->]; [|eauto].
    intros q rd data P G. apply (H (c :: q) rd data).
    + simpl. now rewrite String.eqb_refl.
    + simpl. now rewrite A.
Qed.

(** X10: Constructing the manager when the directory of the log file is
    missing and no regular file stands where it or a directory above it
    should be: the directory is made, nothing beside it changes, and only
    then is the logging configured; when that returns, the one record
    logged says that the manager is initialized. *)
Theorem constructor_makes_log_directory bc log_file w lg :
  dirname log_file <> "" ->
  lookup (dirname log_file) w = None ->
  (forall q rd data,
     is_prefix q (path_of (dirname log_file)) = true ->
     get (root w) q <> Some (File rd data)) ->
  exists w1,
    path_isdir (dirname log_file) w1 = true
    /\ (forall q, incomparable (path_of (dirname log_file)) q ->
                  get (root w1) q = get (root w) q)
    /\ Logging.__init__ posix bc log_file (mkState w lg)
       = match bc log_file w1 with
         | (Ret _, w2) =>
             (Ret tt,
              mkState w2 (lg ++ [mkRecord INFO [Lit "BackupManager initialized."]]))
         | (Raise e, w2) => (Raise e, mkState w2 lg)
         end.
Proof.
  intros N L F. apply String.eqb_neq in N.
  destruct (mkdirs_some _ _ F) as [r1 M].
  assert (G : get (root w) (path_of (dirname log_file)) = None).
  { unfold lookup, resolve in L. now rewrite N in L. }
  exists (with_root w r1). split; [|split].
  - unfold path_isdir, lookup, resolve. rewrite N. cbn [root with_root].
    now rewrite (mkdirs_fresh _ _ _ G M).
  - intros q I. cbn [root with_root]. eapply mkdirs_other; eauto.
  - unfold Logging.__init__, Logging._setup_logging.
    unfold bind, peek, lift, logger, ret. cbn [world log os_path_exists os_makedirs posix].
    rewrite N. cbn [negb]. unfold path_exists. cbn [world log]. rewrite L. cbn [negb].
    unfold makedirs, resolve. rewrite N. unfold makedirs_at. cbn [world log].
    rewrite G, M. cbn [world log]. destruct (bc log_file (with_root w r1)) as [[[]|e] w2]; reflexivity.
Qed.

Lemma constructor_makes_log_directory_witness :
  exists w1,
    path_isdir "logs" w1 = true
    /\ (forall q, incomparable ["logs"] q -> get (root w1) q = get (root w0) q)
    /\ Logging.__init__ posix ready_log "logs/backup.log" (mkState w0 [])
       = (Ret tt, mkState w1 [mkRecord INFO [Lit "BackupManager initialized."]]).
Proof.
  destruct (constructor_makes_log_directory ready_log "logs/backup.log"
              w0 []) as (w1 & D & K & R).
  - vm_compute. discriminate.
  - vm_compute. reflexivity.
  - intros q rd data P.
    destruct q as [|c q]; [vm_compute; discriminate|].
    cbn [is_prefix] in P. apply andb_true_iff in P as [E P].
    destruct q as [|c' q]; [|discriminate].
    apply String.eqb_eq in E. subst c. vm_compute. discriminate.
  - exists w1. split; [exact D|]. split; [exact K|]. exact R.
Defined.

End ManagerFacts.

(* ================================================================= *)
(** ** The application *)

Module AppFacts.
Import PosixPath Clock Py Backup Posix Examples Config Gui Desk PyFacts ConfigFacts.

(** *** Dicts *)

Lemma dict_set_same k v d : dict_get k d = Some v -> dict_set k v d = d.
Proof.
  induction d as [|[k' x] d IH]; simpl; [discriminate|].
  destruct (String.eqb k' k) eqn:E.
  - now intros [= ->].
  - intros H. now rewrite IH.
Qed.

(** *** Saving and loading the configuration *)

(** X11: [_save_config] never raises.  When the file can be written it then
    holds the data and no box is shown; when it cannot, the file stays as
    it was and one box titled Save Error is shown. *)
Theorem save_config_never_raises data a lg :
  exists boxes,
    _save_config data (mkState a lg)
    = (Ret tt,
       mkState (mkApp (if read_only a then config_json a else Some (Document data))
                      (read_only a) (config a) (source_path_var a)
                      (destination_path_var a) (compress_var a)
                      (dialogs a ++ boxes)) lg)
    /\ if read_only a
       then exists message, boxes = [("Save Error", message)]
       else boxes = [].
Proof.
  destruct a as [cj [] cfg sv dv cv dl]; cbn [read_only].
  - eexists. split; [reflexivity|]. eauto.
  - exists []. rewrite app_nil_r. split; reflexivity.
Qed.

(** X12: [_load_config] hands over whatever JSON document the file holds, an
    object or not, and writes nothing. *)
Theorem load_config_returns_document v a lg :
  config_json a = Some (Document v) ->
  _load_config (mkState a lg) = (Ret v, mkState a lg).
Proof.
  destruct a as [cj ro cfg sv dv cv dl]. cbn [config_json]. intros ->. reflexivity.
Qed.

Lemma load_config_returns_document_witness :
  _load_config
    (mkState (mkApp (Some (Document (JList [JInt 1]))) false JNull "" "" false []) [])
  = (Ret (JList [JInt 1]),
     mkState (mkApp (Some (Document (JList [JInt 1]))) false JNull "" "" false []) []).
Proof.
  apply (load_config_returns_document (JList [JInt 1])
           (mkApp (Some (Document (JList [JInt 1]))) false JNull "" "" false []) []).
  reflexivity.
Defined.

(** X13: Without a configuration file [_load_config] returns the default
    record, having written it to the file when the file can be written;
    when it cannot, there is still no file and the Save Error box is
    shown. *)
Theorem load_config_creates_defaults a lg :
  config_json a = None ->
  exists boxes,
    _load_config (mkState a lg)
    = (Ret default_config,
       mkState (mkApp (if read_only a then None else Some (Document default_config))
                      (read_only a) (config a) (source_path_var a)
                      (destination_path_var a) (compress_var a)
                      (dialogs a ++ boxes)) lg)
    /\ if read_only a
       then exists message, boxes = [("Save Error", message)]
       else boxes = [].
Proof.
  destruct a as [cj [] cfg sv dv cv dl]; cbn [read_only config_json]; intros ->.
  - eexists. split; [reflexivity|]. eauto.
  - exists []. rewrite app_nil_r. split; reflexivity.
Qed.

Lemma load_config_creates_defaults_witness :
  exists boxes,
    _load_config (mkState (mkApp None false JNull "" "" false []) [])
    = (Ret default_config,
       mkState (mkApp (Some (Document default_config)) false JNull "" "" false
                      ([] ++ boxes)) [])
    /\ boxes = [].
Proof.
  apply (load_config_creates_defaults (mkApp None false JNull "" "" false []) []).
  reflexivity.
Defined.

(** *** Saving the preferences *)

(** X14: When the loaded configuration is no JSON object,
    [_save_preferences_from_gui] raises a TypeError at its first
    assignment: nothing is written and nothing changes. *)
Theorem save_preferences_needs_object a lg :
  (forall items, config a <> JDict items) ->
  exists e,
    cls e = TypeError
    /\ _save_preferences_from_gui (mkState a lg) = (Raise e, mkState a lg).
Proof.
  destruct a as [cj ro cfg sv dv cv dl]. cbn [config]. intros N.
  destruct cfg; try (eexists; split; [|reflexivity]; reflexivity).
  now destruct (N items).
Qed.

Lemma save_preferences_needs_object_witness :
  exists e,
    cls e = TypeError
    /\ _save_preferences_from_gui
         (mkState (mkApp None false (JList []) "/src" "/dst" true []) [])
       = (Raise e, mkState (mkApp None false (JList []) "/src" "/dst" true []) []).
Proof.
  apply (save_preferences_needs_object
           (mkApp None false (JList []) "/src" "/dst" true []) []).
  discriminate.
Defined.

(** X15: Saving the preferences a second time changes nothing more. *)
Theorem save_preferences_twice a lg items :
  config a = JDict items ->
  read_only a = false ->
  bind _save_preferences_from_gui (fun _ => _save_preferences_from_gui) (mkState a lg)
  = _save_preferences_from_gui (mkState a lg).
Proof.
  destruct a as [cj ro cfg sv dv cv dl]. cbn [config read_only]. intros -> ->.
  unfold _save_preferences_from_gui, _save_config, bind, peek, lift, try_except,
    setitem, json_dump. cbn.
  set (d1 := dict_set "compress_backup" (JBool cv)
               (dict_set "destination_folder" (JStr dv)
                  (dict_set "source_folder" (JStr sv) items))).
  assert (E1 : dict_set "source_folder" (JStr sv) d1 = d1).
  { apply dict_set_same. unfold d1.
    rewrite !dict_get_set_other by discriminate. apply dict_get_set_same. }
  rewrite E1.
  assert (E2 : dict_set "destination_folder" (JStr dv) d1 = d1).
  { apply dict_set_same. unfold d1.
    rewrite !dict_get_set_other by discriminate. apply dict_get_set_same. }
  rewrite E2.
  assert (E3 : dict_set "compress_backup" (JBool cv) d1 = d1).
  { apply dict_set_same. unfold d1. apply dict_get_set_same. }
  rewrite E3. reflexivity.
Qed.

Lemma save_preferences_twice_witness :
  bind _save_preferences_from_gui (fun _ => _save_preferences_from_gui)
       (mkState (mkApp None false default_config "/src" "/dst" true []) [])
  = _save_preferences_from_gui
      (mkState (mkApp None false default_config "/src" "/dst" true []) []).
Proof.
  apply (save_preferences_twice (mkApp None false default_config "/src" "/dst" true [])
           []
           [("source_folder", JStr ""); ("destination_folder", JStr "");
            ("compress_backup", JBool false); ("backup_interval_days", JInt 7)]);
    reflexivity.
Defined.

(** *** The fields of the window and the configuration *)

Lemma dict_get_saved k sv dv cv items :
  dict_get k (dict_set "compress_backup" cv
                (dict_set "destination_folder" dv
                   (dict_set "source_folder" sv items)))
  = if String.eqb k "compress_backup" then Some cv
    else if String.eqb k "destination_folder" then Some dv
    else if String.eqb k "source_folder" then Some sv
    else dict_get k items.
Proof.
  destruct (String.eqb k "compress_backup") eqn:E1.
  { apply String.eqb_eq in E1. subst. apply dict_get_set_same. }
  apply String.eqb_neq in E1. rewrite dict_get_set_other by congruence.
  destruct (String.eqb k "destination_folder") eqn:E2.
  { apply String.eqb_eq in E2. subst. apply dict_get_set_same. }
  apply String.eqb_neq in E2. rewrite dict_get_set_other by congruence.
  destruct (String.eqb k "source_folder") eqn:E3.
  { apply String.eqb_eq in E3. subst. apply dict_get_set_same. }
  apply String.eqb_neq in E3. now rewrite dict_get_set_other by congruence.
Qed.

(** X16: Loading the preferences into the window and saving them again loses
    nothing: when the configuration is an object whose source_folder and
    destination_folder, where present, are strings and whose
    compress_backup, where present, is a boolean, every key keeps its
    value, and a missing one of the three is added with its default, the
    empty string or [False].  The file, when it can be written, holds the
    result. *)
Theorem load_then_save_keeps_configuration tk a lg items :
  config a = JDict items ->
  read_only a = false ->
  (forall s, string_of tk (JStr s) = s) ->
  (forall b, getboolean tk (JBool b) = Ret b) ->
  (forall v, dict_get "source_folder" items = Some v -> exists s, v = JStr s) ->
  (forall v, dict_get "destination_folder" items = Some v -> exists s, v = JStr s) ->
  (forall v, dict_get "compress_backup" items = Some v -> exists b, v = JBool b) ->
  exists saved a',
    bind (_load_preferences_to_gui tk) (fun _ => _save_preferences_from_gui)
         (mkState a lg)
    = (Ret tt, mkState a' lg)
    /\ config a' = JDict saved
    /\ config_json a' = Some (Document (JDict saved))
    /\ (forall k v, dict_get k items = Some v -> dict_get k saved = Some v)
    /\ (forall k, dict_get k items = None ->
          dict_get k saved
          = if String.eqb k "compress_backup" then Some (JBool false)
            else if String.eqb k "destination_folder" then Some (JStr "")
            else if String.eqb k "source_folder" then Some (JStr "")
            else None).
Proof.
  destruct a as [cj ro cfg sv0 dv0 cv0 dl]. cbn [config read_only].
  intros -> -> Ts Tb Hs Hd Hc.
  assert (Es : exists s, match dict_get "source_folder" items with
                         | Some v => v | None => JStr "" end = JStr s).
  { destruct (dict_get "source_folder" items) as [v|]; [now apply Hs|eauto]. }
  assert (Ed : exists s, match dict_get "destination_folder" items with
                         | Some v => v | None => JStr "" end = JStr s).
  { destruct (dict_get "destination_folder" items) as [v|]; [now apply Hd|eauto]. }
  assert (Ec : exists b, match dict_get "compress_backup" items with
                         | Some v => v | None => JBool false end = JBool b).
  { destruct (dict_get "compress_backup" items) as [v|]; [now apply Hc|eauto]. }
  destruct Es as [s Es], Ed as [d Ed], Ec as [c Ec].
  exists (dict_set "compress_backup" (JBool c)
            (dict_set "destination_folder" (JStr d)
               (dict_set "source_folder" (JStr s) items))).
  eexists. split.
  - unfold _load_preferences_to_gui, _save_preferences_from_gui, _save_config,
      bind, peek, lift, try_except, config_get, setitem, json_dump,
      set_source_path_var, set_destination_path_var, set_compress_var.
    cbn. rewrite Es, Ed, Ec, !Ts, Tb. cbn. reflexivity.
  - cbn [config config_json]. split; [reflexivity|]. split; [reflexivity|].
    split.
    + intros k v G. rewrite dict_get_saved.
      destruct (String.eqb k "compress_backup") eqn:E1.
      { apply String.eqb_eq in E1. subst k. rewrite G in Ec. congruence. }
      destruct (String.eqb k "destination_folder") eqn:E2.
      { apply String.eqb_eq in E2. subst k. rewrite G in Ed. congruence. }
      destruct (String.eqb k "source_folder") eqn:E3.
      { apply String.eqb_eq in E3. subst k. rewrite G in Es. congruence. }
      assumption.
    + intros k G. rewrite dict_get_saved.
      destruct (String.eqb k "compress_backup") eqn:E1.
      { apply String.eqb_eq in E1. subst k. rewrite G in Ec. congruence. }
      destruct (String.eqb k "destination_folder") eqn:E2.
      { apply String.eqb_eq in E2. subst k. rewrite G in Ed. congruence. }
      destruct (String.eqb k "source_folder") eqn:E3.
      { apply String.eqb_eq in E3. subst k. rewrite G in Es. congruence. }
      assumption.
Qed.

Lemma load_then_save_keeps_configuration_witness :
  exists saved a',
    bind (_load_preferences_to_gui plain_tk) (fun _ => _save_preferences_from_gui)
         (mkState (mkApp None false
                         (JDict [("source_folder", JStr "/docs"); ("theme", JStr "dark")])
                         "" "" false []) [])
    = (Ret tt, mkState a' [])
    /\ config a' = JDict saved
    /\ config_json a' = Some (Document (JDict saved))
    /\ dict_get "source_folder" saved = Some (JStr "/docs")
    /\ dict_get "theme" saved = Some (JStr "dark")
    /\ dict_get "compress_backup" saved = Some (JBool false).
Proof.
  destruct (load_then_save_keeps_configuration plain_tk
              (mkApp None false
                     (JDict [("source_folder", JStr "/docs"); ("theme", JStr "dark")])
                     "" "" false []) []
              [("source_folder", JStr "/docs"); ("theme", JStr "dark")]
              eq_refl eq_refl (fun s => eq_refl) (fun b => eq_refl))
    as (saved & a' & R & C & F & K & D).
  - intros v [= <-]. eauto.
  - intros v [=].
  - intros v [=].
  - exists saved, a'. split; [exact R|]. split; [exact C|]. split; [exact F|].
    split; [apply K; reflexivity|]. split; [apply K; reflexivity|].
    apply (D "compress_backup"). reflexivity.
Defined.

(** *** Choosing a folder *)

(** X17: [_browse_source_folder]: a cancelled dialog changes nothing and
    writes nothing; a chosen folder becomes the source field and the three
    fields of the window are stored in the configuration and, the
    configuration being an object and the file writable, in the file. *)
Theorem browse_source_folder_outcome folder a lg items :
  config a = JDict items ->
  read_only a = false ->
  _browse_source_folder folder (mkState a lg)
  = (Ret tt,
     mkState
       (if String.eqb folder "" then a
        else
          let saved :=
            JDict (dict_set "compress_backup" (JBool (compress_var a))
                     (dict_set "destination_folder" (JStr (destination_path_var a))
                        (dict_set "source_folder" (JStr folder) items))) in
          mkApp (Some (Document saved)) false saved folder
                (destination_path_var a) (compress_var a) (dialogs a))
       lg).
Proof.
  destruct a as [cj ro cfg sv dv cv dl]. cbn [config read_only]. intros -> ->.
  unfold _browse_source_folder. destruct (String.eqb folder ""); reflexivity.
Qed.

Lemma browse_source_folder_outcome_witness :
  _browse_source_folder "/docs"
    (mkState (mkApp None false default_config "" "/backups" true []) [])
  = (Ret tt,
     mkState
       (let saved :=
          JDict [("source_folder", JStr "/docs"); ("destination_folder", JStr "/backups");
                 ("compress_backup", JBool true); ("backup_interval_days", JInt 7)] in
        mkApp (Some (Document saved)) false saved "/docs" "/backups" true [])
       []).
Proof.
  apply (browse_source_folder_outcome "/docs"
           (mkApp None false default_config "" "/backups" true []) []
           [("source_folder", JStr ""); ("destination_folder", JStr "");
            ("compress_backup", JBool false); ("backup_interval_days", JInt 7)]);
    reflexivity.
Defined.



(** *** Starting a backup *)

(** X19: With the source field empty, or else the destination field empty,
    [_start_backup] shows one warning, naming the first field that is
    missing, and does nothing else: no preference is saved, no backup is
    made, nothing is logged and the status line stays. *)
Theorem start_backup_needs_both_folders {W} (os : OS W) (x : session W) lg :
  source_path_var (self x) = "" \/ destination_path_var (self x) = "" ->
  let a := self x in
  let box :=
    if String.eqb (source_path_var a) ""
    then ("Missing Source Folder", [Lit "Please select a source folder."])
    else ("Missing Destination Folder", [Lit "Please select a destination folder."]) in
  _start_backup os (mkState x lg)
  = (Ret tt,
     mkState (mkSession (mkApp (config_json a) (read_only a) (config a)
                               (source_path_var a) (destination_path_var a)
                               (compress_var a) (dialogs a ++ [box]))
                        (status_message x) (machine x)) lg).
Proof.
  destruct x as [[cj ro cfg sv dv cv dl] st m]. cbn [self source_path_var destination_path_var].
  intros H. cbv zeta. unfold _start_backup, bind, on_app, peek. cbn.
  destruct (String.eqb sv "") eqn:E; [reflexivity|].
  destruct H as [->| ->]; [discriminate|]. reflexivity.
Qed.

Lemma start_backup_needs_both_folders_witness :
  _start_backup posix
    (mkState (mkSession (mkApp None false default_config "/docs" "" false []) "" w0) [])
  = (Ret tt,
     mkState (mkSession
                (mkApp None false default_config "/docs" "" false
                       [("Missing Destination Folder",
                         [Lit "Please select a destination folder."])])
                "" w0) []).
Proof.
  apply (start_backup_needs_both_folders posix
           (mkSession (mkApp None false default_config "/docs" "" false []) "" w0) []).
  now right.
Defined.

Lemma perform_backup_returns {W} (os : OS W) src base compress (s : state W) :
  exists b s', perform_backup os src base compress s = (Ret b, s').
Proof.
  unfold perform_backup. unfold bind at 1. simpl.
  destruct (os_path_exists os src (world s)); simpl; [|do 2 eexists; reflexivity].
  unfold bind at 1. simpl.
  destruct (os_path_isdir os src (world s)); simpl; [|do 2 eexists; reflexivity].
  unfold bind at 1. unfold _generate_backup_folder_name at 1. unfold bind at 1, now at 1.
  destruct (datetime_now os (world s)) as [t1 w1]. simpl.
  unfold bind at 1. unfold logger at 1. simpl.
  unfold bind at 1, now at 1. simpl.
  destruct (datetime_now os w1) as [t2 w2]. simpl.
  unfold finally_return.
  match goal with
  | |- context [try_except ?m ?h ?s0] => destruct (try_except m h s0) as [[l|e] s3]
  end.
  - destruct (finally_returns os src t2 l s3) as [t' ->]. do 2 eexists. reflexivity.
  - destruct (finally_returns os src t2 (mkLocals false 0 []) s3) as [t' ->].
    do 2 eexists. reflexivity.
Qed.

(** X20: With both fields filled in and an object as configuration,
    [_start_backup] raises nothing.  It first saves the preferences, then
    runs [perform_backup] with the source, the destination and the
    compression of the window on the world of the manager, and reports
    what the call returned: a status line and an information box after
    [True], another status line and an error box after [False]. *)
Theorem start_backup_runs_and_reports {W} (os : OS W) (x : session W) lg items :
  config (self x) = JDict items ->
  source_path_var (self x) <> "" ->
  destination_path_var (self x) <> "" ->
  exists b m' a',
    _save_preferences_from_gui (mkState (self x) lg) = (Ret tt, mkState a' lg)
    /\ perform_backup os (source_path_var (self x)) (destination_path_var (self x))
                      (compress_var (self x)) (mkState (machine x) lg)
       = (Ret b, m')
    /\ _start_backup os (mkState x lg)
       = (Ret tt,
          mkState
            (mkSession
               (mkApp (config_json a') (read_only a') (config a') (source_path_var a')
                      (destination_path_var a') (compress_var a')
                      (dialogs a'
                       ++ [if b
                           then ("Backup Successful",
                                 [Lit "The backup has been performed successfully."])
                           else ("Backup Failed",
                                 [Lit "An error occurred during backup. Please check the 'logs/backup.log' file for more details."])]))
               (if b then "Backup completed successfully!"
                else "Backup failed. See logs for more details.")
               (world m'))
            (log m')).
Proof.
  destruct x as [[cj ro cfg sv dv cv dl] st m].
  cbn [self machine config source_path_var destination_path_var compress_var].
  intros -> Ns Nd.
  destruct (perform_backup_returns os sv dv cv (mkState m lg)) as (b & m' & P).
  exists b, m'.
  apply String.eqb_neq in Ns, Nd.
  unfold _start_backup, bind, on_app, on_manager, peek, set_status.
  cbn -[perform_backup]. rewrite Ns, Nd.
  destruct ro.
  - eexists. split; [reflexivity|]. split; [exact P|]. cbn -[perform_backup].
    rewrite P. destruct b; reflexivity.
  - eexists. split; [reflexivity|]. split; [exact P|]. cbn -[perform_backup].
    rewrite P. destruct b; reflexivity.
Qed.

Lemma start_backup_runs_and_reports_witness :
  exists b m' a',
    _save_preferences_from_gui (mkState (self ready) []) = (Ret tt, mkState a' [])
    /\ perform_backup posix "/docs" "/backups" false (mkState w0 []) = (Ret b, m')
    /\ b = true
    /\ status_message (world (snd (_start_backup posix (mkState ready []))))
       = "Backup completed successfully!".
Proof.
  destruct (start_backup_runs_and_reports posix ready []
              [("source_folder", JStr ""); ("destination_folder", JStr "");
               ("compress_backup", JBool false); ("backup_interval_days", JInt 7)]
              eq_refl ltac:(discriminate) ltac:(discriminate))
    as (b & m' & a' & S & P & R).
  exists b, m', a'. split; [exact S|]. split; [exact P|].
  assert (B : b = true).
  { assert (E : fst (perform_backup posix "/docs" "/backups" false (mkState w0 []))
                = Ret true) by (vm_compute; reflexivity).
    cbn [ready self machine source_path_var destination_path_var compress_var] in P.
    rewrite P in E. cbn in E. congruence. }
  split; [exact B|]. rewrite R. cbn [snd world status_message]. now rewrite B.
Defined.

(** *** The constructor of the application *)

(** X21: The first start, in a directory without config.json that can be
    written: once the manager is set up, the constructor creates the file
    with the default record, loads that record, and leaves the two folder
    fields empty and compression off; no box is shown. *)
Theorem init_on_first_start tk {W} (os : OS W) bc (x : session W) lg m1 :
  config_json (self x) = None ->
  read_only (self x) = false ->
  Logging.__init__ os bc "logs/backup.log" (mkState (machine x) lg) = (Ret tt, m1) ->
  string_of tk (JStr "") = "" ->
  getboolean tk (JBool false) = Ret false ->
  Gui.__init__ tk os bc (mkState x lg)
  = (Ret tt,
     mkState (mkSession (mkApp (Some (Document default_config)) false default_config
                               "" "" false (dialogs (self x)))
                        "" (world m1))
             (log m1)).
Proof.
  destruct x as [[cj ro cfg sv dv cv dl] st m]. destruct tk as [so gb], m1 as [w1 lg1].
  cbn [self machine config_json read_only dialogs string_of getboolean world log].
  intros -> -> I Ts Tb.
  unfold Gui.__init__. unfold bind at 1. unfold on_manager at 1.
  cbn [world log machine self status_message]. rewrite I.
  vm_compute. rewrite Tb, Ts. reflexivity.
Qed.

Lemma init_on_first_start_witness :
  Gui.__init__ plain_tk posix ready_log (mkState (mkSession blank "" w0) [])
  = (Ret tt,
     mkState (mkSession (mkApp (Some (Document default_config)) false default_config
                               "" "" false [])
                        ""
                        (world (snd (Logging.__init__ posix ready_log "logs/backup.log"
                                       (mkState w0 [])))))
             (log (snd (Logging.__init__ posix ready_log "logs/backup.log"
                          (mkState w0 []))))).
Proof.
  apply (init_on_first_start plain_tk posix ready_log (mkSession blank "" w0) []
           (snd (Logging.__init__ posix ready_log "logs/backup.log" (mkState w0 []))));
    reflexivity.
Defined.

(** X22: A config.json that holds a JSON document which is no object (a list,
    a string, a number, null) is loaded as it is and then stops the
    constructor: reading the preferences raises, the application does not
    start, and the file stays as it was. *)
Theorem init_rejects_non_object tk {W} (os : OS W) bc (x : session W) lg m1 v :
  config_json (self x) = Some (Document v) ->
  (forall items, v <> JDict items) ->
  Logging.__init__ os bc "logs/backup.log" (mkState (machine x) lg) = (Ret tt, m1) ->
  exists e s',
    Gui.__init__ tk os bc (mkState x lg) = (Raise e, s')
    /\ config_json (self (world s')) = Some (Document v)
    /\ config (self (world s')) = v.
Proof.
  destruct x as [[cj ro cfg sv dv cv dl] st m]. destruct tk as [so gb], m1 as [w1 lg1].
  cbn [self machine config_json]. intros -> N I.
  unfold Gui.__init__. unfold bind at 1. unfold on_manager at 1.
  cbn [world log machine self status_message]. rewrite I.
  destruct v; try (do 2 eexists; split; [vm_compute; reflexivity|split; reflexivity]).
  now destruct (N items).
Qed.

Lemma init_rejects_non_object_witness :
  exists e s',
    Gui.__init__ plain_tk posix ready_log
      (mkState (mkSession (mkApp (Some (Document (JList []))) false JNull "" "" false [])
                          "" w0) [])
    = (Raise e, s')
    /\ config_json (self (world s')) = Some (Document (JList []))
    /\ config (self (world s')) = JList [].
Proof.
  apply (init_rejects_non_object plain_tk posix ready_log
           (mkSession (mkApp (Some (Document (JList []))) false JNull "" "" false [])
                      "" w0) []
           (snd (Logging.__init__ posix ready_log "logs/backup.log" (mkState w0 [])))
           (JList []));
    [reflexivity|discriminate|reflexivity].
Defined.

Lemma create_widgets_run {W} (x : session W) lg :
  _create_widgets (mkState x lg)
  = (Ret tt,
     mkState (mkSession (mkApp (config_json (self x)) (read_only (self x))
                               (config (self x)) "" "" false (dialogs (self x)))
                        "" (machine x)) lg).
Proof. destruct x as [[cj ro cfg sv dv cv dl] st m]. reflexivity. Qed.

Lemma load_preferences_keeps_config tk a lg res s' :
  _load_preferences_to_gui tk (mkState a lg) = (res, s') ->
  config (world s') = config a
  /\ config_json (world s') = config_json a
  /\ (res = Ret tt -> exists items, config a = JDict items).
Proof.
  destruct a as [cj ro cfg sv dv cv dl].
  destruct cfg as [| | | | |items];
    try (intros [= <- <-]; split; [reflexivity|split; [reflexivity|discriminate]]).
  unfold _load_preferences_to_gui.
  unfold bind, lift, config_get, set_source_path_var, set_destination_path_var,
    set_compress_var.
  cbn [world log config config_json read_only source_path_var destination_path_var
       compress_var dialogs fst snd].
  destruct (getboolean tk _) as [b|e]; intros [= <- <-]; cbn [world config config_json];
    eauto.
Qed.

(** X23: When the constructor returns, the configuration it has loaded is a
    JSON object, whatever the file held and whatever Tk and the operating
    system do. *)
Theorem init_leaves_an_object tk {W} (os : OS W) bc (s s' : state (session W)) :
  Gui.__init__ tk os bc s = (Ret tt, s') ->
  exists items, config (self (world s')) = JDict items.
Proof.
  unfold Gui.__init__. unfold bind at 1. unfold on_manager at 1.
  destruct (Logging.__init__ os bc "logs/backup.log"
              (mkState (machine (world s)) (log s))) as [[[]|e] m1];
    [|discriminate].
  unfold bind at 1. unfold on_app at 1. cbn [world log self machine status_message].
  destruct (_load_config (mkState (self (world s)) (log m1))) as [[cfg|e] [a2 lg2]];
    [|discriminate].
  unfold bind at 1. unfold on_app at 1, lift at 1, set_config.
  cbn [world log self machine status_message].
  unfold bind at 1. rewrite create_widgets_run.
  cbn [world log self machine status_message config config_json read_only dialogs].
  unfold on_app. cbn [world log self machine status_message].
  destruct (_load_preferences_to_gui tk _) as [res s5] eqn:L.
  apply load_preferences_keeps_config in L as (C & _ & D). cbn [config] in C, D.
  intros [= -> <-]. cbn [world self]. rewrite C. exact (D eq_refl).
Qed.

Lemma init_leaves_an_object_witness :
  exists items,
    config (self (world (snd (Gui.__init__ plain_tk posix ready_log
                                (mkState (mkSession blank "" w0) [])))))
    = JDict items.
Proof.
  apply (init_leaves_an_object plain_tk posix ready_log
           (mkState (mkSession blank "" w0) [])
           (snd (Gui.__init__ plain_tk posix ready_log
                   (mkState (mkSession blank "" w0) [])))).
  vm_compute. reflexivity.
Defined.

(** *** The handlers of a running application *)

Lemma save_preferences_returns a lg items :
  config a = JDict items ->
  exists a' items',
    _save_preferences_from_gui (mkState a lg) = (Ret tt, mkState a' lg)
    /\ config a' = JDict items'
    /\ source_path_var a' = source_path_var a
    /\ destination_path_var a' = destination_path_var a
    /\ compress_var a' = compress_var a.
Proof.
  destruct a as [cj [] cfg sv dv cv dl]; cbn [config]; intros ->;
    do 2 eexists; (split; [reflexivity|]); cbn; auto.
Qed.

(** X24: Once the configuration is a JSON object, as the constructor leaves
    it, the handlers of the window raise nothing and keep it an object,
    whatever the folder chosen, the fields of the window, the state of the
    disk and the outcome of the backup: [_browse_source_folder],
    [_browse_destination_folder] and [_start_backup] all return. *)
Theorem handlers_never_raise {W} (os : OS W) (x : session W) lg items folder :
  config (self x) = JDict items ->
  (exists a' items',
     _browse_source_folder folder (mkState (self x) lg) = (Ret tt, mkState a' lg)
     /\ config a' = JDict items')
  /\ (exists a' items',
        _browse_destination_folder folder (mkState (self x) lg)
        = (Ret tt, mkState a' lg)
        /\ config a' = JDict items')
  /\ (exists s' items',
        _start_backup os (mkState x lg) = (Ret tt, s')
        /\ config (self (world s')) = JDict items').
Proof.
  destruct x as [[cj ro cfg sv dv cv dl] st m]. cbn [self config]. intros ->.
  split; [|split].
  - unfold _browse_source_folder. destruct (String.eqb folder ""); cbn [negb].
    + do 2 eexists. split; reflexivity.
    + unfold bind at 1. unfold lift at 1, set_source_path_var.
      cbn [world log config_json read_only config source_path_var
           destination_path_var compress_var dialogs].
      destruct (save_preferences_returns (mkApp cj ro (JDict items) folder dv cv dl) lg
                  items eq_refl) as (a' & items' & R & C & _).
      rewrite R. eauto.
  - unfold _browse_destination_folder. destruct (String.eqb folder ""); cbn [negb].
    + do 2 eexists. split; reflexivity.
    + unfold bind at 1. unfold lift at 1, set_destination_path_var.
      cbn [world log config_json read_only config source_path_var
           destination_path_var compress_var dialogs].
      destruct (save_preferences_returns (mkApp cj ro (JDict items) sv folder cv dl) lg
                  items eq_refl) as (a' & items' & R & C & _).
      rewrite R. eauto.
  - unfold _start_backup. unfold bind at 1. unfold on_app at 1, peek at 1.
    cbn [world log self machine status_message source_path_var].
    unfold bind at 1. unfold on_app at 1, peek at 1.
    cbn [world log self machine status_message destination_path_var].
    unfold bind at 1. unfold on_app at 1, peek at 1.
    cbn [world log self machine status_message compress_var].
    destruct (String.eqb sv "").
    { do 2 eexists. split; reflexivity. }
    destruct (String.eqb dv "").
    { do 2 eexists. split; reflexivity. }
    destruct (save_preferences_returns (mkApp cj ro (JDict items) sv dv cv dl) lg
                items eq_refl) as (a' & items' & R & C & _).
    unfold bind at 1. unfold on_app at 1.
    cbn [world log self machine status_message]. rewrite R.
    cbn [world log self machine status_message].
    unfold bind at 1. unfold set_status at 1. cbn [world log self machine status_message].
    unfold bind at 1. unfold on_manager at 1. cbn [world log self machine status_message].
    destruct (perform_backup_returns os sv dv cv (mkState m lg)) as (b & m' & P).
    rewrite P. destruct a' as [cj' ro' cfg' sv' dv' cv' dl']. cbn [config] in C. subst cfg'.
    destruct b; do 2 eexists; split; reflexivity.
Qed.

Lemma handlers_never_raise_witness :
  exists s' items',
    _start_backup posix (mkState ready []) = (Ret tt, s')
    /\ config (self (world s')) = JDict items'.
Proof.
  apply (handlers_never_raise posix ready []
           [("source_folder", JStr ""); ("destination_folder", JStr "");
            ("compress_backup", JBool false); ("backup_interval_days", JInt 7)]
           "/docs" eq_refl).
Defined.

End AppFacts.
